(** * Document Parsing API: the extraction engine, embedded and verified

    A shallow embedding of [main.py] (the service module), of the
    extractors and the row loop of [BatchProcessor.py] and of the table of
    [database.py], with the library functions they call
    ([re], [str] methods, [datetime.strptime]/[strftime], [float], the
    [.2f] format) modelled as executable Rocq functions.

    Modelling conventions.
    - A Python [str] is a [string]; a character is an [ascii] read as the
      code point 0..255, and the character classes ([\d], [\s], [\w],
      [str.isalpha], [str.isdigit], [str.lower], ...) are Python's Unicode
      classes restricted to that range.
    - A Python [float] is a binary64 value kept as sign, integer mantissa
      and binary exponent; [float(s)] and the [.2f] format round exactly
      (to nearest, ties to even) with integer arithmetic.
    - [strftime("%Y")] prints the year as the C library does, without
      padding: the year 123 is printed [123], not [0123].
    - An exception is a value: fallible code returns [result].
    - What lies outside the program (the text the OCR reads, the schema
      [get_openapi] generates, the environment) is an argument of the
      function that uses it; the table of invoices is the list of its rows,
      and state ([app.openapi_schema], the table) is passed explicitly. *)

From Stdlib Require Import ZArith NArith PeanoNat List Bool Ascii String Lia.
From Stdlib Require Import Sorted.
From Stdlib Require Import DecimalString DecimalPos DecimalN DecimalNat.
Import ListNotations.
Open Scope string_scope.
Open Scope nat_scope.

Set Implicit Arguments.

(** ** Exceptions *)

Inductive exn : Type :=
| ValueError
| IndexError
| ReError
| TypeError
| KeyError
| OverflowError
| OperationalError.

Inductive result (A : Type) : Type :=
| Ok (a : A)
| Raise (e : exn).

Arguments Ok {A} a.
Arguments Raise {A} e.

Definition bind {A B : Type} (m : result A) (f : A -> result B) : result B :=
  match m with
  | Ok a => f a
  | Raise e => Raise e
  end.

Notation "x <- m ;; k" := (bind m (fun x => k))
  (at level 61, m at next level, right associativity).
Notation "' p <- m ;; k" := (bind m (fun p => k))
  (at level 61, p pattern, m at next level, right associativity).

(** ** Characters *)

Module Chars.

Definition ord (c : ascii) : N := N_of_ascii c.

Definition between (lo hi : N) (c : ascii) : bool :=
  ((lo <=? ord c) && (ord c <=? hi))%N.

Definition is_code (n : N) (c : ascii) : bool := (ord c =? n)%N.

(** [\d] of [re] on [str], and [str.isdecimal]. *)
Definition isdecimal (c : ascii) : bool := between 48 57 c.

(** [str.isdigit]: the decimal digits and the superscripts 2, 3, 1. *)
Definition isdigit (c : ascii) : bool :=
  isdecimal c || is_code 178 c || is_code 179 c || is_code 185 c.

(** [str.isspace], the characters [str.strip()] and [str.split()] remove
    and [\s] matches. *)
Definition isspace (c : ascii) : bool :=
  between 9 13 c || between 28 32 c || is_code 133 c || is_code 160 c.

Definition isupper_ascii (c : ascii) : bool := between 65 90 c.
Definition islower_ascii (c : ascii) : bool := between 97 122 c.

(** [str.isalpha]. *)
Definition isalpha (c : ascii) : bool :=
  isupper_ascii c || islower_ascii c
  || is_code 170 c || is_code 181 c || is_code 186 c
  || between 192 214 c || between 216 246 c || between 248 255 c.

(** [str.isnumeric] beyond [isdigit]: the vulgar fractions. *)
Definition isnumeric (c : ascii) : bool :=
  isdigit c || between 188 190 c.

(** [\w]: alphanumeric or underscore. *)
Definition isword (c : ascii) : bool :=
  isalpha c || isnumeric c || is_code 95 c.

(** [str.lower] on one character. *)
Definition lower (c : ascii) : ascii :=
  if isupper_ascii c || between 192 214 c || between 216 222 c
  then ascii_of_N (ord c + 32)
  else c.

(** The other case of an ASCII letter ([re.IGNORECASE] folds only these
    below code point 256). *)
Definition swapcase_ascii (c : ascii) : ascii :=
  if isupper_ascii c then ascii_of_N (ord c + 32)
  else if islower_ascii c then ascii_of_N (ord c - 32)
  else c.

(** Line boundaries of [str.splitlines]. *)
Definition islinebreak (c : ascii) : bool :=
  between 10 13 c || between 28 30 c || is_code 133 c.

Definition digit_value (c : ascii) : Z := Z.of_N (ord c) - 48.

Definition digit_char (d : Z) : ascii := ascii_of_N (Z.to_N (d + 48)).

End Chars.

(** ** Python [str] and [list] operations *)

Module Str.

Definition nonempty (s : string) : bool :=
  match s with
  | EmptyString => false
  | String _ _ => true
  end.

Fixpoint lower (s : string) : string :=
  match s with
  | EmptyString => EmptyString
  | String c s' => String (Chars.lower c) (lower s')
  end.

(** [s.replace(old, new)] for a one-character [old]. *)
Fixpoint replace (old : ascii) (new : string) (s : string) : string :=
  match s with
  | EmptyString => EmptyString
  | String c s' =>
      if Ascii.eqb c old then new ++ replace old new s'
      else String c (replace old new s')
  end.

Fixpoint lstrip (s : string) : string :=
  match s with
  | EmptyString => EmptyString
  | String c s' => if Chars.isspace c then lstrip s' else s
  end.

Fixpoint rstrip (s : string) : string :=
  match s with
  | EmptyString => EmptyString
  | String c s' =>
      match rstrip s' with
      | EmptyString => if Chars.isspace c then EmptyString else String c EmptyString
      | r => String c r
      end
  end.

Definition strip (s : string) : string := rstrip (lstrip s).

(** [s.count(c)] *)
Fixpoint count (c : ascii) (s : string) : nat :=
  match s with
  | EmptyString => 0
  | String a s' => (if Ascii.eqb a c then 1 else 0) + count c s'
  end.

(** [s.rfind(c)]: the highest index of [c], or -1. *)
Fixpoint rfind_from (c : ascii) (i : Z) (s : string) : Z :=
  match s with
  | EmptyString => (-1)%Z
  | String a s' =>
      let r := rfind_from c (i + 1) s' in
      if (0 <=? r)%Z then r else if Ascii.eqb a c then i else (-1)%Z
  end.

Definition rfind (c : ascii) (s : string) : Z := rfind_from c 0 s.

Fixpoint startswith (p s : string) : bool :=
  match p, s with
  | EmptyString, _ => true
  | String a p', String b s' => Ascii.eqb a b && startswith p' s'
  | String _ _, EmptyString => false
  end.

(** [sub in s] *)
Fixpoint contains (sub s : string) : bool :=
  startswith sub s ||
  match s with
  | EmptyString => false
  | String _ s' => contains sub s'
  end.

(** Push a character onto the piece under construction. *)
Definition push (c : ascii) (pieces : list string) : list string :=
  match pieces with
  | [] => [String c EmptyString]
  | p :: ps => String c p :: ps
  end.

(** [s.split(sep)] for a one-character separator. *)
Fixpoint split (sep : ascii) (s : string) : list string :=
  match s with
  | EmptyString => [EmptyString]
  | String c s' =>
      if Ascii.eqb c sep then EmptyString :: split sep s'
      else push c (split sep s')
  end.

Fixpoint split_runs (s : string) : list string :=
  match s with
  | EmptyString => [EmptyString]
  | String c s' =>
      if Chars.isspace c then EmptyString :: split_runs s'
      else push c (split_runs s')
  end.

(** [s.split()]: the maximal runs of non-whitespace characters. *)
Definition split_ws (s : string) : list string :=
  filter nonempty (split_runs s).

Fixpoint lines_go (after_cr : bool) (s : string) : list string :=
  match s with
  | EmptyString => [EmptyString]
  | String c s' =>
      if after_cr && Chars.is_code 10 c then lines_go false s'
      else if Chars.islinebreak c
           then EmptyString :: lines_go (Chars.is_code 13 c) s'
           else push c (lines_go false s')
  end.

Fixpoint drop_last_empty (l : list string) : list string :=
  match l with
  | [] => []
  | [EmptyString] => []
  | x :: l' => x :: drop_last_empty l'
  end.

(** [s.splitlines()]: a final line break opens no further line. *)
Definition splitlines (s : string) : list string :=
  drop_last_empty (lines_go false s).

(** [sum(pred(c) for c in s)] *)
Fixpoint count_if (p : ascii -> bool) (s : string) : nat :=
  match s with
  | EmptyString => 0
  | String c s' => (if p c then 1 else 0) + count_if p s'
  end.

Fixpoint forallb (p : ascii -> bool) (s : string) : bool :=
  match s with
  | EmptyString => true
  | String c s' => p c && forallb p s'
  end.

Fixpoint repeat (s : string) (n : nat) : string :=
  match n with
  | O => EmptyString
  | S n' => s ++ repeat s n'
  end.

(** [s.endswith(suffix)] *)
Definition endswith (suffix s : string) : bool :=
  let n := String.length s in
  let k := String.length suffix in
  Nat.leb k n && String.eqb (String.substring (n - k) k s) suffix.

End Str.

Module PyList.

(** [l[:n]] *)
Definition slice_to {A : Type} (n : Z) (l : list A) : list A :=
  if (0 <=? n)%Z then firstn (Z.to_nat n) l
  else firstn (Z.to_nat (Z.of_nat (List.length l) + n)) l.

(** [l[0]] *)
Definition first {A : Type} (l : list A) : result A :=
  match l with
  | [] => Raise IndexError
  | x :: _ => Ok x
  end.

(** [l[-1]] *)
Fixpoint last {A : Type} (l : list A) : result A :=
  match l with
  | [] => Raise IndexError
  | [x] => Ok x
  | _ :: l' => last l'
  end.

(** [enumerate(l)] *)
Fixpoint enumerate_from {A : Type} (i : nat) (l : list A) : list (nat * A) :=
  match l with
  | [] => []
  | x :: l' => (i, x) :: enumerate_from (S i) l'
  end.

Definition enumerate {A : Type} (l : list A) : list (nat * A) :=
  enumerate_from 0 l.

End PyList.

(** ** Regular expressions: the fragment of [re] the program uses

    A backtracking matcher with Python's priorities: alternatives are tried
    left to right, repetitions are greedy, [search] returns the leftmost
    match. *)

Module Re.

Inductive item : Type :=
| IChar (c : ascii)
| IRange (lo hi : ascii)
| IDigit              (* \d *)
| ISpace              (* \s *)
| IWord               (* \w *)
| INotDigit           (* \D *)
| INotSpace           (* \S *)
| INotWord.           (* \W *)

Inductive regex : Type :=
| Eps
| Lit (c : ascii)
| Dot
| Cls (neg : bool) (items : list item)
| Cat (r1 r2 : regex)
| Alt (r1 r2 : regex)
| Rep (lo : nat) (hi : option nat) (r : regex)
| Group (n : nat) (r : regex)
| WordB               (* \b *)
| Bol                 (* ^ *)
| Eol.                (* $ *)

Record flags : Type := { ignorecase : bool; dotall : bool }.

Definition NOFLAGS : flags := {| ignorecase := false; dotall := false |}.
Definition IGNORECASE : flags := {| ignorecase := true; dotall := false |}.
Definition IGNORECASE_DOTALL : flags := {| ignorecase := true; dotall := true |}.

(** A position in the subject: the character before it, its index, and what
    is left to read. *)
Record cursor : Type := { prev : option ascii; pos : nat; rest : string }.

Definition start_of (s : string) : cursor :=
  {| prev := None; pos := 0; rest := s |}.

(** Group number -> (start, end). *)
Definition caps : Type := list (nat * (nat * nat)).

Fixpoint lookup (n : nat) (g : caps) : option (nat * nat) :=
  match g with
  | [] => None
  | (k, v) :: g' => if Nat.eqb k n then Some v else lookup n g'
  end.

Definition item_matches (it : item) (c : ascii) : bool :=
  match it with
  | IChar a => Ascii.eqb a c
  | IRange lo hi => Chars.between (Chars.ord lo) (Chars.ord hi) c
  | IDigit => Chars.isdecimal c
  | ISpace => Chars.isspace c
  | IWord => Chars.isword c
  | INotDigit => negb (Chars.isdecimal c)
  | INotSpace => negb (Chars.isspace c)
  | INotWord => negb (Chars.isword c)
  end.

Definition in_items (fl : flags) (items : list item) (c : ascii) : bool :=
  existsb (fun it => item_matches it c) items
  || (ignorecase fl
      && existsb (fun it => item_matches it (Chars.swapcase_ascii c)) items).

Definition lit_matches (fl : flags) (a c : ascii) : bool :=
  Ascii.eqb a c || (ignorecase fl && Ascii.eqb a (Chars.swapcase_ascii c)).

(** Does the regex node accept the single character [c]? *)
Definition accepts (fl : flags) (r : regex) (c : ascii) : bool :=
  match r with
  | Lit a => lit_matches fl a c
  | Dot => dotall fl || negb (Chars.is_code 10 c)
  | Cls neg items => xorb neg (in_items fl items c)
  | _ => false
  end.

Definition word_before (c : cursor) : bool :=
  match prev c with
  | Some a => Chars.isword a
  | None => false
  end.

Definition word_after (c : cursor) : bool :=
  match rest c with
  | String a _ => Chars.isword a
  | EmptyString => false
  end.

Definition at_boundary (c : cursor) : bool :=
  xorb (word_before c) (word_after c).

Definition at_end (c : cursor) : bool :=
  match rest c with
  | EmptyString => true
  | String a EmptyString => Chars.is_code 10 a
  | _ => false
  end.

Definition hi_open (hi : option nat) : bool :=
  match hi with
  | Some 0 => false
  | _ => true
  end.

Definition hi_pred (hi : option nat) : option nat :=
  match hi with
  | Some n => Some (Nat.pred n)
  | None => None
  end.

Section Matcher.

Variable fl : flags.

Definition outcome : Type := (cursor * caps)%type.
Definition cont : Type := cursor -> caps -> option outcome.

(** Greedy repetition of [body]: take one more round when allowed and
    possible, otherwise stop if the lower bound is met. A round beyond the
    lower bound has to move forward. *)
Fixpoint rep_loop (body : cursor -> caps -> cont -> option outcome)
    (fuel lo : nat) (hi : option nat) (c : cursor) (g : caps) (k : cont)
    : option outcome :=
  let stop := if Nat.eqb lo 0 then k c g else None in
  match fuel with
  | O => stop
  | S fuel' =>
      if hi_open hi then
        match body c g (fun c' g' =>
                 if Nat.ltb (pos c) (pos c') || Nat.ltb 0 lo
                 then rep_loop body fuel' (Nat.pred lo) (hi_pred hi) c' g' k
                 else None) with
        | Some o => Some o
        | None => stop
        end
      else stop
  end.

Definition one_char (r : regex) (c : cursor) (g : caps) (k : cont)
    : option outcome :=
  match rest c with
  | String a s =>
      if accepts fl r a
      then k {| prev := Some a; pos := S (pos c); rest := s |} g
      else None
  | EmptyString => None
  end.

Fixpoint rmatch (r : regex) (c : cursor) (g : caps) (k : cont)
    : option outcome :=
  match r with
  | Eps => k c g
  | Lit _ | Dot | Cls _ _ => one_char r c g k
  | Cat r1 r2 => rmatch r1 c g (fun c' g' => rmatch r2 c' g' k)
  | Alt r1 r2 =>
      match rmatch r1 c g k with
      | Some o => Some o
      | None => rmatch r2 c g k
      end
  | Rep lo hi r1 =>
      rep_loop (rmatch r1) (lo + String.length (rest c) + 1) lo hi c g k
  | Group n r1 =>
      rmatch r1 c g (fun c' g' => k c' ((n, (pos c, pos c')) :: g'))
  | WordB => if at_boundary c then k c g else None
  | Bol => if Nat.eqb (pos c) 0 then k c g else None
  | Eol => if at_end c then k c g else None
  end.

Definition match_here (r : regex) (c : cursor) : option outcome :=
  rmatch r c [] (fun c' g' => Some (c', g')).

(** Leftmost match at or after the cursor: (start, end, groups). *)
Fixpoint scan (r : regex) (p : option ascii) (i : nat) (s : string)
    : option (nat * nat * caps) :=
  match match_here r {| prev := p; pos := i; rest := s |} with
  | Some (c', g) => Some (i, pos c', g)
  | None =>
      match s with
      | EmptyString => None
      | String a s' => scan r (Some a) (S i) s'
      end
  end.

(** All non-overlapping matches, left to right. [skip] characters are still
    covered by the previous match. An empty match is followed by a step of
    one character. *)
Fixpoint scan_all (r : regex) (p : option ascii) (i : nat) (s : string)
    (skip : nat) : list (nat * nat) :=
  match skip with
  | S skip' =>
      match s with
      | EmptyString => []
      | String a s' => scan_all r (Some a) (S i) s' skip'
      end
  | O =>
      match match_here r {| prev := p; pos := i; rest := s |} with
      | Some (c', _) =>
          (i, pos c') ::
          match s with
          | EmptyString => []
          | String a s' => scan_all r (Some a) (S i) s' (pos c' - i - 1)
          end
      | None =>
          match s with
          | EmptyString => []
          | String a s' => scan_all r (Some a) (S i) s' 0
          end
      end
  end.

End Matcher.

(** Replace every match by [repl] (a literal replacement). *)
Fixpoint sub_go (fl : flags) (r : regex) (repl : string) (p : option ascii)
    (i : nat) (s : string) (skip : nat) : string :=
  match skip with
  | S skip' =>
      match s with
      | EmptyString => EmptyString
      | String a s' => sub_go fl r repl (Some a) (S i) s' skip'
      end
  | O =>
      match match_here fl r {| prev := p; pos := i; rest := s |} with
      | Some (c', _) =>
          repl ++
          match s with
          | EmptyString => EmptyString
          | String a s' =>
              match pos c' - i with
              | O => String a (sub_go fl r repl (Some a) (S i) s' 0)
              | S n => sub_go fl r repl (Some a) (S i) s' n
              end
          end
      | None =>
          match s with
          | EmptyString => EmptyString
          | String a s' => String a (sub_go fl r repl (Some a) (S i) s' 0)
          end
      end
  end.

(** The match object. *)
Record mobj : Type :=
  { m_text : string; m_start : nat; m_end : nat; m_caps : caps }.

Definition slice (text : string) (i j : nat) : string :=
  String.substring i (j - i) text.

(** [m.group(0)] *)
Definition group0 (m : mobj) : string := slice (m_text m) (m_start m) (m_end m).

(** [m.group(n)] for [n > 0]. A group that took no part in the match is not
    told apart from a group the pattern does not have: the program reads
    only groups that every match of their pattern sets. *)
Definition group (n : nat) (m : mobj) : result string :=
  match lookup n (m_caps m) with
  | Some (i, j) => Ok (slice (m_text m) i j)
  | None => Raise IndexError
  end.

(** [m.end()] *)
Definition mend (m : mobj) : nat := m_end m.

(** [pattern.match(text)] *)
Definition match_ (fl : flags) (r : regex) (text : string) : option mobj :=
  match match_here fl r (start_of text) with
  | Some (c', g) =>
      Some {| m_text := text; m_start := 0; m_end := pos c'; m_caps := g |}
  | None => None
  end.

(** [pattern.search(text)] *)
Definition search (fl : flags) (r : regex) (text : string) : option mobj :=
  match scan fl r None 0 text with
  | Some (i, j, g) =>
      Some {| m_text := text; m_start := i; m_end := j; m_caps := g |}
  | None => None
  end.

(** [pattern.findall(text)] for a pattern without capturing groups. *)
Definition findall (fl : flags) (r : regex) (text : string) : list string :=
  map (fun ij => slice text (fst ij) (snd ij)) (scan_all fl r None 0 text 0).

(** [pattern.sub(repl, text)] *)
Definition sub (fl : flags) (r : regex) (repl text : string) : string :=
  sub_go fl r repl None 0 text 0.

End Re.

(** ** [re.compile]: reading a pattern string

    The patterns below are the program's own pattern strings; the parser
    covers the syntax they use and raises [re.error] on anything else. *)

Module ReParse.
Import Re.

Definition LF : ascii := ascii_of_N 10.
Definition CR : ascii := ascii_of_N 13.
Definition TAB : ascii := ascii_of_N 9.

(** An escape inside or outside a class that stands for a set of
    characters or a control character. *)
Definition class_escape (e : ascii) : option item :=
  match e with
  | "d"%char => Some IDigit
  | "s"%char => Some ISpace
  | "w"%char => Some IWord
  | "D"%char => Some INotDigit
  | "S"%char => Some INotSpace
  | "W"%char => Some INotWord
  | "n"%char => Some (IChar LF)
  | "r"%char => Some (IChar CR)
  | "t"%char => Some (IChar TAB)
  | _ => if Chars.isword e then None else Some (IChar e)
  end.

Fixpoint p_items (fuel : nat) (s : string) : option (list item * string) :=
  match fuel with
  | O => None
  | S fuel' =>
      match s with
      | EmptyString => None
      | String "]" s' => Some ([], s')
      | String "\" (String e s') =>
          match class_escape e, p_items fuel' s' with
          | Some it, Some (its, s'') => Some (it :: its, s'')
          | _, _ => None
          end
      | String a (String "-" (String "]" s')) =>
          Some ([IChar a; IChar "-"], s')
      | String _ (String "-" (String "\" _)) => None
      | String a (String "-" (String b s')) =>
          match p_items fuel' s' with
          | Some (its, s'') => Some (IRange a b :: its, s'')
          | None => None
          end
      | String a s' =>
          match p_items fuel' s' with
          | Some (its, s'') => Some (IChar a :: its, s'')
          | None => None
          end
      end
  end.

Fixpoint p_nat (acc : nat) (seen : bool) (s : string) : option nat * string :=
  match s with
  | String c s' =>
      if Chars.isdecimal c
      then p_nat (10 * acc + Z.to_nat (Chars.digit_value c)) true s'
      else (if seen then Some acc else None, s)
  | EmptyString => (if seen then Some acc else None, s)
  end.

(** The quantifier after an atom, if any. *)
Definition p_quant (a : regex) (s : string) : option (regex * string) :=
  let greedy (r : regex) (s' : string) :=
    match s' with
    | String "?" _ | String "+" _ => None
    | _ => Some (r, s')
    end in
  match s with
  | String "*" s' => greedy (Rep 0 None a) s'
  | String "+" s' => greedy (Rep 1 None a) s'
  | String "?" s' => greedy (Rep 0 (Some 1) a) s'
  | String "{" s' =>
      match p_nat 0 false s' with
      | (Some lo, String "}" s'') => greedy (Rep lo (Some lo) a) s''
      | (Some lo, String "," s'') =>
          match p_nat 0 false s'' with
          | (Some hi, String "}" s3) => greedy (Rep lo (Some hi) a) s3
          | (None, String "}" s3) => greedy (Rep lo None a) s3
          | _ => None
          end
      | _ => None
      end
  | _ => Some (a, s)
  end.

Definition cat (a b : regex) : regex :=
  match b with
  | Eps => a
  | _ => Cat a b
  end.

(** Alternation, sequence and atom; [gi] counts the capturing groups opened
    so far. *)
Fixpoint p_alt (fuel gi : nat) (s : string) {struct fuel}
    : option (regex * string * nat) :=
  match fuel with
  | O => None
  | S fuel' =>
      match p_seq fuel' gi s with
      | Some (r, String "|" s', gi') =>
          match p_alt fuel' gi' s' with
          | Some (r2, s'', gi'') => Some (Alt r r2, s'', gi'')
          | None => None
          end
      | other => other
      end
  end
with p_seq (fuel gi : nat) (s : string) {struct fuel}
    : option (regex * string * nat) :=
  match fuel with
  | O => None
  | S fuel' =>
      match s with
      | EmptyString | String "|" _ | String ")" _ => Some (Eps, s, gi)
      | _ =>
          match p_atom fuel' gi s with
          | Some (a, s1, gi1) =>
              match p_quant a s1 with
              | Some (q, s2) =>
                  match p_seq fuel' gi1 s2 with
                  | Some (r, s3, gi3) => Some (cat q r, s3, gi3)
                  | None => None
                  end
              | None => None
              end
          | None => None
          end
      end
  end
with p_atom (fuel gi : nat) (s : string) {struct fuel}
    : option (regex * string * nat) :=
  match fuel with
  | O => None
  | S fuel' =>
      match s with
      | String "(" (String "?" (String ":" s')) =>
          match p_alt fuel' gi s' with
          | Some (r, String ")" s'', gi') => Some (r, s'', gi')
          | _ => None
          end
      | String "(" (String "?" _) => None
      | String "(" s' =>
          match p_alt fuel' (S gi) s' with
          | Some (r, String ")" s'', gi') => Some (Group (S gi) r, s'', gi')
          | _ => None
          end
      | String "[" (String "^" s') =>
          match p_items fuel' s' with
          | Some (its, s'') => Some (Cls true its, s'', gi)
          | None => None
          end
      | String "[" s' =>
          match p_items fuel' s' with
          | Some (its, s'') => Some (Cls false its, s'', gi)
          | None => None
          end
      | String "\" (String "b" s') => Some (WordB, s', gi)
      | String "\" (String e s') =>
          match class_escape e with
          | Some (IChar c) => Some (Lit c, s', gi)
          | Some it => Some (Cls false [it], s', gi)
          | None => None
          end
      | String "." s' => Some (Dot, s', gi)
      | String "^" s' => Some (Bol, s', gi)
      | String "$" s' => Some (Eol, s', gi)
      | String "*" _ | String "+" _ | String "?" _ | String "{" _
      | String ")" _ | String "|" _ | String "\" _ | EmptyString => None
      | String c s' => Some (Lit c, s', gi)
      end
  end.

(** [re.compile(pattern)] *)
Definition compile (pattern : string) : result regex :=
  match p_alt (4 * String.length pattern + 4) 0 pattern with
  | Some (r, EmptyString, _) => Ok r
  | _ => Raise ReError
  end.

End ReParse.

(** [re.search(pattern, text, flags)] and its companions on pattern strings. *)
Definition re_search (pattern text : string) (fl : Re.flags)
    : result (option Re.mobj) :=
  r <- ReParse.compile pattern ;; Ok (Re.search fl r text).

Definition re_match (pattern text : string) (fl : Re.flags)
    : result (option Re.mobj) :=
  r <- ReParse.compile pattern ;; Ok (Re.match_ fl r text).

Definition re_findall (pattern text : string) (fl : Re.flags)
    : result (list string) :=
  r <- ReParse.compile pattern ;; Ok (Re.findall fl r text).

Definition re_sub (pattern repl text : string) (fl : Re.flags)
    : result string :=
  r <- ReParse.compile pattern ;; Ok (Re.sub fl r repl text).

(** ** Numbers as text *)

Module Num.

(** [str(n)] for a natural number. *)
Definition dec (n : Z) : string := NilZero.string_of_uint (N.to_uint (Z.to_N n)).

(** ["%0wd" % n] for a natural number. *)
Definition pad (w : nat) (n : Z) : string :=
  let s := dec n in
  Str.repeat "0" (w - String.length s) ++ s.

Fixpoint digits_value (acc : Z) (s : string) : option Z :=
  match s with
  | EmptyString => Some acc
  | String c s' =>
      if Chars.isdecimal c
      then digits_value (10 * acc + Chars.digit_value c)%Z s'
      else None
  end.

(** [int(s)] for an unsigned numeral, blanks around it allowed. *)
Definition int_of_str (s : string) : result Z :=
  match Str.strip s with
  | EmptyString => Raise ValueError
  | t => match digits_value 0 t with
         | Some v => Ok v
         | None => Raise ValueError
         end
  end.

End Num.

(** ** binary64 *)

Module Float.
Local Open Scope Z_scope.

Inductive float : Type :=
| Fin (neg : bool) (m e : Z)     (* (-1)^neg * m * 2^e *)
| Inf (neg : bool).

(** [a / b] rounded to the nearest integer, ties to even ([0 <= a], [0 < b]). *)
Definition div_rne (a b : Z) : Z :=
  let q := a / b in
  let r := a mod b in
  if 2 * r <? b then q
  else if b <? 2 * r then q + 1
  else if Z.even q then q else q + 1.

(** The binary64 value nearest to [num / den] ([0 <= num], [0 < den]):
    53 bits of mantissa, exponent of the last bit from -1074 to 971. *)
Definition of_ratio (neg : bool) (num den : Z) : float :=
  if num =? 0 then Fin neg 0 0
  else
    let e0 := Z.log2 num - Z.log2 den in
    let reaches :=
      if 0 <=? e0 then den * 2 ^ e0 <=? num else den <=? num * 2 ^ (- e0) in
    let e := if reaches then e0 else e0 - 1 in
    let sh := Z.max (e - 52) (-1074) in
    let m :=
      if 0 <=? sh then div_rne num (den * 2 ^ sh)
      else div_rne (num * 2 ^ (- sh)) den in
    if m =? 0 then Fin neg 0 0
    else
      let '(m', sh') := if m =? 2 ^ 53 then (2 ^ 52, sh + 1) else (m, sh) in
      if 971 <? sh' then Inf neg else Fin neg m' sh'.

Fixpoint span_digits (s : string) : string * string :=
  match s with
  | String c s' =>
      if Chars.isdecimal c
      then let '(d, r) := span_digits s' in (String c d, r)
      else (EmptyString, s)
  | EmptyString => (EmptyString, EmptyString)
  end.

Definition digits_to_Z (s : string) : Z :=
  match Num.digits_value 0 s with
  | Some v => v
  | None => 0
  end.

(** [float(s)] on the text that reaches it in this program, which holds
    only digits, periods and minus signs: an optional sign, then digits
    with at most one period among them and at least one digit. Anything
    else is a [ValueError]. (Exponents, [inf], [nan], underscores and blanks,
    which [float] also reads, need characters that cannot occur here.) *)
Definition of_str (s : string) : result float :=
  let '(neg, body) :=
    match s with
    | String c s' =>
        if Ascii.eqb c "-" then (true, s')
        else if Ascii.eqb c "+" then (false, s')
        else (false, s)
    | EmptyString => (false, s)
    end in
  let '(ip, r) := span_digits body in
  let '(fp, r') :=
    match r with
    | String c r1 =>
        if Ascii.eqb c "." then span_digits r1 else (EmptyString, r)
    | EmptyString => (EmptyString, r)
    end in
  match r' with
  | EmptyString =>
      if Str.nonempty ip || Str.nonempty fp
      then Ok (of_ratio neg (digits_to_Z (ip ++ fp))
                       (10 ^ Z.of_nat (String.length fp)))
      else Raise ValueError
  | _ => Raise ValueError
  end.

(** [f"{x:.2f}"] *)
Definition format_2f (x : float) : string :=
  match x with
  | Fin neg m e =>
      let k := if 0 <=? e then m * 2 ^ e * 100
               else div_rne (m * 100) (2 ^ (- e)) in
      ((if neg then "-" else "") ++ Num.dec (k / 100) ++ "."
        ++ Num.pad 2 (k mod 100))%string
  | Inf neg => ((if neg then "-" else "") ++ "inf")%string
  end.

(** [x < y] *)
Definition ltb (x y : float) : bool :=
  match x, y with
  | Inf true, Inf true => false
  | Inf true, _ => true
  | _, Inf true => false
  | Inf false, _ => false
  | _, Inf false => true
  | Fin n1 m1 e1, Fin n2 m2 e2 =>
      let lo := Z.min e1 e2 in
      let v1 := (if n1 then -1 else 1) * m1 * 2 ^ (e1 - lo) in
      let v2 := (if n2 then -1 else 1) * m2 * 2 ^ (e2 - lo) in
      v1 <? v2
  end.

(** [max(l)]: the first of the greatest elements. *)
Definition max (l : list float) : result float :=
  match l with
  | [] => Raise ValueError
  | x :: l' => Ok (fold_left (fun best y => if ltb best y then y else best) l' x)
  end.

Definition nonneg (x : float) : bool :=
  match x with
  | Fin neg _ _ => negb neg
  | Inf neg => negb neg
  end.

End Float.

(** ** [datetime]: dates, [strptime], [strftime] *)

Module DateTime.
Local Open Scope Z_scope.

Record date : Type := { year : Z; month : Z; day : Z }.

Definition is_leap (y : Z) : bool :=
  (y mod 4 =? 0) && (negb (y mod 100 =? 0) || (y mod 400 =? 0)).

Definition days_in_month (y m : Z) : Z :=
  if m =? 2 then (if is_leap y then 29 else 28)
  else if (m =? 4) || (m =? 6) || (m =? 9) || (m =? 11) then 30
  else 31.

Definition valid (d : date) : bool :=
  (1 <=? year d) && (year d <=? 9999)
  && (1 <=? month d) && (month d <=? 12)
  && (1 <=? day d) && (day d <=? days_in_month (year d) (month d)).

(** [datetime.date(y, m, d)] *)
Definition make (y m d : Z) : result date :=
  let dt := {| year := y; month := m; day := d |} in
  if valid dt then Ok dt else Raise ValueError.

(** [d.strftime("%Y-%m-%d")]: [%Y] is the year in decimal, not padded;
    [%m] and [%d] have two digits. *)
Definition strftime_iso (d : date) : string :=
  (Num.dec (year d) ++ "-" ++ Num.pad 2 (month d) ++ "-"
   ++ Num.pad 2 (day d))%string.

Definition a_month : list string :=
  ["jan"; "feb"; "mar"; "apr"; "may"; "jun";
   "jul"; "aug"; "sep"; "oct"; "nov"; "dec"]%string.

Definition f_month : list string :=
  ["january"; "february"; "march"; "april"; "may"; "june"; "july";
   "august"; "september"; "october"; "november"; "december"]%string.

(** The regex of a directive, as [_strptime.TimeRE] builds it; the named
    group [(?P<x>...)] is written as a plain group, and groups are told
    apart by their place in the format. Month names are listed longest
    first. *)
Definition directive_pattern (d : ascii) : result string :=
  match d with
  | "d"%char => Ok "(3[0-1]|[1-2]\d|0[1-9]|[1-9]| [1-9])"%string
  | "m"%char => Ok "(1[0-2]|0[1-9]|[1-9])"%string
  | "y"%char => Ok "(\d\d)"%string
  | "Y"%char => Ok "(\d\d\d\d)"%string
  | "b"%char => Ok "(jan|feb|mar|apr|may|jun|jul|aug|sep|oct|nov|dec)"%string
  | "B"%char =>
      Ok ("(september|february|november|december|january|october"
          ++ "|august|march|april|june|july|may)")%string
  | _ => Raise ValueError
  end.

Definition regex_special (c : ascii) : bool :=
  Str.contains (String c EmptyString) "\.^$*+?(){}[]|"%string.

(** [TimeRE.pattern(format)] with the directives met, in order: special
    characters escaped, each run of blanks turned into [\s+], each directive
    replaced by its regex. *)
Fixpoint format_pattern (in_blank : bool) (fmt : string)
    : result (string * list ascii) :=
  match fmt with
  | EmptyString => Ok (EmptyString, [])
  | String "%" EmptyString => Raise ValueError
  | String "%" (String d fmt') =>
      p <- directive_pattern d ;;
      '(rest, ds) <- format_pattern false fmt' ;;
      Ok ((p ++ rest)%string, d :: ds)
  | String c fmt' =>
      if Chars.isspace c then
        '(rest, ds) <- format_pattern true fmt' ;;
        Ok (((if in_blank then "" else "\s+") ++ rest)%string, ds)
      else
        '(rest, ds) <- format_pattern false fmt' ;;
        Ok (((if regex_special c then "\" else "") ++ String c rest)%string, ds)
  end.

Fixpoint index_of (x : string) (l : list string) (i : Z) : result Z :=
  match l with
  | [] => Raise ValueError
  | y :: l' => if String.eqb x y then Ok i else index_of x l' (i + 1)
  end.

(** The fields found so far: year, month, day. *)
Definition fields : Type := (Z * Z * Z)%type.

(** One directive's group, read into its field. *)
Definition read_field (d : ascii) (text : string) (f : fields)
    : result fields :=
  let '(y, m, dd) := f in
  match d with
  | "y"%char =>
      v <- Num.int_of_str text ;;
      Ok (if v <=? 68 then v + 2000 else v + 1900, m, dd)
  | "Y"%char => v <- Num.int_of_str text ;; Ok (v, m, dd)
  | "m"%char => v <- Num.int_of_str text ;; Ok (y, v, dd)
  | "B"%char => v <- index_of (Str.lower text) f_month 1 ;; Ok (y, v, dd)
  | "b"%char => v <- index_of (Str.lower text) a_month 1 ;; Ok (y, v, dd)
  | "d"%char => v <- Num.int_of_str text ;; Ok (y, m, v)
  | _ => Ok f
  end.

Fixpoint read_fields (ds : list ascii) (n : nat) (m : Re.mobj) (f : fields)
    : result fields :=
  match ds with
  | [] => Ok f
  | d :: ds' =>
      text <- Re.group n m ;;
      f' <- read_field d text f ;;
      read_fields ds' (S n) m f'
  end.

(** [datetime.strptime(data, format)], the date part. A pattern that does
    not compile cannot arise from the formats above. *)
Definition strptime (data fmt : string) : result date :=
  '(pattern, ds) <- format_pattern false fmt ;;
  found <- re_match pattern data Re.IGNORECASE ;;
  match found with
  | None => Raise ValueError
  | Some m =>
      if negb (Nat.eqb (String.length data) (Re.mend m)) then Raise ValueError
      else
        '(y, mo, d) <- read_fields ds 1 m (1900, 1, 1) ;;
        make y mo d
  end.

End DateTime.

(** ** The date loop of both files *)

Definition NOT_FOUND : string := "Not found".

Definition possible_formats : list string :=
  [ "%m/%d/%Y"; "%m/%d/%y"; "%m-%d-%Y"; "%m-%d-%y";
    "%Y-%m-%d"; "%Y/%m/%d";
    "%b %d %Y"; "%B %d %Y";
    "%b %d, %Y"; "%B %d, %Y" ].

(** [clean_text_for_dates], the same in both files. *)
Definition clean_text_for_dates (text : string) : string :=
  Str.replace "O" "0" (Str.replace "l" "1" (Str.replace "I" "1" text)).

(** The inner loop: the first format that parses returns; a [ValueError]
    moves on to the next format. [None] is the loop running out. *)
Fixpoint try_formats (raw_date : string) (fmts : list string)
    : result (option string) :=
  match fmts with
  | [] => Ok None
  | fmt :: fmts' =>
      match DateTime.strptime raw_date fmt with
      | Ok parsed => Ok (Some (DateTime.strftime_iso parsed))
      | Raise ValueError => try_formats raw_date fmts'
      | Raise e => Raise e
      end
  end.

(** The outer loop over [date_patterns]. *)
Fixpoint try_patterns (text : string) (date_patterns : list string)
    : result string :=
  match date_patterns with
  | [] => Ok NOT_FOUND
  | pattern :: patterns' =>
      found <- re_search pattern text Re.IGNORECASE ;;
      match found with
      | Some m =>
          r <- try_formats (Re.group0 m) possible_formats ;;
          match r with
          | Some d => Ok d
          | None => try_patterns text patterns'
          end
      | None => try_patterns text patterns'
      end
  end.

(** ** BatchProcessor.py *)

Module BatchProcessor.

(** The second and third literals are adjacent in the source, with no comma
    between them: Python joins them into one pattern. *)
Definition date_patterns : list string :=
  [ "\b\d{1,2}[/-]\d{1,2}[/-]\d{2,4}\b";
    "\b\d{4}[/-]\d{1,2}[/-]\d{1,2}\b"
    ++ "\b(?:Jan|Feb|Mar|Apr|May|Jun|Jul|Aug|Sep|Oct|Nov|Dec)[a-z]*[ .-]?\d{1,2},?[ .-]?\d{2,4}\b" ].

Definition extract_date (text : string) : result string :=
  try_patterns (clean_text_for_dates text) date_patterns.

(** [extract_vendor]: the first non-empty line, trimmed. *)
Definition extract_vendor (text : string) : result string :=
  let lines :=
    map Str.strip
        (filter (fun line => Str.nonempty (Str.strip line))
                (Str.split ReParse.LF text)) in
  match lines with
  | _ :: _ => PyList.first lines
  | [] => Ok "Unknown"
  end.

Definition total_pattern : string :=
  "(?:TOTAL|Amount Due)[^\d]{0,10}(\d+[.,]\d{2})".

Definition money_pattern : string := "\$[\d,]+\.\d{2}".

Definition extract_total (text : string) : result string :=
  found <- re_search total_pattern text Re.IGNORECASE ;;
  match found with
  | Some m => Re.group 1 m
  | None =>
      money_matches <- re_findall money_pattern text Re.NOFLAGS ;;
      match money_matches with
      | _ :: _ => PyList.last money_matches
      | [] => Ok NOT_FOUND
      end
  end.

(** The text of a file: [text += image_to_string(img) + "\n"] over its
    pages. [pages] is what the OCR reads on each page. *)
Definition text_of_pages (pages : list string) : string :=
  fold_left (fun text page => text ++ (page ++ String ReParse.LF "")) pages "".

Definition ERROR : string := "ERROR".

(** One turn of the loop of [process_invoices]: the row appended for a file
    name, if any. [ocr] stands for [convert_from_path] and [image_to_string]
    on that file: the text of each page, or the exception raised. *)
Definition process_file (filename : string) (ocr : result (list string))
    : option (list string) :=
  if negb (Str.endswith ".pdf" (Str.lower filename)) then None
  else
    match (pages <- ocr ;;
           let text := text_of_pages pages in
           vendor <- extract_vendor text ;;
           date <- extract_date text ;;
           total <- extract_total text ;;
           Ok [filename; vendor; date; total]) with
    | Ok row => Some row
    | Raise _ => Some [filename; ERROR; ERROR; ERROR]
    end.

(** The rows written after the header, in the order of the listing. *)
Fixpoint process_invoices (folder : list (string * result (list string)))
    : list (list string) :=
  match folder with
  | [] => []
  | (filename, ocr) :: folder' =>
      match process_file filename ocr with
      | Some row => row :: process_invoices folder'
      | None => process_invoices folder'
      end
  end.

End BatchProcessor.

(** ** database.py *)

Module Database.

(** A row of [invoices]; [uploaded_at], the clock's reading, is left out. *)
Record Invoice : Type :=
  { id : Z;
    filename : string;
    vendor : string;
    date : string;
    total : string;
    extracted_text : string }.

(** The table, rows in the order they were added. *)
Definition table : Type := list Invoice.

(** SQLite keeps a key as a signed integer of 64 bits. *)
Definition MAX_KEY : Z := 9223372036854775807%Z.

Definition MIN_KEY : Z := (-9223372036854775808)%Z.

Definition is_key (i : Z) : bool := ((MIN_KEY <=? i) && (i <=? MAX_KEY))%Z.

Definition has_key (i : Z) (rows : table) : bool :=
  existsb (fun r => Z.eqb (id r) i) rows.

(** The largest key in use, if the table has a row. *)
Definition largest_key (rows : table) : option Z :=
  match rows with
  | [] => None
  | r :: rows' => Some (fold_right (fun x m => Z.max (id x) m) (id r) rows')
  end.

(** The key SQLite gives a new row: 1 in an empty table, otherwise one more
    than the largest key in use. When the largest key is the greatest
    integer, the engine draws positive keys at random; [spare] is the draw
    that ends its search, and the insertion fails ("database or disk is
    full") unless it is a key that no row has. A list with a key outside the
    64 bits, which no table is, is dealt with in the same way. *)
Definition new_key (rows : table) (spare : Z) : result Z :=
  match largest_key rows with
  | None => Ok 1%Z
  | Some m =>
      if (is_key m && (m <? MAX_KEY))%Z then Ok (m + 1)%Z
      else if ((1 <=? spare) && (spare <=? MAX_KEY))%Z
              && negb (has_key spare rows)
      then Ok spare
      else Raise OperationalError
  end.

(** What happens in the session that stores a row: every call returns; or
    one raises before [commit] has stored the row ([SessionLocal()],
    [db.add], [db.commit]); or the row is stored and a later call raises
    ([db.refresh], [db.close]). [spare] is the draw of [new_key]. *)
Inductive session : Type :=
| Completes (spare : Z)
| RaisesEarly (e : exn)
| RaisesLate (spare : Z) (e : exn).

(** [db = SessionLocal(); record = Invoice(...); db.add(record);
    db.commit(); db.refresh(record); db.close()]: the record with its key,
    or the exception raised, and the table afterwards. *)
Definition add (rows : table)
    (filename vendor date total extracted_text : string) (run : session)
    : result Invoice * table :=
  let store (spare : Z) (after_commit : Invoice -> result Invoice) :=
    match new_key rows spare with
    | Ok key =>
        let record :=
          {| id := key; filename := filename; vendor := vendor;
             date := date; total := total;
             extracted_text := extracted_text |} in
        (after_commit record, (rows ++ [record])%list)
    | Raise e => (Raise e, rows)
    end in
  match run with
  | Completes spare => store spare Ok
  | RaisesEarly e => (Raise e, rows)
  | RaisesLate spare e => store spare (fun _ => Raise e)
  end.

(** The first row with this key. *)
Definition row_of (invoice_id : Z) (rows : table) : option Invoice :=
  find (fun r => Z.eqb (id r) invoice_id) rows.

(** [db.query(Invoice).filter(Invoice.id == invoice_id).first()]: a key
    that does not fit 64 bits cannot be bound to the query, which raises
    [OverflowError]. *)
Definition first_by_id (invoice_id : Z) (rows : table)
    : result (option Invoice) :=
  if is_key invoice_id then Ok (row_of invoice_id rows)
  else Raise OverflowError.

End Database.

(** ** main.py *)

Module Main.

(** A compiled pattern object: [re.compile(pattern, flags)] at import. *)
Record pattern : Type := { p_regex : Re.regex; p_flags : Re.flags }.

Definition never : Re.regex := Re.Cls false [].

Definition re_compile (src : string) (fl : Re.flags) : pattern :=
  {| p_regex := match ReParse.compile src with
                | Ok r => r
                | Raise _ => never
                end;
     p_flags := fl |}.

Definition p_search (p : pattern) (text : string) : option Re.mobj :=
  Re.search (p_flags p) (p_regex p) text.

Definition clean_ocr_text (text : string) : string :=
  if negb (Str.nonempty text) then ""
  else Str.replace ReParse.CR (String ReParse.LF "") text.

Definition date_patterns : list string :=
  [ "\b\d{1,2}[/-]\d{1,2}[/-]\d{2,4}\b";
    "\b\d{4}[/-]\d{1,2}[/-]\d{1,2}\b";
    "\b(?:Jan|Feb|Mar|Apr|May|Jun|Jul|Aug|Sep|Oct|Nov|Dec)[a-z]*[ .-]?\d{1,2},?[ .-]?\d{2,4}\b" ].

Definition extract_date (text : string) : result string :=
  try_patterns (clean_text_for_dates text) date_patterns.

(** *** Vendor *)

Definition VENDOR_SKIP_KEYWORDS_src : string :=
  "^(invoice|invoice no|invoice #|invoice number|date|due|page|total|tax|phone|tel|fax|bill to|ship to|amount|balance|subtotal|description|item|quantity|qty|account|address|order|ship|email|page)".

Definition COMPANY_HINTS_src : string :=
  "\b(inc|llc|ltd|co|corp|corporation|company|gmbh|plc)\b".

Definition VENDOR_SKIP_KEYWORDS : pattern :=
  re_compile VENDOR_SKIP_KEYWORDS_src Re.IGNORECASE.

Definition COMPANY_HINTS : pattern :=
  re_compile COMPANY_HINTS_src Re.IGNORECASE.

Definition UNKNOWN : string := "Unknown".

(** [[ln.strip() for ln in text.splitlines() if ln.strip()]] *)
Definition stripped_lines (text : string) : list string :=
  map Str.strip
      (filter (fun ln => Str.nonempty (Str.strip ln)) (Str.splitlines text)).

Definition is_some {A : Type} (o : option A) : bool :=
  match o with
  | Some _ => true
  | None => false
  end.

(** The three [continue] tests of the loop. *)
Definition skipped (line : string) : result bool :=
  let lc := Str.lower line in
  if is_some (p_search VENDOR_SKIP_KEYWORDS lc) then Ok true
  else
    m <- re_match "^[\d\W]{1,}$" line Re.NOFLAGS ;;
    if is_some m then Ok true
    else Ok (Str.contains "@" line || Str.contains "http" line
             || Str.contains "www" line).

Definition score_of (line : string) : Z :=
  let s0 := 0%Z in
  let s1 := if is_some (p_search COMPANY_HINTS line) then (s0 + 5)%Z else s0 in
  let words := List.length (Str.split_ws line) in
  let s2 := if Nat.ltb 1 words && Nat.leb words 6 then (s1 + 2)%Z else s1 in
  let letters := Str.count_if Chars.isalpha line in
  let digits := Str.count_if Chars.isdigit line in
  if Nat.ltb digits letters then (s2 + 1)%Z else s2.

Definition candidate : Type := (Z * nat * string)%type.

(** The loop over [enumerate(lines[:top_n_lines])], appending to
    [candidates]. *)
Fixpoint collect (items : list (nat * string)) (candidates : list candidate)
    : result (list candidate) :=
  match items with
  | [] => Ok candidates
  | (i, line) :: items' =>
      skip <- skipped line ;;
      if skip then collect items' candidates
      else collect items' (candidates ++ [(score_of line, i, line)])
  end.

(** [key=lambda x: (-x[0], x[1])], compared as tuples. *)
Definition key_le (a b : candidate) : bool :=
  let '(sa, ia, _) := a in
  let '(sb, ib, _) := b in
  (- sa <? - sb)%Z || ((- sa =? - sb)%Z && Nat.leb ia ib).

Fixpoint insert (x : candidate) (l : list candidate) : list candidate :=
  match l with
  | [] => [x]
  | y :: l' => if key_le x y then x :: l else y :: insert x l'
  end.

(** [list.sort]: a stable sort. *)
Definition sort (l : list candidate) : list candidate :=
  fold_right insert [] l.

Definition line_of (c : candidate) : string := snd c.

Definition extract_vendor (text : string) (top_n_lines : Z)
    : result (string * list string) :=
  let text := clean_ocr_text text in
  let lines := stripped_lines text in
  candidates <- collect (PyList.enumerate (PyList.slice_to top_n_lines lines)) [] ;;
  match candidates with
  | _ :: _ =>
      let candidates := sort candidates in
      c0 <- PyList.first candidates ;;
      Ok (line_of c0, map line_of candidates)
  | [] =>
      match lines with
      | [] => Ok (UNKNOWN, [])
      | _ :: _ => l0 <- PyList.first lines ;; Ok (l0, [])
      end
  end.

(** *** Total *)

Definition TOTAL_KEYWORDS : string :=
  "(?:grand total|total due|amount due|balance due|amount payable|net total|invoice total|total amount|total)".

Definition MONEY_PATTERN : string :=
  "[\$]?\s*\d{1,3}(?:[.,]\d{3})*(?:[.,]\d{2})".

Definition parse_amount_to_float (amount_str : string)
    : result (option Float.float) :=
  if negb (Str.nonempty amount_str) then Ok None
  else
    s <- re_sub "[^\d,.\-]" "" (Str.strip amount_str) Re.NOFLAGS ;;
    if String.eqb s "" then Ok None
    else
      s <- (if Nat.ltb 0 (Str.count "," s) && Nat.ltb 0 (Str.count "." s) then
              if (Str.rfind "." s <? Str.rfind "," s)%Z
              then Ok (Str.replace "," "." (Str.replace "." "" s))
              else Ok (Str.replace "," "" s)
            else if Nat.ltb 0 (Str.count "," s) && Nat.eqb (Str.count "." s) 0 then
              tail <- PyList.last (Str.split "," s) ;;
              if Nat.eqb (String.length tail) 2
              then Ok (Str.replace "," "." s)
              else Ok (Str.replace "," "" s)
            else Ok s) ;;
      match Float.of_str s with
      | Ok x => Ok (Some x)
      | Raise _ => Ok None
      end.

(** [[parse_amount_to_float(m) for m in money_matches
      if parse_amount_to_float(m) is not None]]; the source calls the
    function twice on a token it keeps, with the same result. *)
Fixpoint parsed_list_of (money_matches : list string)
    : result (list Float.float) :=
  match money_matches with
  | [] => Ok []
  | m :: ms =>
      v <- parse_amount_to_float m ;;
      rest <- parsed_list_of ms ;;
      match v with
      | Some x => Ok (x :: rest)
      | None => Ok rest
      end
  end.

(** The pattern text the f-string builds. *)
Definition total_pattern (gap_max_chars : nat) : string :=
  TOTAL_KEYWORDS ++ "[^\d]{0," ++ Num.dec (Z.of_nat gap_max_chars) ++ "}("
  ++ MONEY_PATTERN ++ ")".

(** The part after the labelled search: every money token of the text. *)
Definition fallback (text : string) (debug_candidates : list string)
    : result (string * list string) :=
  money_matches <- re_findall MONEY_PATTERN text Re.NOFLAGS ;;
  let debug_candidates := (debug_candidates ++ money_matches)%list in
  match money_matches with
  | _ :: _ =>
      parsed_list <- parsed_list_of money_matches ;;
      match parsed_list with
      | _ :: _ =>
          best <- Float.max parsed_list ;;
          Ok (Float.format_2f best, debug_candidates)
      | [] => Ok (NOT_FOUND, debug_candidates)
      end
  | [] => Ok (NOT_FOUND, debug_candidates)
  end.

Definition extract_total (text : string) (gap_max_chars : nat)
    : result (string * list string) :=
  let text := clean_ocr_text text in
  found <- re_search (total_pattern gap_max_chars) text Re.IGNORECASE_DOTALL ;;
  match found with
  | Some m =>
      amt_raw <- Re.group 1 m ;;
      parsed <- parse_amount_to_float amt_raw ;;
      let debug_candidates := [amt_raw] in
      match parsed with
      | Some x => Ok (Float.format_2f x, debug_candidates)
      | None => fallback text debug_candidates
      end
  | None => fallback text []
  end.

(** *** The API-key middleware *)

Record request : Type :=
  { path : string;
    headers : list (string * string) }.   (* names in lower case, as ASGI gives them *)

Record json_response : Type := { status_code : nat; body : string }.

(** What the middleware does with a request: hand it on, or answer. *)
Inductive action : Type :=
| CallNext (r : request)
| Respond (r : json_response).

Fixpoint assoc (key : string) (l : list (string * string)) : option string :=
  match l with
  | [] => None
  | (k, v) :: l' => if String.eqb k key then Some v else assoc key l'
  end.

(** [request.headers.get(name)] *)
Definition headers_get (name : string) (r : request) : option string :=
  assoc (Str.lower name) (headers r).

(** [os.getenv(name)] in the environment [environ]. *)
Definition getenv (environ : list (string * string)) (name : string)
    : option string :=
  assoc name environ.

(** [a != b] on values that are a string or [None]. *)
Definition differ (a b : option string) : bool :=
  match a, b with
  | None, None => false
  | Some x, Some y => negb (String.eqb x y)
  | _, _ => true
  end.

Definition open_paths : list string := ["/ping"; "/docs"; "/openapi.json"].

Definition UNAUTHORIZED : json_response :=
  {| status_code := 401;
     body := "{'error': 'Unauthorized – invalid or missing API key'}" |}.

Definition require_api_key (environ : list (string * string)) (req : request)
    : action :=
  if negb (existsb (String.eqb (path req)) open_paths) then
    let client_key := headers_get "x-api-key" req in
    let server_key := getenv environ "API_KEY" in
    if differ client_key server_key then Respond UNAUTHORIZED
    else CallNext req
  else CallNext req.

(** *** Page markers *)

(** [re.sub(pattern, newline, text, flags=re.IGNORECASE)] *)
Definition strip_page_markers (text : string) : result string :=
  re_sub "\n?-{2,}\s*Page\s*\d+\s*-{2,}\n?" (String ReParse.LF "") text
         Re.IGNORECASE.

(** *** The OpenAPI schema

    The part of the schema [custom_openapi] reads and writes: the sections
    of ["components"] and, for every path and method, the ["security"] entry
    of the operation. *)

Record operation : Type :=
  { summary : string;
    security : option (list string) }.   (* the schemes required; [None]: no entry *)

Record openapi : Type :=
  { components : option (list (string * string));   (* [None]: no such key *)
    paths : list (string * list (string * operation)) }.

Definition API_KEY_HEADER : string := "APIKeyHeader".

(** [d[key] = value] *)
Fixpoint dict_set (key value : string) (d : list (string * string))
    : list (string * string) :=
  match d with
  | [] => [(key, value)]
  | (k, v) :: d' =>
      if String.eqb k key then (k, value) :: d'
      else (k, v) :: dict_set key value d'
  end.

(** The paths the schema leaves without the key requirement. *)
Definition undocumented_paths : list string := ["/ping"; "/docs"; "/openapi.json"].

(** The inner loop over the methods of one path. *)
Definition protect (path : string) (methods : list (string * operation))
    : list (string * operation) :=
  map (fun mo =>
         if negb (existsb (String.eqb path) undocumented_paths)
         then (fst mo, {| summary := summary (snd mo);
                          security := Some [API_KEY_HEADER] |})
         else mo)
      methods.

(** [custom_openapi()]: [generated] is what [get_openapi] returns for the
    routes, [app_schema] the value of [app.openapi_schema]; the result is
    what is returned or raised, and the new [app.openapi_schema]. *)
Definition custom_openapi (generated : openapi) (app_schema : option openapi)
    : result openapi * option openapi :=
  match app_schema with
  | Some schema => (Ok schema, app_schema)
  | None =>
      match components generated with
      | None => (Raise KeyError, app_schema)
      | Some sections =>
          let schema :=
            {| components :=
                 Some (dict_set "securitySchemes" API_KEY_HEADER sections);
               paths :=
                 map (fun pm => (fst pm, protect (fst pm) (snd pm)))
                     (paths generated) |} in
          (Ok schema, Some schema)
      end
  end.

(** *** The endpoints over the table *)

(** The entry of [/invoices] for a row. *)
Record listed : Type :=
  { l_id : Z; l_filename : string; l_vendor : string; l_date : string;
    l_total : string }.

Definition get_invoices (db : Database.table) : list listed :=
  map (fun r => {| l_id := Database.id r;
                   l_filename := Database.filename r;
                   l_vendor := Database.vendor r;
                   l_date := Database.date r;
                   l_total := Database.total r |})
      db.

Definition NOT_FOUND_404 : json_response :=
  {| status_code := 404; body := "{'error': 'Not found'}" |}.

(** [/invoices/{invoice_id}]: the row with all its columns, or 404. The
    handler catches nothing: what the query raises leaves it, and the
    server answers 500. *)
Definition get_invoice (db : Database.table) (invoice_id : Z)
    : result (json_response + Database.Invoice) :=
  record <- Database.first_by_id invoice_id db ;;
  match record with
  | None => Ok (inl NOT_FOUND_404)
  | Some record => Ok (inr record)
  end.

(** The answer of [/parse]. *)
Record parsed : Type :=
  { p_filename : string;
    size_bytes : nat;
    p_vendor : string;
    vendor_candidates : list string;
    p_date : string;
    p_total : string;
    total_candidates : list string;
    p_extracted_text : string }.

(** [f"\n--- Page {i + 1} ---\n"] *)
Definition page_marker (i : nat) : string :=
  String ReParse.LF ("--- Page " ++ Num.dec (Z.of_nat (i + 1)) ++ " ---"
                     ++ String ReParse.LF "").

(** The loop over the pages of a PDF. *)
Fixpoint read_pages (pages : list (nat * string)) (extracted_text : string)
    : string :=
  match pages with
  | [] => extracted_text
  | (i, page) :: pages' =>
      read_pages pages' ((extracted_text ++ page_marker i) ++ page)
  end.

(** What the handler did: it answered with the record, or with the status
    500 and the exception caught. *)
Inductive answer : Type :=
| Parsed (p : parsed)
| Failed (status : nat) (e : exn).

(** [/parse]. [pdf_pages] and [image_text] stand for the OCR of the upload
    read as a PDF (the text of each page) and as an image; either may
    raise. [size] is [len(content)], [run] what happens in the session. The
    OCR, the extraction and the session are in one [try]: whatever one of
    them raises is answered with the status 500. *)
Definition parse_document (file_name : string) (size : nat)
    (pdf_pages : result (list string)) (image_text : result string)
    (run : Database.session) (db : Database.table)
    : answer * Database.table :=
  match (extracted_text <-
           (if Str.endswith ".pdf" (Str.lower file_name)
            then images <- pdf_pages ;;
                 Ok (read_pages (PyList.enumerate images) "")
            else image_text) ;;
         extracted_text <- strip_page_markers extracted_text ;;
         '(vendor, vendor_candidates) <- extract_vendor extracted_text 8 ;;
         date <- extract_date extracted_text ;;
         '(total, total_candidates) <- extract_total extracted_text 80 ;;
         Ok (vendor, vendor_candidates, date, total, total_candidates,
             extracted_text)) with
  | Raise e => (Failed 500 e, db)
  | Ok (vendor, vendor_candidates, date, total, total_candidates,
        extracted_text) =>
      match Database.add db file_name vendor date total
                         (Str.strip extracted_text) run with
      | (Raise e, db') => (Failed 500 e, db')
      | (Ok _, db') =>
          (Parsed {| p_filename := file_name;
                     size_bytes := size;
                     p_vendor := vendor;
                     vendor_candidates := vendor_candidates;
                     p_date := date;
                     p_total := total;
                     total_candidates := total_candidates;
                     p_extracted_text := Str.strip extracted_text |},
           db')
      end
  end.

End Main.

(** ** What a match is: the relation the matcher searches

    [Matches fl r c g c' g']: the regex [r] can read the subject from
    cursor [c] to cursor [c'], turning the groups [g] into [g']. *)

Module ReSem.
Import Re.

Definition step (a : ascii) (s : string) (c : cursor) : cursor :=
  {| prev := Some a; pos := S (pos c); rest := s |}.

Definition single (r : regex) : bool :=
  match r with
  | Lit _ | Dot | Cls _ _ => true
  | _ => false
  end.

Inductive Matches (fl : flags)
    : regex -> cursor -> caps -> cursor -> caps -> Prop :=
| MEps c g : Matches fl Eps c g c g
| MOne r c g a s :
    single r = true -> rest c = String a s -> accepts fl r a = true ->
    Matches fl r c g (step a s c) g
| MCat r1 r2 c g c1 g1 c2 g2 :
    Matches fl r1 c g c1 g1 -> Matches fl r2 c1 g1 c2 g2 ->
    Matches fl (Cat r1 r2) c g c2 g2
| MAltL r1 r2 c g c1 g1 :
    Matches fl r1 c g c1 g1 -> Matches fl (Alt r1 r2) c g c1 g1
| MAltR r1 r2 c g c1 g1 :
    Matches fl r2 c g c1 g1 -> Matches fl (Alt r1 r2) c g c1 g1
| MRepStop hi r c g : Matches fl (Rep 0 hi r) c g c g
| MRepMore lo hi r c g c1 g1 c2 g2 :
    hi_open hi = true ->
    Matches fl r c g c1 g1 ->
    Matches fl (Rep (Nat.pred lo) (hi_pred hi) r) c1 g1 c2 g2 ->
    Matches fl (Rep lo hi r) c g c2 g2
| MGroup n r c g c1 g1 :
    Matches fl r c g c1 g1 ->
    Matches fl (Group n r) c g c1 ((n, (pos c, pos c1)) :: g1)
| MWordB c g : at_boundary c = true -> Matches fl WordB c g c g
| MBol c g : pos c = 0 -> Matches fl Bol c g c g
| MEol c g : at_end c = true -> Matches fl Eol c g c g.

(** The groups every match of [r] sets. *)
Fixpoint must_set (r : regex) : list nat :=
  match r with
  | Cat r1 r2 => must_set r1 ++ must_set r2
  | Alt r1 r2 => filter (fun n => existsb (Nat.eqb n) (must_set r2)) (must_set r1)
  | Rep (S _) _ r1 => must_set r1
  | Group n r1 => n :: must_set r1
  | _ => []
  end.

Definition all_chars : list ascii :=
  map (fun n => ascii_of_nat n) (seq 0 256).

(** Every character a one-character node of [r] accepts satisfies [A]. *)
Fixpoint reads_only (fl : flags) (A : ascii -> bool) (r : regex) : bool :=
  match r with
  | Lit _ | Dot | Cls _ _ =>
      List.forallb (fun a => implb (accepts fl r a) (A a)) all_chars
  | Cat r1 r2 | Alt r1 r2 => reads_only fl A r1 && reads_only fl A r2
  | Rep _ _ r1 | Group _ r1 => reads_only fl A r1
  | _ => true
  end.

(** The cursor [c] is a position of [text]. *)
Definition cursor_of (text : string) (c : cursor) : Prop :=
  exists before,
    text = (before ++ rest c)%string /\ pos c = String.length before.

End ReSem.

(** ** The canonical formats of the results *)

Module Canonical.

(** [YYYY-MM-DD] *)
Definition date (s : string) : bool :=
  match s with
  | String y1 (String y2 (String y3 (String y4 (String "-"
      (String m1 (String m2 (String "-" (String d1 (String d2 EmptyString))))))))) =>
      List.forallb Chars.isdecimal [y1; y2; y3; y4; m1; m2; d1; d2]
  | _ => false
  end.

(** One or more digits, a period, two digits: no sign, no separators, no
    currency symbol. *)
Fixpoint amount_from (seen_digit : bool) (s : string) : bool :=
  match s with
  | String c s' =>
      if Ascii.eqb c "." then
        match s' with
        | String a (String b EmptyString) =>
            seen_digit && Chars.isdecimal a && Chars.isdecimal b
        | _ => false
        end
      else Chars.isdecimal c && amount_from true s'
  | EmptyString => false
  end.

Definition amount (s : string) : bool := amount_from false s.

End Canonical.

(** ** Predicates and constants the statements use *)

Module Props.

(** Group [n] has a span among the captures [g]. *)
Definition is_set (n : nat) (g : Re.caps) : Prop := Re.lookup n g <> None.

Definition two_digits (s : string) : bool :=
  match s with
  | String a (String b EmptyString) => Chars.isdecimal a && Chars.isdecimal b
  | _ => false
  end.


(** A year as [strftime] prints it: one to four digits, the first of them
    not a zero. *)
Definition year_digits (s : string) : bool :=
  match s with
  | String a _ =>
      negb (Ascii.eqb a "0") && Str.forallb Chars.isdecimal s
      && Nat.leb (String.length s) 4
  | EmptyString => false
  end.

(** [Y-MM-DD]: a year that is not padded, a month and a day of two digits. *)
Definition dated (s : string) : Prop :=
  exists y m d,
    s = (y ++ "-" ++ m ++ "-" ++ d)%string
    /\ year_digits y = true /\ two_digits m = true /\ two_digits d = true.

Definition no_minus (c : ascii) : bool := negb (Ascii.eqb c "-").

(** The format gives a pattern that compiles, and every directive's group is
    set by every match. *)
Definition fmt_ok (fmt : string) : bool :=
  match DateTime.format_pattern false fmt with
  | Ok (p, ds) =>
      match ReParse.compile p with
      | Ok r =>
          List.forallb (fun n => existsb (Nat.eqb n) (ReSem.must_set r))
                       (seq 1 (List.length ds))
      | Raise _ => false
      end
  | Raise _ => false
  end.

Definition compiles (p : string) : bool :=
  match ReParse.compile p with
  | Ok _ => true
  | Raise _ => false
  end.

(** What [[^\d,.\-]] compiles to. *)
Definition CLEANER : Re.regex :=
  Re.Cls true [Re.IDigit; Re.IChar ","; Re.IChar "."; Re.IChar "-"].

(** What [^[\d\W]{1,}$] compiles to. *)
Definition LINE_OF_MARKS : Re.regex :=
  Re.Cat Re.Bol
    (Re.Cat (Re.Rep 1 None (Re.Cls false [Re.IDigit; Re.INotWord])) Re.Eol).

(** The shapes a chosen total can take. *)
Definition well_formed (chosen : string) : Prop :=
  chosen = NOT_FOUND \/ chosen = "inf" \/ Canonical.amount chosen = true.

(** "The first non-blank line of the text", trimmed. *)
Definition first_nonblank_line (text : string) : option string :=
  option_map Str.strip
    (find (fun ln => Str.nonempty (Str.strip ln)) (Str.splitlines text)).

Definition NL : string := String ReParse.LF EmptyString.


(** The mantissa of a binary64 value with its sign. *)
Definition signed (neg : bool) (m : Z) : Z := ((if neg then -1 else 1) * m)%Z.

(** A schema as [get_openapi] can give it, with an open path and a guarded
    one, and what [custom_openapi] makes of it. *)
Definition SAMPLE_GENERATED : Main.openapi :=
  {| Main.components := Some [("schemas", "Body_parse_document_parse_post")];
     Main.paths :=
       [("/ping", [("get", {| Main.summary := "Ping"; Main.security := None |})]);
        ("/parse", [("post", {| Main.summary := "Parse Document";
                               Main.security := None |})])] |}.

Definition SAMPLE_SCHEMA : Main.openapi :=
  {| Main.components :=
       Some [("schemas", "Body_parse_document_parse_post");
             ("securitySchemes", "APIKeyHeader")];
     Main.paths :=
       [("/ping", [("get", {| Main.summary := "Ping"; Main.security := None |})]);
        ("/parse", [("post", {| Main.summary := "Parse Document";
                               Main.security := Some ["APIKeyHeader"] |})])] |}.

(** [a] sorts before [b], or with it. *)
Definition before (a b : Main.candidate) : Prop := Main.key_le a b = true.

(** The characters [parse_amount_to_float] keeps: what [[^\d,.\-]] does
    not match. *)
Definition amount_char (c : ascii) : bool :=
  Chars.isdecimal c || Ascii.eqb c "," || Ascii.eqb c "." || Ascii.eqb c "-".

Fixpoint amount_chars (s : string) : string :=
  match s with
  | EmptyString => EmptyString
  | String c s' =>
      if amount_char c then String c (amount_chars s') else amount_chars s'
  end.

(** The letters the date extractor rewrites, and what it makes of one
    character. *)
Definition confusable (c : ascii) : bool :=
  Ascii.eqb c "I" || Ascii.eqb c "l" || Ascii.eqb c "O".

Definition ocr_fix (c : ascii) : ascii :=
  if Ascii.eqb c "I" then "1"%char
  else if Ascii.eqb c "l" then "1"%char
  else if Ascii.eqb c "O" then "0"%char
  else c.

Fixpoint map_chars (f : ascii -> ascii) (s : string) : string :=
  match s with
  | EmptyString => EmptyString
  | String c s' => String (f c) (map_chars f s')
  end.

(** The characters of a token of the batch script's total. *)
Definition money_char (c : ascii) : bool :=
  Chars.isdecimal c || Ascii.eqb c "," || Ascii.eqb c "." || Ascii.eqb c "$".

(** The characters of a labelled amount of the batch script. *)
Definition figure_char (c : ascii) : bool :=
  Chars.isdecimal c || Ascii.eqb c "," || Ascii.eqb c ".".

(** [t] stands in [text] as it is written. *)
Definition piece_of (t text : string) : Prop :=
  exists before after, text = (before ++ t ++ after)%string.

(** The words of [VENDOR_SKIP_KEYWORDS], and the regex of a word and of a
    choice between words as the pattern compiles to it. *)
Definition SKIP_WORDS : list string :=
  ["invoice"; "invoice no"; "invoice #"; "invoice number"; "date"; "due";
   "page"; "total"; "tax"; "phone"; "tel"; "fax"; "bill to"; "ship to";
   "amount"; "balance"; "subtotal"; "description"; "item"; "quantity"; "qty";
   "account"; "address"; "order"; "ship"; "email"; "page"].

Fixpoint word_regex (w : string) : Re.regex :=
  match w with
  | EmptyString => Re.Eps
  | String a EmptyString => Re.Lit a
  | String a w' => Re.Cat (Re.Lit a) (word_regex w')
  end.

Fixpoint choice_regex (ws : list string) : Re.regex :=
  match ws with
  | [] => Re.Eps
  | [w] => word_regex w
  | w :: ws' => Re.Alt (word_regex w) (choice_regex ws')
  end.

(** What the pattern of [strip_page_markers] compiles to. *)
Definition BLANKS : Re.regex := Re.Rep 0 None (Re.Cls false [Re.ISpace]).

Definition DASHES : Re.regex := Re.Rep 2 None (Re.Lit "-").

Definition LINE_FEED : Re.regex := Re.Rep 0 (Some 1) (Re.Lit ReParse.LF).

Definition MARKER : Re.regex :=
  Re.Cat LINE_FEED
    (Re.Cat DASHES
       (Re.Cat BLANKS
          (Re.Cat (Re.Lit "P") (Re.Cat (Re.Lit "a") (Re.Cat (Re.Lit "g")
             (Re.Cat (Re.Lit "e")
                (Re.Cat BLANKS
                   (Re.Cat (Re.Rep 1 None (Re.Cls false [Re.IDigit]))
                      (Re.Cat BLANKS (Re.Cat DASHES LINE_FEED)))))))))).

(** The text of a PDF as [/parse] builds it, from page [i] on, and the
    pages with a line feed before each. *)
Fixpoint marked_pages (i : nat) (pages : list string) : string :=
  match pages with
  | [] => EmptyString
  | page :: pages' =>
      (Main.page_marker i ++ page) ++ marked_pages (S i) pages'
  end.

Fixpoint plain_pages (pages : list string) : string :=
  match pages with
  | [] => EmptyString
  | page :: pages' => String ReParse.LF (page ++ plain_pages pages')
  end.

(** The text is empty or begins with another character than "-". *)
Definition no_dash_first (s : string) : Prop :=
  match s with
  | EmptyString => True
  | String b _ => no_minus b = true
  end.

(** No two rows of the table have the same key. *)
Definition keys_differ (rows : Database.table) : Prop :=
  NoDup (map Database.id rows).

(** A table as SQLite holds it: the keys differ and fit 64 bits. *)
Definition well_keyed (rows : Database.table) : Prop :=
  keys_differ rows
  /\ forall r, In r rows -> Database.is_key (Database.id r) = true.

(** The entry of [/invoices] and the row say the same. *)
Definition same_invoice (l : Main.listed) (r : Database.Invoice) : Prop :=
  Main.l_id l = Database.id r
  /\ Main.l_filename l = Database.filename r
  /\ Main.l_vendor l = Database.vendor r
  /\ Main.l_date l = Database.date r
  /\ Main.l_total l = Database.total r.

(** What the OCR hands to the extraction in [/parse]. *)
Definition ocr_text (file_name : string) (pdf_pages : result (list string))
    (image_text : result string) : result string :=
  if Str.endswith ".pdf" (Str.lower file_name)
  then images <- pdf_pages ;; Ok (Main.read_pages (PyList.enumerate images) "")
  else image_text.

End Props.

(** ** The extractors with the state of the [re] module made explicit

    The one piece of state the extractors can reach is the cache of compiled
    patterns that [re] keeps between calls ([re._cache]): [re.search],
    [re.match], [re.findall], [re.sub] and [re.compile] look the pattern up
    there before compiling it, and [datetime.strptime] compiles the regex of
    its format through the same cache. Here every function of the engine is
    written again over that state, call by call as in the source. *)

Module Engine.
Import Re.

Definition flags_eqb (a b : flags) : bool :=
  Bool.eqb (ignorecase a) (ignorecase b) && Bool.eqb (dotall a) (dotall b).

(** [re._cache], oldest entry first; its key is the pattern and the flags. *)
Definition cache : Type := list (string * flags * regex).

Definition MAXCACHE : nat := 512.

Fixpoint cached (p : string) (fl : flags) (w : cache) : option regex :=
  match w with
  | [] => None
  | (q, gl, r) :: w' =>
      if String.eqb q p && flags_eqb gl fl then Some r else cached p fl w'
  end.

(** A computation that reads and writes the cache and may raise. *)
Definition M (A : Type) : Type := cache -> result A * cache.

Definition ret {A : Type} (a : A) : M A := fun w => (Ok a, w).

(** A computation that does not touch the cache. *)
Definition lift {A : Type} (r : result A) : M A := fun w => (r, w).

Definition bindM {A B : Type} (m : M A) (k : A -> M B) : M B :=
  fun w =>
    match m w with
    | (Ok a, w') => k a w'
    | (Raise e, w') => (Raise e, w')
    end.

Notation "x <-- m ;; k" := (bindM m (fun x => k))
  (at level 61, m at next level, right associativity).
Notation "' p <-- m ;; k" := (bindM m (fun p => k))
  (at level 61, p pattern, m at next level, right associativity).

(** [re._compile]: a hit returns the cached pattern; a miss compiles, drops
    the oldest entry of a full cache and stores the new one; an error is
    raised and nothing is stored. *)
Definition compile (p : string) (fl : flags) : M regex :=
  fun w =>
    match cached p fl w with
    | Some r => (Ok r, w)
    | None =>
        match ReParse.compile p with
        | Ok r =>
            (Ok r, ((if Nat.leb MAXCACHE (List.length w) then tl w else w)
                    ++ [(p, fl, r)])%list)
        | Raise e => (Raise e, w)
        end
    end.

Definition re_search (pattern text : string) (fl : flags) : M (option mobj) :=
  r <-- compile pattern fl ;; ret (search fl r text).

Definition re_match (pattern text : string) (fl : flags) : M (option mobj) :=
  r <-- compile pattern fl ;; ret (match_ fl r text).

Definition re_findall (pattern text : string) (fl : flags) : M (list string) :=
  r <-- compile pattern fl ;; ret (findall fl r text).

Definition re_sub (pattern repl text : string) (fl : flags) : M string :=
  r <-- compile pattern fl ;; ret (sub fl r repl text).

(** *** Dates *)

Definition strptime (data fmt : string) : M DateTime.date :=
  '(pattern, ds) <-- lift (DateTime.format_pattern false fmt) ;;
  found <-- re_match pattern data IGNORECASE ;;
  match found with
  | None => lift (Raise ValueError)
  | Some m =>
      if negb (Nat.eqb (String.length data) (mend m)) then lift (Raise ValueError)
      else
        lift ('(y, mo, d) <- DateTime.read_fields ds 1 m (1900, 1, 1)%Z ;;
              DateTime.make y mo d)
  end.

Fixpoint try_formats (raw_date : string) (fmts : list string)
    : M (option string) :=
  match fmts with
  | [] => ret None
  | fmt :: fmts' =>
      fun w =>
        match strptime raw_date fmt w with
        | (Ok parsed, w') => (Ok (Some (DateTime.strftime_iso parsed)), w')
        | (Raise ValueError, w') => try_formats raw_date fmts' w'
        | (Raise e, w') => (Raise e, w')
        end
  end.

Fixpoint try_patterns (text : string) (date_patterns : list string)
    : M string :=
  match date_patterns with
  | [] => ret NOT_FOUND
  | pattern :: patterns' =>
      found <-- re_search pattern text IGNORECASE ;;
      match found with
      | Some m =>
          r <-- try_formats (group0 m) possible_formats ;;
          match r with
          | Some d => ret d
          | None => try_patterns text patterns'
          end
      | None => try_patterns text patterns'
      end
  end.

Definition extract_date (text : string) : M string :=
  try_patterns (clean_text_for_dates text) Main.date_patterns.

(** *** Vendor *)

Definition skipped (line : string) : M bool :=
  let lc := Str.lower line in
  if Main.is_some (Main.p_search Main.VENDOR_SKIP_KEYWORDS lc) then ret true
  else
    m <-- re_match "^[\d\W]{1,}$" line NOFLAGS ;;
    if Main.is_some m then ret true
    else ret (Str.contains "@" line || Str.contains "http" line
              || Str.contains "www" line).

Fixpoint collect (items : list (nat * string))
    (candidates : list Main.candidate) : M (list Main.candidate) :=
  match items with
  | [] => ret candidates
  | (i, line) :: items' =>
      skip <-- skipped line ;;
      if skip then collect items' candidates
      else collect items' (candidates ++ [(Main.score_of line, i, line)])
  end.

Definition extract_vendor (text : string) (top_n_lines : Z)
    : M (string * list string) :=
  let text := Main.clean_ocr_text text in
  let lines := Main.stripped_lines text in
  candidates <-- collect (PyList.enumerate (PyList.slice_to top_n_lines lines)) [] ;;
  match candidates with
  | _ :: _ =>
      let candidates := Main.sort candidates in
      c0 <-- lift (PyList.first candidates) ;;
      ret (Main.line_of c0, map Main.line_of candidates)
  | [] =>
      match lines with
      | [] => ret (Main.UNKNOWN, [])
      | _ :: _ => l0 <-- lift (PyList.first lines) ;; ret (l0, [])
      end
  end.

(** *** Total *)

Definition parse_amount_to_float (amount_str : string)
    : M (option Float.float) :=
  if negb (Str.nonempty amount_str) then ret None
  else
    s <-- re_sub "[^\d,.\-]" "" (Str.strip amount_str) NOFLAGS ;;
    if String.eqb s "" then ret None
    else
      s <-- lift
            (if Nat.ltb 0 (Str.count "," s) && Nat.ltb 0 (Str.count "." s) then
               if (Str.rfind "." s <? Str.rfind "," s)%Z
               then Ok (Str.replace "," "." (Str.replace "." "" s))
               else Ok (Str.replace "," "" s)
             else if Nat.ltb 0 (Str.count "," s) && Nat.eqb (Str.count "." s) 0 then
               tail <- PyList.last (Str.split "," s) ;;
               if Nat.eqb (String.length tail) 2
               then Ok (Str.replace "," "." s)
               else Ok (Str.replace "," "" s)
             else Ok s) ;;
      match Float.of_str s with
      | Ok x => ret (Some x)
      | Raise _ => ret None
      end.

(** The list comprehension, with both calls it makes on a token: one for
    the test, one for the value. A [None] among the values would make [max]
    or the format raise [TypeError]. *)
Fixpoint parsed_list_of (money_matches : list string) : M (list Float.float) :=
  match money_matches with
  | [] => ret []
  | m :: ms =>
      test <-- parse_amount_to_float m ;;
      match test with
      | None => parsed_list_of ms
      | Some _ =>
          v <-- parse_amount_to_float m ;;
          rest <-- parsed_list_of ms ;;
          match v with
          | Some x => ret (x :: rest)
          | None => lift (Raise TypeError)
          end
      end
  end.

Definition fallback (text : string) (debug_candidates : list string)
    : M (string * list string) :=
  money_matches <-- re_findall Main.MONEY_PATTERN text NOFLAGS ;;
  let debug_candidates := (debug_candidates ++ money_matches)%list in
  match money_matches with
  | _ :: _ =>
      parsed_list <-- parsed_list_of money_matches ;;
      match parsed_list with
      | _ :: _ =>
          best <-- lift (Float.max parsed_list) ;;
          ret (Float.format_2f best, debug_candidates)
      | [] => ret (NOT_FOUND, debug_candidates)
      end
  | [] => ret (NOT_FOUND, debug_candidates)
  end.

Definition extract_total (text : string) (gap_max_chars : nat)
    : M (string * list string) :=
  let text := Main.clean_ocr_text text in
  regex <-- compile (Main.total_pattern gap_max_chars) IGNORECASE_DOTALL ;;
  let found := search IGNORECASE_DOTALL regex text in
  match found with
  | Some m =>
      amt_raw <-- lift (group 1 m) ;;
      parsed <-- parse_amount_to_float amt_raw ;;
      let debug_candidates := [amt_raw] in
      match parsed with
      | Some x => ret (Float.format_2f x, debug_candidates)
      | None => fallback text debug_candidates
      end
  | None => fallback text []
  end.

(** Every entry of the cache is what compiling its pattern gives: so it is
    in a fresh interpreter (the empty cache), and [compile] keeps it. *)
Definition sound (w : cache) : Prop :=
  Forall (fun e => ReParse.compile (fst (fst e)) = Ok (snd e)) w.

(** [m] computes [r] whatever the cache holds, and keeps the cache sound. *)
Definition agrees {A : Type} (m : M A) (r : result A) : Prop :=
  forall w, sound w -> fst (m w) = r /\ sound (snd (m w)).

End Engine.

(** * Lemmas *)

Import Props.

(** ** The string methods on examples *)

Example splitlines_ex :
  Str.splitlines (String "a" (String (ascii_of_N 13) (String (ascii_of_N 10)
     (String "b" (String (ascii_of_N 10) (String (ascii_of_N 10) EmptyString))))))
  = ["a"; "b"; ""].
Proof. reflexivity. Qed.

Example strip_ex : Str.strip "  a b  " = "a b" /\ Str.split_ws " a  b c " = ["a"; "b"; "c"]
  /\ Str.split "," "1,234," = ["1"; "234"; ""] /\ Str.rfind "," "1,2,3" = 3%Z
  /\ Str.rfind "." "1,2,3" = (-1)%Z /\ Str.contains "http" "see http://x" = true.
Proof. repeat split; reflexivity. Qed.


(** * Proofs *)

(** ** The matcher finds only matches *)

Module ReFacts.
Import Re ReSem.

Section Soundness.

Variable fl : flags.

Lemma rep_loop_sound (body : cursor -> caps -> cont -> option outcome) r :
  (forall c g k o, body c g k = Some o ->
     exists c1 g1, Matches fl r c g c1 g1 /\ k c1 g1 = Some o) ->
  forall fuel lo hi c g k o,
    rep_loop body fuel lo hi c g k = Some o ->
    exists c' g', Matches fl (Rep lo hi r) c g c' g' /\ k c' g' = Some o.
Proof.
  intros Hbody fuel.
  assert (Hstop : forall lo hi c g (k : cont) o,
             (if Nat.eqb lo 0 then k c g else None) = Some o ->
             exists c' g', Matches fl (Rep lo hi r) c g c' g' /\ k c' g' = Some o).
  { intros lo hi c g k o H. destruct lo; simpl in H; [|discriminate].
    exists c, g. split; [constructor | exact H]. }
  induction fuel as [|fuel IH]; intros lo hi c g k o H; simpl in H.
  - now apply Hstop.
  - destruct (hi_open hi) eqn:Hopen; [|now apply Hstop].
    match type of H with
    | match ?b with _ => _ end = _ => destruct b as [o1|] eqn:Hb
    end; [|now apply Hstop].
    injection H as ->.
    apply Hbody in Hb. destruct Hb as (c1 & g1 & Hm & Hk).
    destruct (Nat.ltb (pos c) (pos c1) || Nat.ltb 0 lo); [|discriminate].
    apply IH in Hk. destruct Hk as (c' & g' & Hm' & Hk').
    exists c', g'. split; [|exact Hk'].
    eapply MRepMore; eauto.
Qed.

Lemma rmatch_sound r :
  forall c g k o,
    rmatch fl r c g k = Some o ->
    exists c' g', Matches fl r c g c' g' /\ k c' g' = Some o.
Proof.
  assert (Hone : forall r, single r = true -> forall c g k o,
             one_char fl r c g k = Some o ->
             exists c' g', Matches fl r c g c' g' /\ k c' g' = Some o).
  { intros r0 Hs c g k o H. unfold one_char in H.
    destruct (rest c) as [|a s] eqn:Hr; [discriminate|].
    destruct (accepts fl r0 a) eqn:Ha; [|discriminate].
    exists (step a s c), g. split; [now apply MOne | exact H]. }
  induction r as [ | a | | neg its | r1 IH1 r2 IH2 | r1 IH1 r2 IH2
                 | lo hi r1 IH1 | n r1 IH1 | | | ];
    intros c g k o H; simpl in H.
  - exists c, g. split; [constructor | exact H].
  - now apply Hone.
  - now apply Hone.
  - now apply Hone.
  - apply IH1 in H. destruct H as (c1 & g1 & Hm1 & H).
    apply IH2 in H. destruct H as (c2 & g2 & Hm2 & H).
    exists c2, g2. split; [econstructor; eauto | exact H].
  - destruct (rmatch fl r1 c g k) as [o1|] eqn:H1.
    + injection H as ->. apply IH1 in H1. destruct H1 as (c1 & g1 & Hm & Hk).
      exists c1, g1. split; [now apply MAltL | exact Hk].
    + apply IH2 in H. destruct H as (c1 & g1 & Hm & Hk).
      exists c1, g1. split; [now apply MAltR | exact Hk].
  - eapply rep_loop_sound; eauto.
  - apply IH1 in H. destruct H as (c1 & g1 & Hm & Hk).
    eexists _, _. split; [apply MGroup; exact Hm | exact Hk].
  - destruct (at_boundary c) eqn:Hb; [|discriminate].
    exists c, g. split; [now constructor | exact H].
  - destruct (Nat.eqb (pos c) 0) eqn:Hb; [|discriminate].
    exists c, g. split; [constructor; now apply Nat.eqb_eq | exact H].
  - destruct (at_end c) eqn:Hb; [|discriminate].
    exists c, g. split; [now constructor | exact H].
Qed.

Lemma match_here_sound r c c' g' :
  match_here fl r c = Some (c', g') -> Matches fl r c [] c' g'.
Proof.
  unfold match_here. intros H. apply rmatch_sound in H.
  destruct H as (c1 & g1 & Hm & Hk). now injection Hk as <- <-.
Qed.

End Soundness.

(** *** Groups *)

Lemma is_set_cons n k v g : is_set n g -> is_set n ((k, v) :: g).
Proof.
  unfold is_set. simpl. destruct (Nat.eqb k n); [discriminate | auto].
Qed.

Lemma is_set_here n v g : is_set n ((n, v) :: g).
Proof. unfold is_set. simpl. now rewrite Nat.eqb_refl. Qed.

Lemma Matches_groups fl r c g c' g' :
  Matches fl r c g c' g' ->
  (forall n, is_set n g -> is_set n g')
  /\ (forall n, In n (must_set r) -> is_set n g').
Proof.
  induction 1 as [ c g | r c g a s Hs Hr Ha
                 | r1 r2 c g c1 g1 c2 g2 _ [K1 S1] _ [K2 S2]
                 | r1 r2 c g c1 g1 _ [K1 S1] | r1 r2 c g c1 g1 _ [K1 S1]
                 | hi r c g
                 | lo hi r c g c1 g1 c2 g2 Hopen _ [K1 S1] _ [K2 S2]
                 | n r c g c1 g1 _ [K1 S1] | c g Hb | c g Hb | c g Hb ];
    simpl; try (split; [auto | intros n []]).
  - split; [auto|]. destruct r; simpl in *; try discriminate; intros n [].
  - split; [auto|]. intros n Hin. apply in_app_or in Hin as [Hin|Hin]; auto.
  - split; [auto|]. intros n Hin. apply filter_In in Hin as [Hin _]. auto.
  - split; [auto|]. intros n Hin. apply filter_In in Hin as [_ Hin].
    apply existsb_exists in Hin as (m & Hm & Heq).
    apply Nat.eqb_eq in Heq as ->. auto.
  - split; [auto|]. destruct lo; [intros n []|]. auto.
  - split.
    + intros k Hk. apply is_set_cons. auto.
    + intros k [<-|Hin]; [apply is_set_here | apply is_set_cons; auto].
Qed.

(** *** Characters read *)

Lemma in_all_chars a : In a all_chars.
Proof.
  unfold all_chars. apply in_map_iff. exists (nat_of_ascii a). split.
  - apply ascii_nat_embedding.
  - apply in_seq. pose proof (nat_ascii_bounded a). lia.
Qed.

Lemma reads_only_single fl A r a :
  single r = true -> reads_only fl A r = true -> accepts fl r a = true ->
  A a = true.
Proof.
  intros Hs Hr Ha.
  assert (H : List.forallb (fun a => implb (accepts fl r a) (A a)) all_chars = true).
  { destruct r; simpl in Hs; try discriminate; exact Hr. }
  rewrite forallb_forall in H. specialize (H a (in_all_chars a)).
  rewrite Ha in H. exact H.
Qed.

Lemma forallb_app A s1 s2 :
  Str.forallb A (s1 ++ s2) = Str.forallb A s1 && Str.forallb A s2.
Proof.
  induction s1 as [|c s1 IH]; simpl; [reflexivity|].
  now rewrite IH, andb_assoc.
Qed.

Lemma append_assoc (s1 s2 s3 : string) :
  ((s1 ++ s2) ++ s3 = s1 ++ (s2 ++ s3))%string.
Proof. induction s1 as [|c s1 IH]; simpl; [reflexivity | now rewrite IH]. Qed.

Lemma append_nil_r (s : string) : (s ++ "" = s)%string.
Proof. induction s as [|c s IH]; simpl; [reflexivity | now rewrite IH]. Qed.

Lemma length_app (s1 s2 : string) :
  String.length (s1 ++ s2) = String.length s1 + String.length s2.
Proof. induction s1 as [|c s1 IH]; simpl; [reflexivity | now rewrite IH]. Qed.

(** A match reads a piece [w] of the subject, made of characters its
    one-character nodes accept. *)
Lemma Matches_reads fl A r c g c' g' :
  Matches fl r c g c' g' ->
  reads_only fl A r = true ->
  exists w, rest c = (w ++ rest c')%string
            /\ pos c' = pos c + String.length w
            /\ Str.forallb A w = true.
Proof.
  assert (Hnil : forall c : cursor,
             exists w, rest c = (w ++ rest c)%string
                       /\ pos c = pos c + String.length w
                       /\ Str.forallb A w = true).
  { intros c0. exists EmptyString. simpl. auto. }
  induction 1 as [ c g | r c g a s Hs Hr Ha
                 | r1 r2 c g c1 g1 c2 g2 _ IH1 _ IH2
                 | r1 r2 c g c1 g1 _ IH1 | r1 r2 c g c1 g1 _ IH1
                 | hi r c g
                 | lo hi r c g c1 g1 c2 g2 Hopen _ IH1 _ IH2
                 | n r c g c1 g1 _ IH1 | c g Hb | c g Hb | c g Hb ];
    intros Hro; auto.
  - exists (String a EmptyString). simpl. repeat split; [exact Hr | lia |].
    rewrite (reads_only_single _ _ _ _ Hs Hro Ha). reflexivity.
  - simpl in Hro. apply andb_prop in Hro as [H1 H2].
    destruct (IH1 H1) as (w1 & E1 & P1 & F1).
    destruct (IH2 H2) as (w2 & E2 & P2 & F2).
    exists (w1 ++ w2)%string. rewrite append_assoc, <- E2, <- E1.
    rewrite length_app, forallb_app, F1, F2. repeat split; lia.
  - simpl in Hro. apply andb_prop in Hro as [H1 H2]. auto.
  - simpl in Hro. apply andb_prop in Hro as [H1 H2]. auto.
  - simpl in Hro.
    destruct (IH1 Hro) as (w1 & E1 & P1 & F1).
    destruct (IH2 Hro) as (w2 & E2 & P2 & F2).
    exists (w1 ++ w2)%string. rewrite append_assoc, <- E2, <- E1.
    rewrite length_app, forallb_app, F1, F2. repeat split; lia.
Qed.

(** *** Positions and slices *)

Lemma substring_skip (before s : string) n :
  String.substring (String.length before) n (before ++ s) = String.substring 0 n s.
Proof. induction before as [|c b IH]; simpl; [reflexivity | exact IH]. Qed.

Lemma substring_prefix (w s : string) :
  String.substring 0 (String.length w) (w ++ s) = w.
Proof.
  induction w as [|c w IH]; simpl.
  - destruct s; reflexivity.
  - now rewrite IH.
Qed.

Lemma slice_at text before w after :
  text = (before ++ w ++ after)%string ->
  slice text (String.length before) (String.length before + String.length w) = w.
Proof.
  intros ->. unfold slice.
  replace (String.length before + String.length w - String.length before)
    with (String.length w) by lia.
  rewrite substring_skip. apply substring_prefix.
Qed.

Lemma cursor_of_start text : cursor_of text (start_of text).
Proof. exists EmptyString. simpl. auto. Qed.

Lemma cursor_of_next text p i a s :
  cursor_of text {| prev := p; pos := i; rest := String a s |} ->
  cursor_of text {| prev := Some a; pos := S i; rest := s |}.
Proof.
  intros (before & E & P). simpl in *.
  exists (before ++ String a EmptyString)%string. simpl.
  rewrite append_assoc, length_app. simpl. split; [exact E | lia].
Qed.

(** The text between the two ends of a match is the piece read. *)
Lemma Matches_slice fl A r text c g c' g' :
  cursor_of text c ->
  Matches fl r c g c' g' ->
  reads_only fl A r = true ->
  Str.forallb A (slice text (pos c) (pos c')) = true /\ cursor_of text c'.
Proof.
  intros (before & E & P) Hm Hro.
  destruct (Matches_reads A Hm Hro) as (w & Ew & Pw & Fw).
  rewrite Pw, P. rewrite Ew in E.
  rewrite (slice_at _ _ _ E). split; [exact Fw|].
  exists (before ++ w)%string. rewrite append_assoc, length_app.
  split; [exact E | lia].
Qed.

(** *** [search], [match], [findall] *)

Lemma scan_sound fl r text : forall s p i i' j g,
  cursor_of text {| prev := p; pos := i; rest := s |} ->
  scan fl r p i s = Some (i', j, g) ->
  exists c c', cursor_of text c /\ Matches fl r c [] c' g
               /\ pos c = i' /\ pos c' = j.
Proof.
  induction s as [|a s IH]; intros p i i' j g Hc H; simpl in H.
  - destruct (match_here fl r _) as [[c' g']|] eqn:Hm; [|discriminate].
    injection H as <- <- <-. apply match_here_sound in Hm.
    eexists _, c'. split; [exact Hc|]. split; [exact Hm|]. split; reflexivity.
  - destruct (match_here fl r _) as [[c' g']|] eqn:Hm.
    + injection H as <- <- <-. apply match_here_sound in Hm.
      eexists _, c'. split; [exact Hc|]. split; [exact Hm|]. split; reflexivity.
    + apply cursor_of_next in Hc. eauto.
Qed.

Lemma search_sound fl r text m :
  search fl r text = Some m ->
  m_text m = text
  /\ exists c c', cursor_of text c /\ Matches fl r c [] c' (m_caps m)
                  /\ pos c = m_start m /\ pos c' = m_end m.
Proof.
  unfold search. destruct (scan fl r None 0 text) as [[[i j] g]|] eqn:Hs;
    [|discriminate].
  intros H. injection H as <-. simpl. split; [reflexivity|].
  eapply scan_sound; [apply cursor_of_start | exact Hs].
Qed.

Lemma match_sound fl r text m :
  match_ fl r text = Some m ->
  m_text m = text
  /\ exists c', Matches fl r (start_of text) [] c' (m_caps m)
                /\ pos c' = m_end m.
Proof.
  unfold match_. destruct (match_here fl r (start_of text)) as [[c' g]|] eqn:Hm;
    [|discriminate].
  intros H. injection H as <-. simpl. split; [reflexivity|].
  apply match_here_sound in Hm. eauto.
Qed.

Lemma group_set n m : is_set n (m_caps m) -> exists t, group n m = Ok t.
Proof.
  unfold is_set, group. destruct (lookup n (m_caps m)) as [[i j]|]; [eauto|].
  intros H. now elim H.
Qed.

Lemma scan_all_reads fl A r text :
  reads_only fl A r = true ->
  forall s p i skip,
    cursor_of text {| prev := p; pos := i; rest := s |} ->
    Forall (fun ij => Str.forallb A (slice text (fst ij) (snd ij)) = true)
           (scan_all fl r p i s skip).
Proof.
  intros Hro. induction s as [|a s IH]; intros p i skip Hc.
  - destruct skip; simpl; [|constructor].
    destruct (match_here fl r _) as [[c' g']|] eqn:Hm; [|constructor].
    apply match_here_sound in Hm.
    constructor; [|constructor]. simpl.
    now apply (Matches_slice A Hc Hm).
  - pose proof (cursor_of_next Hc) as Hn.
    destruct skip; simpl; [|now apply IH].
    destruct (match_here fl r _) as [[c' g']|] eqn:Hm; [|now apply IH].
    apply match_here_sound in Hm.
    constructor; [|now apply IH]. simpl.
    now apply (Matches_slice A Hc Hm).
Qed.

Lemma findall_reads fl A r text :
  reads_only fl A r = true ->
  Forall (fun t => Str.forallb A t = true) (findall fl r text).
Proof.
  intros Hro. unfold findall. apply Forall_map.
  apply scan_all_reads; [exact Hro | apply cursor_of_start].
Qed.

(** What [sub] with an empty replacement leaves was in the text. *)
Lemma sub_go_empty_keeps fl A r : forall s p i skip,
  Str.forallb A s = true ->
  Str.forallb A (sub_go fl r "" p i s skip) = true.
Proof.
  induction s as [|a s IH]; intros p i skip H.
  - destruct skip; simpl; [|reflexivity].
    destruct (match_here fl r _) as [[c' g']|]; reflexivity.
  - simpl in H. apply andb_prop in H as [Ha Hs].
    destruct skip; simpl; [|now apply IH].
    destruct (match_here fl r _) as [[c' g']|]; simpl.
    + destruct (pos c' - i); simpl; [rewrite Ha; simpl|]; now apply IH.
    + rewrite Ha. simpl. now apply IH.
Qed.

End ReFacts.

(** ** Strings and lists *)

Module StrFacts.
Import ReFacts.

Lemma lstrip_keeps A s : Str.forallb A s = true -> Str.forallb A (Str.lstrip s) = true.
Proof.
  induction s as [|c s IH]; simpl; [auto|].
  intros H. destruct (Chars.isspace c); [|exact H].
  apply andb_prop in H as [_ H]. auto.
Qed.

Lemma rstrip_keeps A s : Str.forallb A s = true -> Str.forallb A (Str.rstrip s) = true.
Proof.
  induction s as [|c s IH]; simpl; [auto|].
  intros H. apply andb_prop in H as [Hc H]. specialize (IH H).
  destruct (Str.rstrip s) as [|d r].
  - destruct (Chars.isspace c); simpl; [reflexivity | now rewrite Hc].
  - change (Str.forallb A (String c (String d r)) = true).
    simpl. rewrite Hc. exact IH.
Qed.

Lemma strip_keeps A s : Str.forallb A s = true -> Str.forallb A (Str.strip s) = true.
Proof. intros H. unfold Str.strip. now apply rstrip_keeps, lstrip_keeps. Qed.

Lemma replace_keeps A old new s :
  Str.forallb A new = true -> Str.forallb A s = true ->
  Str.forallb A (Str.replace old new s) = true.
Proof.
  intros Hn. induction s as [|c s IH]; simpl; [auto|].
  intros H. apply andb_prop in H as [Hc H].
  destruct (Ascii.eqb c old).
  - rewrite forallb_app, Hn. simpl. auto.
  - simpl. rewrite Hc. simpl. auto.
Qed.

Lemma forallb_weaken (A B : ascii -> bool) s :
  (forall c, A c = true -> B c = true) ->
  Str.forallb A s = true -> Str.forallb B s = true.
Proof.
  intros HAB. induction s as [|c s IH]; simpl; [auto|].
  intros H. apply andb_prop in H as [Hc H]. rewrite (HAB c Hc). simpl. auto.
Qed.

Lemma split_nonempty sep s : Str.split sep s <> [].
Proof.
  destruct s as [|c s]; simpl; [discriminate|].
  destruct (Ascii.eqb c sep); [discriminate|].
  unfold Str.push. destruct (Str.split sep s); discriminate.
Qed.

Lemma last_ok {A : Type} (l : list A) : l <> [] -> exists x, PyList.last l = Ok x.
Proof.
  induction l as [|x l IH]; [congruence|]. intros _.
  destruct l as [|y l]; [now exists x|].
  destruct IH as [z Hz]; [discriminate|]. exists z. exact Hz.
Qed.

Lemma nonempty_true s : Str.nonempty s = true <-> s <> EmptyString.
Proof. destruct s; simpl; split; congruence. Qed.

End StrFacts.

(** ** Numbers as text *)

Module NumFacts.

Lemma uint_digits (d : Decimal.uint) :
  Str.forallb Chars.isdecimal (NilEmpty.string_of_uint d) = true.
Proof. induction d; simpl; auto. Qed.

Lemma dec_digits n : Str.forallb Chars.isdecimal (Num.dec n) = true.
Proof.
  unfold Num.dec. destruct (N.to_uint (Z.to_N n)) eqn:E; simpl; auto;
    apply uint_digits.
Qed.

Lemma dec_nonempty n : Str.nonempty (Num.dec n) = true.
Proof.
  unfold Num.dec. destruct (N.to_uint (Z.to_N n)); reflexivity.
Qed.

Lemma below_check (P : Z -> bool) (bound : nat) :
  List.forallb P (map Z.of_nat (seq 0 bound)) = true ->
  forall n, (0 <= n < Z.of_nat bound)%Z -> P n = true.
Proof.
  intros H n Hn. rewrite forallb_forall in H. apply H.
  apply in_map_iff. exists (Z.to_nat n). split; [lia|].
  apply in_seq. lia.
Qed.

Lemma pad2_digits n : (0 <= n < 100)%Z -> two_digits (Num.pad 2 n) = true.
Proof.
  apply (below_check (fun n => two_digits (Num.pad 2 n)) 100).
  vm_compute. reflexivity.
Qed.

Lemma dec_year n : (1 <= n < 10000)%Z -> year_digits (Num.dec n) = true.
Proof.
  assert (Hall : forall n, (0 <= n < 10000)%Z ->
                   (n =? 0)%Z || year_digits (Num.dec n) = true).
  { apply (below_check (fun n => (n =? 0)%Z || year_digits (Num.dec n)) 10000).
    vm_compute. reflexivity. }
  intros H. specialize (Hall n).
  destruct (Z.eqb_spec n 0); [lia | apply Hall; lia].
Qed.


Lemma int_of_str_raises s e : Num.int_of_str s = Raise e -> e = ValueError.
Proof.
  unfold Num.int_of_str. destruct (Str.strip s); [congruence|].
  destruct (Num.digits_value 0 _); congruence.
Qed.

End NumFacts.

(** ** binary64 *)

Module FloatFacts.
Import Float.

Lemma of_ratio_nonneg num den : nonneg (of_ratio false num den) = true.
Proof.
  unfold of_ratio.
  repeat match goal with
         | |- context [if ?b then _ else _] => destruct b
         | |- context [let '(_, _) := ?p in _] => destruct p
         end; reflexivity.
Qed.

(** A numeral without a minus sign is not negative. *)
Lemma of_str_nonneg s x :
  Str.forallb no_minus s = true -> of_str s = Ok x -> nonneg x = true.
Proof.
  intros Hs. unfold of_str.
  assert (Hneg : (match s with
                  | String c s' =>
                      if Ascii.eqb c "-" then (true, s')
                      else if Ascii.eqb c "+" then (false, s') else (false, s)
                  | EmptyString => (false, s)
                  end) = (false, snd (match s with
                  | String c s' =>
                      if Ascii.eqb c "-" then (true, s')
                      else if Ascii.eqb c "+" then (false, s') else (false, s)
                  | EmptyString => (false, s)
                  end))).
  { destruct s as [|c s']; [reflexivity|]. simpl in Hs.
    apply andb_prop in Hs as [Hc _]. unfold no_minus in Hc.
    destruct (Ascii.eqb c "-"); [discriminate|].
    destruct (Ascii.eqb c "+"); reflexivity. }
  rewrite Hneg. clear Hneg.
  destruct (span_digits _) as [ip r].
  destruct (match r with
            | String c r1 => if Ascii.eqb c "." then span_digits r1 else (EmptyString, r)
            | EmptyString => (EmptyString, r)
            end) as [fp r'].
  destruct r'; [|discriminate].
  destruct (Str.nonempty ip || Str.nonempty fp); [|discriminate].
  intros H. injection H as <-. apply of_ratio_nonneg.
Qed.

Lemma amount_from_digits ip a b : forall seen,
  Str.forallb Chars.isdecimal ip = true ->
  seen || Str.nonempty ip = true ->
  Chars.isdecimal a = true -> Chars.isdecimal b = true ->
  Canonical.amount_from seen (ip ++ String "." (String a (String b ""))) = true.
Proof.
  induction ip as [|c ip IH]; intros seen Hd Hs Ha Hb; simpl.
  - rewrite orb_false_r in Hs. now rewrite Hs, Ha, Hb.
  - simpl in Hd. apply andb_prop in Hd as [Hc Hd].
    destruct (Ascii.eqb c ".") eqn:E.
    + apply Ascii.eqb_eq in E. subst c. discriminate.
    + rewrite Hc. simpl. apply IH; auto.
Qed.

(** The rendering of a value that is not negative is canonical, or ["inf"]. *)
Lemma format_2f_canonical x :
  nonneg x = true ->
  format_2f x = "inf" \/ Canonical.amount (format_2f x) = true.
Proof.
  destruct x as [neg m e | neg]; simpl; intros H;
    apply negb_true_iff in H; subst neg; [right | left; reflexivity].
  set (k := if (0 <=? e)%Z then _ else _).
  simpl.
  assert (Hp : two_digits (Num.pad 2 (k mod 100)) = true)
    by (apply NumFacts.pad2_digits, Z.mod_pos_bound; lia).
  unfold two_digits in Hp.
  destruct (Num.pad 2 (k mod 100)) as [|a [|b [|? ?]]]; try discriminate.
  apply andb_prop in Hp as [Ha Hb].
  apply amount_from_digits; auto using NumFacts.dec_digits.
  apply NumFacts.dec_nonempty.
Qed.

End FloatFacts.

(** ** Dates *)

Module DateFacts.
Import DateTime.

Lemma make_cases y m d :
  (exists dt, make y m d = Ok dt /\ valid dt = true)
  \/ make y m d = Raise ValueError.
Proof.
  unfold make. destruct (valid _) eqn:E; [left; eauto | right; reflexivity].
Qed.

Lemma days_in_month_le y m : (days_in_month y m <= 31)%Z.
Proof.
  unfold days_in_month.
  repeat match goal with |- context [if ?b then _ else _] => destruct b end; lia.
Qed.

Lemma valid_parts d :
  valid d = true ->
  (1 <= year d < 10000)%Z /\ (0 <= month d < 100)%Z /\ (0 <= day d < 100)%Z.
Proof.
  unfold valid. intros H.
  repeat (apply andb_prop in H as [H ?]).
  pose proof (days_in_month_le (year d) (month d)). lia.
Qed.

(** A valid date is rendered as Y-MM-DD, the year not padded. *)
Lemma strftime_iso_dated d : valid d = true -> dated (strftime_iso d).
Proof.
  intros H. apply valid_parts in H as (Hy & Hm & Hd).
  exists (Num.dec (year d)), (Num.pad 2 (month d)), (Num.pad 2 (day d)).
  split; [reflexivity|].
  auto using NumFacts.dec_year, NumFacts.pad2_digits.
Qed.




End DateFacts.

Module StrptimeFacts.
Import DateTime Re ReSem ReFacts.

Lemma index_of_raises x l i e : index_of x l i = Raise e -> e = ValueError.
Proof.
  revert i. induction l as [|y l IH]; simpl; intros i H; [congruence|].
  destruct (String.eqb x y); [discriminate | eauto].
Qed.

Lemma read_field_raises d text f e :
  read_field d text f = Raise e -> e = ValueError.
Proof.
  unfold read_field. destruct f as [[y m] dd].
  assert (Hint : forall (k : Z -> fields),
             (v <- Num.int_of_str text ;; Ok (k v)) = Raise e -> e = ValueError).
  { intros k H. destruct (Num.int_of_str text) eqn:E; simpl in H; [discriminate|].
    injection H as <-. eapply NumFacts.int_of_str_raises; eauto. }
  assert (Hidx : forall l (k : Z -> fields),
             (v <- index_of (Str.lower text) l 1 ;; Ok (k v)) = Raise e ->
             e = ValueError).
  { intros l k H. destruct (index_of _ l 1) eqn:E; simpl in H; [discriminate|].
    injection H as <-. eapply index_of_raises; eauto. }
  destruct d as [[] [] [] [] [] [] [] []]; try discriminate;
    intros H; solve [ eapply Hint; exact H | eapply Hidx; exact H ].
Qed.

Lemma read_fields_cases ds : forall n m f,
  (forall k, n <= k < n + List.length ds -> is_set k (m_caps m)) ->
  (exists f', read_fields ds n m f = Ok f')
  \/ read_fields ds n m f = Raise ValueError.
Proof.
  induction ds as [|d ds IH]; intros n m f Hset; simpl; [left; eauto|].
  destruct (group_set (n := n) m) as [t Ht]; [apply Hset; simpl; lia|].
  rewrite Ht. simpl.
  destruct (read_field d t f) as [f'|e] eqn:E; simpl.
  - apply IH. intros k Hk. apply Hset. simpl. lia.
  - right. f_equal. eapply read_field_raises; eauto.
Qed.

(** [strptime] gives a valid date or raises [ValueError], nothing else. *)
Lemma strptime_cases data fmt :
  fmt_ok fmt = true ->
  (exists d, strptime data fmt = Ok d /\ valid d = true)
  \/ strptime data fmt = Raise ValueError.
Proof.
  unfold fmt_ok, strptime, re_match.
  destruct (format_pattern false fmt) as [[p ds]|]; [|discriminate]. cbn [bind].
  destruct (ReParse.compile p) as [r|]; [|discriminate]. cbn [bind].
  intros Hok.
  destruct (match_ IGNORECASE r data) as [m|] eqn:Hm; [|now right].
  destruct (negb (Nat.eqb (String.length data) (mend m))); [now right|].
  apply match_sound in Hm. destruct Hm as (_ & c' & Hmatch & _).
  apply Matches_groups in Hmatch. destruct Hmatch as [_ Hmust].
  destruct (read_fields_cases ds (n := 1) m (1900, 1, 1)%Z) as [[[[y mo] d] Hf]|Hf].
  - intros k Hk. apply Hmust.
    rewrite forallb_forall in Hok.
    assert (Hin : In k (seq 1 (List.length ds))) by (apply in_seq; lia).
    apply Hok in Hin. apply existsb_exists in Hin as (k' & Hin & Heq).
    apply Nat.eqb_eq in Heq. now subst k'.
  - rewrite Hf. simpl.
    destruct (DateFacts.make_cases y mo d) as [(dt & Hd & Hv)|Hd]; rewrite Hd; eauto.
  - rewrite Hf. now right.
Qed.

Lemma possible_formats_ok : List.forallb fmt_ok possible_formats = true.
Proof. vm_compute. reflexivity. Qed.

Lemma try_formats_cases raw fmts :
  List.forallb fmt_ok fmts = true ->
  try_formats raw fmts = Ok None
  \/ exists d, try_formats raw fmts = Ok (Some (strftime_iso d)) /\ valid d = true.
Proof.
  induction fmts as [|fmt fmts IH]; simpl; intros H; [now left|].
  apply andb_prop in H as [Hf H].
  destruct (strptime_cases raw fmt Hf) as [(d & Hd & Hv)|Hd]; rewrite Hd; eauto.
Qed.

(** The date loop returns, and returns the sentinel or the rendering of a
    date of the calendar. *)
Lemma try_patterns_cases text patterns :
  List.forallb compiles patterns = true ->
  exists res, try_patterns text patterns = Ok res
              /\ (res = NOT_FOUND
                  \/ exists d, valid d = true /\ res = strftime_iso d).
Proof.
  induction patterns as [|p ps IH]; intros H; [simpl; eauto|].
  simpl in H. apply andb_prop in H as [Hp H]. specialize (IH H).
  cbn [try_patterns]. unfold re_search, compiles in *.
  destruct (ReParse.compile p) as [r|]; [|discriminate]. cbn [bind].
  destruct (search IGNORECASE r text) as [m|]; [|exact IH].
  destruct (try_formats_cases (group0 m) possible_formats possible_formats_ok)
    as [Hn|(d & Hd & Hv)]; [rewrite Hn | rewrite Hd]; cbn [bind]; [exact IH|].
  eexists. split; [reflexivity|]. right. eauto.
Qed.

End StrptimeFacts.

(** ** Amounts *)

Module AmountFacts.
Import Re ReSem ReFacts StrFacts FloatFacts Main.

Lemma cleaner_compiles : ReParse.compile "[^\d,.\-]" = Ok CLEANER.
Proof. reflexivity. Qed.

(** [parse_amount_to_float] returns on every string. *)
Lemma parse_amount_returns s : exists v, parse_amount_to_float s = Ok v.
Proof.
  unfold parse_amount_to_float, re_sub. rewrite cleaner_compiles. cbn [bind].
  destruct (negb (Str.nonempty s)); [eauto|].
  set (t := sub NOFLAGS CLEANER "" (Str.strip s)).
  destruct (String.eqb t ""); [eauto|].
  assert (Hfin : forall u, exists v,
             match Float.of_str u with
             | Ok x => Ok (Some x)
             | Raise _ => Ok None
             end = Ok v).
  { intros u. destruct (Float.of_str u); eauto. }
  destruct (Nat.ltb 0 (Str.count "," t) && Nat.ltb 0 (Str.count "." t)).
  - destruct (Str.rfind "." t <? Str.rfind "," t)%Z; cbn [bind]; apply Hfin.
  - destruct (Nat.ltb 0 (Str.count "," t) && Nat.eqb (Str.count "." t) 0);
      [|cbn [bind]; apply Hfin].
    destruct (last_ok (split_nonempty "," t)) as [tail ->]. cbn [bind].
    destruct (Nat.eqb (String.length tail) 2); cbn [bind]; apply Hfin.
Qed.

(** A token without a minus sign has no negative value. *)
Lemma parse_amount_nonneg s x :
  Str.forallb no_minus s = true ->
  parse_amount_to_float s = Ok (Some x) -> Float.nonneg x = true.
Proof.
  intros Hs. unfold parse_amount_to_float, re_sub.
  rewrite cleaner_compiles. cbn [bind].
  destruct (negb (Str.nonempty s)); [discriminate|].
  set (t := sub NOFLAGS CLEANER "" (Str.strip s)).
  assert (Ht : Str.forallb no_minus t = true).
  { apply sub_go_empty_keeps. now apply strip_keeps. }
  destruct (String.eqb t ""); [discriminate|].
  assert (Hfin : forall u, Str.forallb no_minus u = true ->
             match Float.of_str u with
             | Ok x => Ok (Some x)
             | Raise _ => Ok None
             end = Ok (Some x) -> Float.nonneg x = true).
  { intros u Hu. destruct (Float.of_str u) eqn:E; [|discriminate].
    intros H. injection H as <-. eapply of_str_nonneg; eauto. }
  assert (Hdot : Str.forallb no_minus "." = true) by reflexivity.
  assert (Hnil : Str.forallb no_minus "" = true) by reflexivity.
  destruct (Nat.ltb 0 (Str.count "," t) && Nat.ltb 0 (Str.count "." t)).
  - destruct (Str.rfind "." t <? Str.rfind "," t)%Z; cbn [bind]; apply Hfin;
      auto using replace_keeps.
  - destruct (Nat.ltb 0 (Str.count "," t) && Nat.eqb (Str.count "." t) 0);
      [|cbn [bind]; now apply Hfin].
    destruct (PyList.last (Str.split "," t)) as [tail|]; [|discriminate].
    cbn [bind].
    destruct (Nat.eqb (String.length tail) 2); cbn [bind]; apply Hfin;
      auto using replace_keeps.
Qed.

Lemma parsed_list_returns tokens :
  exists vals, parsed_list_of tokens = Ok vals.
Proof.
  induction tokens as [|t ts [vals IH]]; simpl; [eauto|].
  destruct (parse_amount_returns t) as [v ->]. rewrite IH. cbn [bind].
  destruct v; eauto.
Qed.

Lemma parsed_list_nonneg tokens vals :
  Forall (fun t => Str.forallb no_minus t = true) tokens ->
  parsed_list_of tokens = Ok vals ->
  Forall (fun x => Float.nonneg x = true) vals.
Proof.
  intros Ht. revert vals. induction Ht as [|t ts Hn _ IH]; simpl; intros vals H.
  - injection H as <-. constructor.
  - destruct (parse_amount_to_float t) as [v|] eqn:Ev; [|discriminate].
    destruct (parsed_list_of ts) as [rest|]; [|discriminate].
    cbn [bind] in H. specialize (IH rest eq_refl).
    destruct v as [x|]; injection H as <-; [|exact IH].
    constructor; [|exact IH]. eapply parse_amount_nonneg; eauto.
Qed.

Lemma fold_max_in l : forall x,
  In (fold_left (fun best y => if Float.ltb best y then y else best) l x) (x :: l).
Proof.
  induction l as [|y l IH]; intros x; simpl; [auto|].
  destruct (Float.ltb x y).
  - right. apply IH.
  - destruct (IH x) as [H|H]; [left; exact H | right; right; exact H].
Qed.

Lemma max_in l best : Float.max l = Ok best -> In best l.
Proof.
  destruct l as [|x l]; simpl; [discriminate|].
  intros H. injection H as <-. apply fold_max_in.
Qed.

End AmountFacts.

Module TotalFacts.
Import Re ReSem ReFacts StrFacts FloatFacts AmountFacts Main.

Lemma Matches_cat_inv fl r1 r2 c g c2 g2 :
  Matches fl (Cat r1 r2) c g c2 g2 ->
  exists c1 g1, Matches fl r1 c g c1 g1 /\ Matches fl r2 c1 g1 c2 g2.
Proof.
  intros H. inversion H; subst; [discriminate|eauto].
Qed.

Lemma Matches_group_inv fl n r c g c1 g' :
  Matches fl (Group n r) c g c1 g' ->
  exists g1, Matches fl r c g c1 g1 /\ g' = (n, (pos c, pos c1)) :: g1.
Proof.
  intros H. inversion H; subst; [discriminate|eauto].
Qed.

Lemma reads_only_top fl r : reads_only fl (fun _ => true) r = true.
Proof.
  assert (H : forall r0,
             List.forallb (fun a => implb (accepts fl r0 a) true) all_chars = true).
  { intros r0. apply forallb_forall. intros a _. now destruct (accepts fl r0 a). }
  induction r; cbn [reads_only]; try apply H; try reflexivity;
    rewrite ?IHr1, ?IHr2; auto.
Qed.

Lemma Matches_cursor fl r text c g c' g' :
  cursor_of text c -> Matches fl r c g c' g' -> cursor_of text c'.
Proof.
  intros Hc Hm.
  exact (proj2 (Matches_slice (fun _ => true) Hc Hm (reads_only_top fl r))).
Qed.

Lemma money_compiles :
  exists money,
    ReParse.compile MONEY_PATTERN = Ok money
    /\ reads_only NOFLAGS no_minus money = true.
Proof.
  eexists. split; [vm_compute; reflexivity|]. vm_compute. reflexivity.
Qed.

Lemma total_compiles :
  exists kw gap money,
    ReParse.compile (total_pattern 80) = Ok (Cat kw (Cat gap (Group 1 money)))
    /\ reads_only IGNORECASE_DOTALL no_minus money = true.
Proof.
  eexists _, _, _. split; [vm_compute; reflexivity|]. vm_compute. reflexivity.
Qed.

Lemma format_well_formed x :
  Float.nonneg x = true -> well_formed (Float.format_2f x).
Proof.
  intros H. destruct (format_2f_canonical x H); unfold well_formed; auto.
Qed.

Lemma fallback_cases text dbg :
  exists chosen cands,
    fallback text dbg = Ok (chosen, cands) /\ well_formed chosen.
Proof.
  unfold fallback, re_findall.
  destruct money_compiles as (money & -> & Hro). cbn [bind].
  pose proof (findall_reads NOFLAGS no_minus money text Hro) as Htok.
  destruct (findall NOFLAGS money text) as [|t ts] eqn:Ef.
  - eexists _, _. split; [reflexivity | now left].
  - destruct (parsed_list_returns (t :: ts)) as [vals Hv]. rewrite Hv.
    cbn [bind]. pose proof (parsed_list_nonneg Htok Hv) as Hnn.
    destruct vals as [|v vs].
    + eexists _, _. split; [reflexivity | now left].
    + destruct (Float.max (v :: vs)) as [best|] eqn:Em; [|discriminate].
      cbn [bind]. eexists _, _. split; [reflexivity|].
      apply format_well_formed.
      rewrite Forall_forall in Hnn. apply Hnn. now apply max_in.
Qed.

(** The labelled amount is read whenever the labelled pattern matches, and
    it holds no minus sign. *)
Lemma labelled_group text kw gap money m :
  reads_only IGNORECASE_DOTALL no_minus money = true ->
  search IGNORECASE_DOTALL (Cat kw (Cat gap (Group 1 money))) text = Some m ->
  exists amt, group 1 m = Ok amt /\ Str.forallb no_minus amt = true.
Proof.
  intros Hro Hs. apply search_sound in Hs.
  destruct Hs as (Ht & c & c' & Hc & Hm & _ & _).
  apply Matches_cat_inv in Hm. destruct Hm as (c1 & g1 & Hkw & Hm).
  apply Matches_cat_inv in Hm. destruct Hm as (c2 & g2 & Hgap & Hm).
  apply Matches_group_inv in Hm. destruct Hm as (g3 & Hmoney & Hcaps).
  pose proof (Matches_cursor Hc Hkw) as Hc1.
  pose proof (Matches_cursor Hc1 Hgap) as Hc2.
  unfold group. rewrite Hcaps. simpl. rewrite Ht.
  eexists. split; [reflexivity|].
  exact (proj1 (Matches_slice no_minus Hc2 Hmoney Hro)).
Qed.

(** [extract_total] returns on every text, and what it chooses is the
    sentinel, a canonical amount, or ["inf"]. *)
Lemma extract_total_cases text :
  exists chosen cands,
    extract_total text 80 = Ok (chosen, cands) /\ well_formed chosen.
Proof.
  unfold extract_total, re_search.
  destruct total_compiles as (kw & gap & money & -> & Hro). cbn [bind].
  set (t := clean_ocr_text text).
  destruct (search _ _ t) as [m|] eqn:Hs; [|apply fallback_cases].
  destruct (labelled_group _ _ _ _ Hro Hs) as (amt & -> & Hamt). cbn [bind].
  destruct (parse_amount_returns amt) as [v Hv]. rewrite Hv. cbn [bind].
  destruct v as [x|]; [|apply fallback_cases].
  eexists _, _. split; [reflexivity|].
  apply format_well_formed. eapply parse_amount_nonneg; eauto.
Qed.

End TotalFacts.

(** ** Vendor *)

Module VendorFacts.
Import Main.

Lemma marks_compiles : ReParse.compile "^[\d\W]{1,}$" = Ok LINE_OF_MARKS.
Proof. reflexivity. Qed.

Lemma skipped_returns line : exists b, skipped line = Ok b.
Proof.
  unfold skipped, re_match. rewrite marks_compiles. cbn [bind].
  destruct (is_some (p_search VENDOR_SKIP_KEYWORDS (Str.lower line))); [eauto|].
  destruct (is_some (Re.match_ Re.NOFLAGS LINE_OF_MARKS line)); eauto.
Qed.

Lemma score_le line : (score_of line <= 8)%Z.
Proof.
  unfold score_of.
  repeat match goal with |- context [if ?b then _ else _] => destruct b end; lia.
Qed.

(** The loop returns, and adds one candidate per line it keeps. *)
Lemma collect_adds items : forall acc,
  exists more,
    collect items acc = Ok (acc ++ more)%list
    /\ (forall c, In c more ->
          exists i line, c = (score_of line, i, line) /\ In (i, line) items
                         /\ skipped line = Ok false)
    /\ ((forall i line, In (i, line) items -> skipped line = Ok true) ->
        more = []).
Proof.
  induction items as [|[i line] items IH]; intros acc.
  - exists []. simpl. rewrite app_nil_r. repeat split; auto. intros c [].
  - cbn [collect]. destruct (skipped_returns line) as [b Hb]. rewrite Hb.
    cbn [bind]. destruct b.
    + destruct (IH acc) as (more & E & Hin & Hnone). exists more.
      split; [exact E|]. split.
      * intros c Hc. destruct (Hin c Hc) as (j & l & ? & ? & ?).
        exists j, l. simpl. auto.
      * intros Hall. apply Hnone. intros j l Hjl. apply (Hall j l). now right.
    + destruct (IH (acc ++ [(score_of line, i, line)])%list) as (more & E & Hin & _).
      exists ((score_of line, i, line) :: more). split.
      * rewrite E, <- app_assoc. reflexivity.
      * split.
        -- intros c [<-|Hc].
           ++ exists i, line. simpl. auto.
           ++ destruct (Hin c Hc) as (j & l & ? & ? & ?).
              exists j, l. simpl. auto.
        -- intros Hall. specialize (Hall i line (or_introl eq_refl)).
           congruence.
Qed.

Lemma enumerate_from_ge {A : Type} (l : list A) : forall n i x,
  In (i, x) (PyList.enumerate_from n l) -> n <= i /\ In x l.
Proof.
  induction l as [|y l IH]; intros n i x H; simpl in H; [contradiction|].
  destruct H as [H|H].
  - injection H as <- <-. split; [lia | now left].
  - apply IH in H. split; [lia | now right].
Qed.

Lemma insert_in x l y : In y (insert x l) -> y = x \/ In y l.
Proof.
  induction l as [|z l IH]; simpl; [intros [<-|[]]; auto|].
  destruct (key_le x z); simpl; intros [H|H]; auto.
  apply IH in H. tauto.
Qed.

Lemma sort_in l y : In y (sort l) -> In y l.
Proof.
  induction l as [|x l IH]; simpl; [auto|].
  intros H. apply insert_in in H. destruct H as [->|H]; auto.
Qed.

(** A candidate that goes before every other one is the first of the
    sorted list. *)
Lemma sort_head x l :
  (forall y, In y l -> key_le x y = true) ->
  exists tl, sort (x :: l) = x :: tl.
Proof.
  intros H. simpl.
  assert (Hs : forall y, In y (sort l) -> key_le x y = true)
    by (intros y Hy; apply H, sort_in, Hy).
  destruct (sort l) as [|z s]; simpl; [eauto|].
  rewrite (Hs z (or_introl eq_refl)). eauto.
Qed.

Lemma stripped_first text :
  match first_nonblank_line text with
  | Some l => exists tl, stripped_lines text = l :: tl /\ l <> EmptyString
  | None => stripped_lines text = []
  end.
Proof.
  unfold first_nonblank_line, stripped_lines.
  induction (Str.splitlines text) as [|ln lns IH]; simpl; [reflexivity|].
  destruct (Str.nonempty (Str.strip ln)) eqn:E; simpl.
  - eexists. split; [reflexivity|]. now apply StrFacts.nonempty_true.
  - exact IH.
Qed.

End VendorFacts.

(** * The statements of the specification *)

(** C4. For any text whose first non-blank lines are "INVOICE #123",
    "Acme Corp LLC", "123 Main St" (whatever follows), [extract_vendor]
    chooses "Acme Corp LLC": the invoice line is skipped by the keyword
    filter, "Acme Corp LLC" scores 5 + 2 + 1 and "123 Main St" 2 + 1; when
    nothing follows, the candidates are these two lines in this order. *)
Theorem vendor_example : forall text rest,
  Main.stripped_lines (Main.clean_ocr_text text)
    = "INVOICE #123" :: "Acme Corp LLC" :: "123 Main St" :: rest ->
  Main.skipped "INVOICE #123" = Ok true
  /\ Main.score_of "Acme Corp LLC" = 8%Z
  /\ Main.score_of "123 Main St" = 3%Z
  /\ exists cands,
       Main.extract_vendor text 8 = Ok ("Acme Corp LLC", "Acme Corp LLC" :: cands)
       /\ (rest = [] -> cands = ["123 Main St"]).
Proof.
  intros text rest Hlines.
  assert (H0 : Main.skipped "INVOICE #123" = Ok true) by (vm_compute; reflexivity).
  assert (H1 : Main.skipped "Acme Corp LLC" = Ok false) by (vm_compute; reflexivity).
  assert (H2 : Main.skipped "123 Main St" = Ok false) by (vm_compute; reflexivity).
  assert (S1 : Main.score_of "Acme Corp LLC" = 8%Z) by (vm_compute; reflexivity).
  assert (S2 : Main.score_of "123 Main St" = 3%Z) by (vm_compute; reflexivity).
  repeat (split; [assumption|]).
  unfold Main.extract_vendor. cbv zeta. rewrite Hlines.
  change (PyList.slice_to 8 ("INVOICE #123" :: "Acme Corp LLC" :: "123 Main St" :: rest))
    with ("INVOICE #123" :: "Acme Corp LLC" :: "123 Main St" :: firstn 5 rest).
  unfold PyList.enumerate. cbn [PyList.enumerate_from Main.collect].
  rewrite H0, H1, H2. cbn [bind app]. rewrite S1, S2.
  match goal with
  | |- context [Main.collect ?items ?acc] =>
      destruct (VendorFacts.collect_adds items acc) as (more & -> & Hmore & _)
  end.
  cbn [bind app].
  assert (Hhead : forall y, In y ((3%Z, 2, "123 Main St") :: more) ->
                    Main.key_le (8%Z, 1, "Acme Corp LLC") y = true).
  { intros y [<-|Hy]; [reflexivity|].
    destruct (Hmore y Hy) as (i & line & -> & Hin & _).
    apply VendorFacts.enumerate_from_ge in Hin. destruct Hin as [Hi _].
    pose proof (VendorFacts.score_le line) as Hs.
    unfold Main.key_le.
    destruct (Z.eq_dec (Main.score_of line) 8) as [E|E].
    - rewrite E. simpl. destruct i as [|[|i]]; [lia | lia | reflexivity].
    - assert (Hlt : (- (8) <? - Main.score_of line)%Z = true)
        by (apply Z.ltb_lt; lia).
      rewrite Hlt. reflexivity. }
  match goal with
  | |- context [Main.sort (?x :: ?l)] =>
      destruct (VendorFacts.sort_head x l Hhead) as [tl Htl]
  end.
  rewrite Htl. cbn [PyList.first bind map Main.line_of snd].
  eexists. split; [reflexivity|].
  intros ->. simpl in Hmore, Htl.
  assert (more = []) as ->.
  { destruct more as [|c more]; [reflexivity|].
    destruct (Hmore c (or_introl eq_refl)) as (i & line & _ & [] & _). }
  vm_compute in Htl. injection Htl as <-. reflexivity.
Qed.

(** Witness for C4: the three lines alone. *)
Lemma vendor_example_witness :
  exists cands,
    Main.extract_vendor ("INVOICE #123" ++ NL ++ "Acme Corp LLC" ++ NL ++ "123 Main St") 8
      = Ok ("Acme Corp LLC", "Acme Corp LLC" :: cands)
    /\ cands = ["123 Main St"].
Proof.
  destruct (vendor_example
              ("INVOICE #123" ++ NL ++ "Acme Corp LLC" ++ NL ++ "123 Main St")
              (rest := []))
    as (_ & _ & _ & cands & H & Hc); [vm_compute; reflexivity|].
  exists cands. split; [exact H | apply Hc; reflexivity].
Defined.

(** C7. Vendor fallback: when every one of the first [top_n_lines]
    non-blank lines is skipped by the filter, [extract_vendor] returns the
    first non-blank line of the text, which is not empty, with no
    candidates; a text without non-blank lines gives "Unknown". *)
Theorem vendor_fallback : forall text top_n_lines,
  (forall line,
      In line (PyList.slice_to top_n_lines
                 (Main.stripped_lines (Main.clean_ocr_text text))) ->
      Main.skipped line = Ok true) ->
  exists chosen,
    Main.extract_vendor text top_n_lines = Ok (chosen, [])
    /\ match first_nonblank_line (Main.clean_ocr_text text) with
       | Some line => chosen = line /\ chosen <> EmptyString
       | None => chosen = Main.UNKNOWN
       end.
Proof.
  intros text n Hall.
  unfold Main.extract_vendor. cbv zeta.
  set (lines := Main.stripped_lines (Main.clean_ocr_text text)) in *.
  destruct (VendorFacts.collect_adds
              (PyList.enumerate (PyList.slice_to n lines)) [])
    as (more & E & _ & Hnone).
  rewrite E, Hnone.
  - cbn [app bind].
    pose proof (VendorFacts.stripped_first (Main.clean_ocr_text text)) as Hf.
    fold lines in Hf.
    destruct (first_nonblank_line (Main.clean_ocr_text text)) as [l|].
    + destruct Hf as (tl & -> & Hne). cbn [PyList.first bind]. eauto.
    + rewrite Hf. eauto.
  - intros i line Hin. apply Hall.
    apply VendorFacts.enumerate_from_ge in Hin. tauto.
Qed.

(** Witness for C7: an invoice line and a line of digits, both skipped. *)
Lemma vendor_fallback_witness :
  exists chosen,
    Main.extract_vendor ("  " ++ NL ++ "INVOICE #123" ++ NL ++ "555-0100") 8
      = Ok (chosen, [])
    /\ chosen = "INVOICE #123" /\ chosen <> EmptyString.
Proof.
  destruct (vendor_fallback ("  " ++ NL ++ "INVOICE #123" ++ NL ++ "555-0100") 8)
    as (chosen & H & Hc).
  - intros line Hin. vm_compute in Hin.
    destruct Hin as [<-|[<-|[]]]; vm_compute; reflexivity.
  - exists chosen. split; [exact H|]. vm_compute in Hc. exact Hc.
Defined.

(** C1. On "Subtotal: $80.00 ... TOTAL DUE $123.45" [extract_total] returns
    "80.00" with the single candidate "80.00": the keyword "total" is found
    inside "Subtotal", at the leftmost position, before "TOTAL DUE" is
    looked at; "123.45" is neither chosen nor a candidate. On
    "$1,234.56 and $999.00", which has no label, it returns the maximum,
    "1234.56". *)
Theorem total_examples :
  Main.extract_total "Subtotal: $80.00 ... TOTAL DUE $123.45" 80
    = Ok ("80.00", ["80.00"])
  /\ Main.extract_total "$1,234.56 and $999.00" 80
    = Ok ("1234.56", ["$1,234.56"; "$999.00"]).
Proof. split; vm_compute; reflexivity. Qed.

(** C3. The two date extractors differ: on an ISO date and on a month-name
    date the batch script finds nothing, the service module finds the
    date. *)
Theorem batch_date_differs :
  BatchProcessor.extract_date "2014-05-01" = Ok NOT_FOUND
  /\ Main.extract_date "2014-05-01" = Ok "2014-05-01"
  /\ BatchProcessor.extract_date "May 1, 2014" = Ok NOT_FOUND
  /\ Main.extract_date "May 1, 2014" = Ok "2014-05-01".
Proof. repeat split; vm_compute; reflexivity. Qed.

(** C6. Separator resolution: "1.234,56" and "1,234.56" give the float
    1234.56, "1,23" gives 1.23, "1,234" gives 1234 (each the binary64 value
    nearest to the decimal, the value of the Python literal). *)
Theorem amount_normalization :
  Main.parse_amount_to_float "1.234,56" = Ok (Some (Float.of_ratio false 123456 100))
  /\ Main.parse_amount_to_float "1,234.56" = Ok (Some (Float.of_ratio false 123456 100))
  /\ Main.parse_amount_to_float "1,23" = Ok (Some (Float.of_ratio false 123 100))
  /\ Main.parse_amount_to_float "1,234" = Ok (Some (Float.of_ratio false 1234 1))
  /\ Float.of_str "1234.56" = Ok (Float.of_ratio false 123456 100)
  /\ Float.of_str "1.23" = Ok (Float.of_ratio false 123 100)
  /\ Float.of_str "1234" = Ok (Float.of_ratio false 1234 1).
Proof. repeat split; vm_compute; reflexivity. Qed.

(** C10. On a path that is not open, the middleware hands the request on
    exactly when the [x-api-key] header equals the [API_KEY] variable, and
    answers 401 otherwise; two absent values are equal, so a request
    without the header passes when the variable is not set. *)
Theorem api_key_gate : forall environ req,
  ~ In (Main.path req) Main.open_paths ->
  (Main.require_api_key environ req = Main.CallNext req
   <-> Main.headers_get "x-api-key" req = Main.getenv environ "API_KEY")
  /\ (Main.headers_get "x-api-key" req <> Main.getenv environ "API_KEY" ->
      Main.require_api_key environ req = Main.Respond Main.UNAUTHORIZED)
  /\ (Main.headers_get "x-api-key" req = None ->
      Main.getenv environ "API_KEY" = None ->
      Main.require_api_key environ req = Main.CallNext req).
Proof.
  intros environ req Hpath. unfold Main.require_api_key.
  assert (Hopen : existsb (String.eqb (Main.path req)) Main.open_paths = false).
  { destruct (existsb _ _) eqn:E; [|reflexivity].
    apply existsb_exists in E as (p & Hin & Heq).
    apply String.eqb_eq in Heq. subst p. contradiction. }
  rewrite Hopen. cbn [negb].
  assert (Hd : forall a b, Main.differ a b = false <-> a = b).
  { intros [x|] [y|]; simpl; split; try congruence.
    - intros H. apply negb_false_iff, String.eqb_eq in H. now subst.
    - intros H. injection H as ->. now rewrite String.eqb_refl. }
  destruct (Main.differ _ _) eqn:E.
  - assert (Hne : Main.headers_get "x-api-key" req <> Main.getenv environ "API_KEY").
    { intros Heq. apply Hd in Heq. congruence. }
    repeat split; try congruence; try contradiction.
  - apply Hd in E. repeat split; auto; contradiction.
Qed.

(** Witness for C10: no header, no variable. *)
Lemma api_key_gate_witness :
  Main.require_api_key [] {| Main.path := "/parse"; Main.headers := [] |}
  = Main.CallNext {| Main.path := "/parse"; Main.headers := [] |}.
Proof.
  apply (api_key_gate [] {| Main.path := "/parse"; Main.headers := [] |}).
  - simpl. intros [H|[H|[H|[]]]]; discriminate.
  - reflexivity.
  - reflexivity.
Defined.

(** C5, as amended. "Invoice Date: May 1, 2014" gives "2014-05-01"; the
    input "2014/05/01" gives "2014-05-01", and so does every input in which,
    after the OCR correction, the day-first pattern finds nothing and the
    leftmost match of the year-first pattern is "2014/05/01"; an input in
    which none of the three patterns matches gives "Not found". *)
Theorem date_examples : forall day_first year_first month_name,
  Main.date_patterns = [day_first; year_first; month_name] ->
  Main.extract_date "Invoice Date: May 1, 2014" = Ok "2014-05-01"
  /\ Main.extract_date "2014/05/01" = Ok "2014-05-01"
  /\ (forall text m,
        re_search day_first (clean_text_for_dates text) Re.IGNORECASE = Ok None ->
        re_search year_first (clean_text_for_dates text) Re.IGNORECASE = Ok (Some m) ->
        Re.group0 m = "2014/05/01" ->
        Main.extract_date text = Ok "2014-05-01")
  /\ (forall text,
        (forall p, In p Main.date_patterns ->
           re_search p (clean_text_for_dates text) Re.IGNORECASE = Ok None) ->
        Main.extract_date text = Ok NOT_FOUND).
Proof.
  intros p1 p2 p3 Hp.
  split; [vm_compute; reflexivity|].
  split; [vm_compute; reflexivity|].
  split.
  - intros text m H1 H2 Hg. unfold Main.extract_date. rewrite Hp.
    cbn [try_patterns]. rewrite H1. cbn [bind]. rewrite H2. cbn [bind].
    rewrite Hg.
    assert (Hf : try_formats "2014/05/01" possible_formats = Ok (Some "2014-05-01"))
      by (vm_compute; reflexivity).
    rewrite Hf. reflexivity.
  - intros text. clear Hp. unfold Main.extract_date.
    induction Main.date_patterns as [|p ps IH]; intros Hall; [reflexivity|].
    cbn [try_patterns]. rewrite (Hall p (or_introl eq_refl)). cbn [bind].
    apply IH. intros q Hq. apply Hall. now right.
Qed.

(** Witness for C5: "Due 2014/05/01." and a text without any date. *)
Lemma date_examples_witness :
  Main.extract_date "Due 2014/05/01." = Ok "2014-05-01"
  /\ Main.extract_date "no date here" = Ok NOT_FOUND.
Proof.
  pose proof (@date_examples _ _ _ eq_refl) as (_ & _ & Hfirst & Hnone).
  split.
  - apply (Hfirst "Due 2014/05/01."
             {| Re.m_text := "Due 2014/05/01."; Re.m_start := 4; Re.m_end := 14;
                Re.m_caps := [] |});
      vm_compute; reflexivity.
  - apply Hnone. intros p Hp. simpl in Hp.
    destruct Hp as [<-|[<-|[<-|[]]]]; vm_compute; reflexivity.
Defined.

(** Counterexample to C5 as stated: an input that contains "2014/05/01"
    and yields another date, because an earlier day-first date wins. *)
Lemma date_examples_counterexample :
  ~ (forall text, Str.contains "2014/05/01" text = true ->
                  Main.extract_date text = Ok "2014-05-01").
Proof.
  intros H. specialize (H "1/2/2003 and 2014/05/01" eq_refl).
  vm_compute in H. discriminate H.
Qed.



(** ** The order of binary64 values *)

Module OrderFacts.
Import Float.
Local Open Scope Z_scope.

Lemma ltb_scaled n1 m1 e1 n2 m2 e2 L :
  L <= e1 -> L <= e2 ->
  ltb (Fin n1 m1 e1) (Fin n2 m2 e2)
  = (signed n1 m1 * 2 ^ (e1 - L) <? signed n2 m2 * 2 ^ (e2 - L)).
Proof.
  intros H1 H2. unfold ltb, signed.
  set (lo := Z.min e1 e2).
  assert (Hlo : L <= lo) by (unfold lo; lia).
  assert (Hk : 0 < 2 ^ (lo - L)) by (apply Z.pow_pos_nonneg; lia).
  replace (e1 - L) with ((e1 - lo) + (lo - L)) by lia.
  replace (e2 - L) with ((e2 - lo) + (lo - L)) by lia.
  rewrite !Z.pow_add_r by (unfold lo; lia).
  rewrite !Z.mul_assoc.
  destruct (Z.ltb_spec ((if n1 then -1 else 1) * m1 * 2 ^ (e1 - lo))
                       ((if n2 then -1 else 1) * m2 * 2 ^ (e2 - lo)));
    symmetry; [apply Z.ltb_lt | apply Z.ltb_ge]; nia.
Qed.

Ltac order_cases a b c :=
  destruct a as [na ma ea | []], b as [nb mb eb | []], c as [nc mc ec | []];
  try (simpl; intros; congruence);
  try (simpl; intros; reflexivity).

Lemma ltb_irrefl x : ltb x x = false.
Proof.
  destruct x as [n m e | []]; try reflexivity.
  unfold ltb. apply Z.ltb_irrefl.
Qed.

Lemma ltb_trans a b c : ltb a b = true -> ltb b c = true -> ltb a c = true.
Proof.
  order_cases a b c.
  set (L := Z.min ea (Z.min eb ec)).
  rewrite (@ltb_scaled na ma ea nb mb eb L), (@ltb_scaled nb mb eb nc mc ec L),
    (@ltb_scaled na ma ea nc mc ec L) by (unfold L; lia).
  rewrite !Z.ltb_lt. lia.
Qed.

(** If [a < c] then any [b] is above [a] or below [c]. *)
Lemma ltb_between a b c : ltb a c = true -> ltb a b = false -> ltb b c = true.
Proof.
  order_cases a b c.
  set (L := Z.min ea (Z.min eb ec)).
  rewrite (@ltb_scaled na ma ea nb mb eb L), (@ltb_scaled nb mb eb nc mc ec L),
    (@ltb_scaled na ma ea nc mc ec L) by (unfold L; lia).
  rewrite !Z.ltb_lt, Z.ltb_ge. lia.
Qed.

Lemma fold_max_dominates l : forall acc,
  let r := fold_left (fun best y => if ltb best y then y else best) l acc in
  ltb r acc = false /\ forall x, In x l -> ltb r x = false.
Proof.
  induction l as [|y l IH]; intros acc; simpl.
  - split; [apply ltb_irrefl | intros x []].
  - destruct (IH (if ltb acc y then y else acc)) as [Hacc Hl].
    set (r := fold_left _ l _) in *.
    destruct (ltb acc y) eqn:E.
    + split.
      * destruct (ltb r acc) eqn:Era; [|reflexivity].
        rewrite (ltb_trans _ _ _ Era E) in Hacc. discriminate.
      * intros x [<-|Hx]; auto.
    + split; [exact Hacc|].
      intros x [<-|Hx]; auto.
      destruct (ltb r y) eqn:Ery; [|reflexivity].
      rewrite (ltb_between _ _ _ Ery Hacc) in E. discriminate.
Qed.

(** [max] returns an element that none of the list exceeds. *)
Lemma max_dominates l best :
  max l = Ok best -> forall x, In x l -> ltb best x = false.
Proof.
  destruct l as [|y l]; simpl; [discriminate|].
  intros H. injection H as <-.
  destruct (fold_max_dominates l y) as [Hy Hl].
  intros x [<-|Hx]; auto.
Qed.

End OrderFacts.

(** ** The tokens the fallback keeps *)

Module KeepFacts.
Import Main.

(** The parsed list holds the values of the tokens that parse, and only
    those. *)
Lemma parsed_list_in tokens : forall vals,
  parsed_list_of tokens = Ok vals ->
  forall x, In x vals <->
            exists t, In t tokens /\ parse_amount_to_float t = Ok (Some x).
Proof.
  induction tokens as [|t ts IH]; simpl; intros vals H x.
  - injection H as <-. split; [intros [] | intros (t & [] & _)].
  - destruct (parse_amount_to_float t) as [v|] eqn:Ev; [|discriminate].
    destruct (parsed_list_of ts) as [rest|]; [|discriminate].
    cbn [bind] in H. specialize (IH rest eq_refl x).
    destruct v as [y|]; injection H as <-.
    + split.
      * intros [<-|Hx]; [exists t; auto|].
        apply IH in Hx. destruct Hx as (u & Hu & E). exists u. auto.
      * intros (u & [<-|Hu] & E).
        -- rewrite Ev in E. injection E as ->. now left.
        -- right. apply IH. eauto.
    + split.
      * intros Hx. apply IH in Hx. destruct Hx as (u & Hu & E). exists u. auto.
      * intros (u & [<-|Hu] & E).
        -- rewrite Ev in E. discriminate.
        -- apply IH. eauto.
Qed.

End KeepFacts.

(** C8. [parse_amount_to_float] returns a number or [None] on every
    string, never an exception. In the fallback scan of [extract_total] the
    values compared are exactly those of the tokens that parse: a token that
    does not parse is left out, and the others are still compared; with none
    left the result is "Not found", otherwise it is the rendering of a value
    of the list that no other value of the list exceeds. [extract_total]
    (default gap) returns on every text. *)
Theorem amounts_never_raise :
  (forall s, exists v, Main.parse_amount_to_float s = Ok v)
  /\ (forall text dbg, exists tokens vals,
        re_findall Main.MONEY_PATTERN text Re.NOFLAGS = Ok tokens
        /\ Main.parsed_list_of tokens = Ok vals
        /\ (forall x, In x vals <->
              exists t, In t tokens /\ Main.parse_amount_to_float t = Ok (Some x))
        /\ (vals = [] ->
              Main.fallback text dbg = Ok (NOT_FOUND, (dbg ++ tokens)%list))
        /\ (vals <> [] -> exists best,
              In best vals
              /\ (forall x, In x vals -> Float.ltb best x = false)
              /\ Main.fallback text dbg
                 = Ok (Float.format_2f best, (dbg ++ tokens)%list)))
  /\ (forall text, exists chosen cands,
        Main.extract_total text 80 = Ok (chosen, cands)).
Proof.
  split; [exact AmountFacts.parse_amount_returns|]. split.
  - intros text dbg. unfold Main.fallback, re_findall.
    destruct TotalFacts.money_compiles as (money & -> & _). cbn [bind].
    set (tokens := Re.findall Re.NOFLAGS money text).
    destruct (AmountFacts.parsed_list_returns tokens) as [vals Hv].
    exists tokens, vals. split; [reflexivity|]. split; [exact Hv|].
    split; [exact (KeepFacts.parsed_list_in tokens Hv)|].
    split.
    + intros ->. destruct tokens; [reflexivity|]. rewrite Hv. reflexivity.
    + intros Hne. destruct tokens as [|t ts].
      { simpl in Hv. injection Hv as <-. now elim Hne. }
      rewrite Hv. cbn [bind].
      destruct vals as [|v vs]; [now elim Hne|].
      destruct (Float.max (v :: vs)) as [best|] eqn:Em; [|discriminate].
      exists best. split; [now apply AmountFacts.max_in|].
      split; [exact (OrderFacts.max_dominates _ Em)|]. reflexivity.
  - intros text.
    destruct (TotalFacts.extract_total_cases text) as (chosen & cands & H & _).
    eauto.
Qed.

(** ** The engine over the cache computes the pure engine *)

Module EngineFacts.
Import Re.

Lemma agrees_ret A (a : A) : Engine.agrees (Engine.ret a) (Ok a).
Proof. intros w Hw. split; [reflexivity | exact Hw]. Qed.

Lemma agrees_lift A (r : result A) : Engine.agrees (Engine.lift r) r.
Proof. intros w Hw. split; [reflexivity | exact Hw]. Qed.

Lemma agrees_bind A B (m : Engine.M A) r (k : A -> Engine.M B) f :
  Engine.agrees m r -> (forall a, Engine.agrees (k a) (f a)) ->
  Engine.agrees (Engine.bindM m k) (bind r f).
Proof.
  intros Hm Hk w Hw. unfold Engine.bindM. destruct (Hm w Hw) as [E S].
  destruct (m w) as [[a|e] w']; simpl in E, S; subst r; simpl.
  - apply Hk. exact S.
  - split; [reflexivity | exact S].
Qed.

(** As [agrees_bind], with the continuation run on the value [m] gives. *)
Lemma agrees_bind_val A B (m : Engine.M A) r (k : A -> Engine.M B) f :
  Engine.agrees m r -> (forall a, r = Ok a -> Engine.agrees (k a) (f a)) ->
  Engine.agrees (Engine.bindM m k) (bind r f).
Proof.
  intros Hm Hk w Hw. unfold Engine.bindM. destruct (Hm w Hw) as [E S].
  destruct (m w) as [[a|e] w']; simpl in E, S; subst r; simpl.
  - apply Hk; [reflexivity | exact S].
  - split; [reflexivity | exact S].
Qed.

Lemma agrees_eq A (m : Engine.M A) r r' :
  Engine.agrees m r -> r = r' -> Engine.agrees m r'.
Proof. intros H <-. exact H. Qed.

Lemma cached_sound p fl w r :
  Engine.sound w -> Engine.cached p fl w = Some r -> ReParse.compile p = Ok r.
Proof.
  induction 1 as [|[[q gl] r0] w Hq _ IH]; simpl; [discriminate|].
  destruct (String.eqb q p && Engine.flags_eqb gl fl) eqn:E; [|exact IH].
  intros H. injection H as <-. apply andb_prop in E. destruct E as [E _].
  apply String.eqb_eq in E. subst q. exact Hq.
Qed.

Lemma sound_tl w : Engine.sound w -> Engine.sound (tl w).
Proof. intros H. destruct H; [constructor | assumption]. Qed.

Lemma agrees_compile p fl :
  Engine.agrees (Engine.compile p fl) (ReParse.compile p).
Proof.
  intros w Hw. unfold Engine.compile.
  destruct (Engine.cached p fl w) as [r|] eqn:E; cbn [fst snd].
  - split; [symmetry; eapply cached_sound; eauto | exact Hw].
  - destruct (ReParse.compile p) as [r|e] eqn:C; cbn [fst snd]; split; auto.
    apply Forall_app. split.
    + destruct (Nat.leb Engine.MAXCACHE (List.length w));
        [apply sound_tl|]; exact Hw.
    + constructor; [exact C | constructor].
Qed.

Lemma agrees_re_search p text fl :
  Engine.agrees (Engine.re_search p text fl) (re_search p text fl).
Proof. apply agrees_bind; [apply agrees_compile | intros; apply agrees_ret]. Qed.

Lemma agrees_re_match p text fl :
  Engine.agrees (Engine.re_match p text fl) (re_match p text fl).
Proof. apply agrees_bind; [apply agrees_compile | intros; apply agrees_ret]. Qed.

Lemma agrees_re_findall p text fl :
  Engine.agrees (Engine.re_findall p text fl) (re_findall p text fl).
Proof. apply agrees_bind; [apply agrees_compile | intros; apply agrees_ret]. Qed.

Lemma agrees_re_sub p repl text fl :
  Engine.agrees (Engine.re_sub p repl text fl) (re_sub p repl text fl).
Proof. apply agrees_bind; [apply agrees_compile | intros; apply agrees_ret]. Qed.

Lemma agrees_strptime data fmt :
  Engine.agrees (Engine.strptime data fmt) (DateTime.strptime data fmt).
Proof.
  apply agrees_bind; [apply agrees_lift|]. intros [pattern ds].
  apply agrees_bind; [apply agrees_re_match|]. intros [m|]; [|apply agrees_lift].
  destruct (negb _); apply agrees_lift.
Qed.

Lemma agrees_try_formats raw fmts :
  Engine.agrees (Engine.try_formats raw fmts) (try_formats raw fmts).
Proof.
  induction fmts as [|fmt fmts IH]; [apply agrees_ret|].
  intros w Hw. cbn [Engine.try_formats try_formats].
  destruct (agrees_strptime raw fmt Hw) as [E S].
  destruct (Engine.strptime raw fmt w) as [[parsed|e] w']; simpl in E, S;
    rewrite <- E.
  - split; [reflexivity | exact S].
  - destruct e; try (split; [reflexivity | exact S]). apply IH. exact S.
Qed.

Lemma agrees_try_patterns text patterns :
  Engine.agrees (Engine.try_patterns text patterns) (try_patterns text patterns).
Proof.
  induction patterns as [|p ps IH]; [apply agrees_ret|].
  cbn [Engine.try_patterns try_patterns].
  apply agrees_bind; [apply agrees_re_search|]. intros [m|]; [|exact IH].
  apply agrees_bind; [apply agrees_try_formats|].
  intros [d|]; [apply agrees_ret | exact IH].
Qed.

Lemma agrees_skipped line :
  Engine.agrees (Engine.skipped line) (Main.skipped line).
Proof.
  unfold Engine.skipped, Main.skipped.
  destruct (Main.is_some (Main.p_search _ _)); [apply agrees_ret|].
  apply agrees_bind; [apply agrees_re_match|]. intros m.
  destruct (Main.is_some m); apply agrees_ret.
Qed.

Lemma agrees_collect items : forall cands,
  Engine.agrees (Engine.collect items cands) (Main.collect items cands).
Proof.
  induction items as [|[i line] items IH]; intros cands; [apply agrees_ret|].
  cbn [Engine.collect Main.collect].
  apply agrees_bind; [apply agrees_skipped|]. intros [|]; apply IH.
Qed.

Lemma agrees_extract_vendor text n :
  Engine.agrees (Engine.extract_vendor text n) (Main.extract_vendor text n).
Proof.
  unfold Engine.extract_vendor, Main.extract_vendor.
  apply agrees_bind; [apply agrees_collect|]. intros [|c cs].
  - destruct (Main.stripped_lines _); [apply agrees_ret|].
    apply agrees_bind; [apply agrees_lift | intros; apply agrees_ret].
  - apply agrees_bind; [apply agrees_lift | intros; apply agrees_ret].
Qed.

Lemma agrees_parse_amount s :
  Engine.agrees (Engine.parse_amount_to_float s) (Main.parse_amount_to_float s).
Proof.
  unfold Engine.parse_amount_to_float, Main.parse_amount_to_float.
  destruct (negb _); [apply agrees_ret|].
  apply agrees_bind; [apply agrees_re_sub|]. intros t.
  destruct (String.eqb t ""); [apply agrees_ret|].
  apply agrees_bind; [apply agrees_lift|]. intros u.
  destruct (Float.of_str u); apply agrees_ret.
Qed.

(** The second call on a token gives what the first gave. *)
Lemma agrees_parsed_list tokens :
  Engine.agrees (Engine.parsed_list_of tokens) (Main.parsed_list_of tokens).
Proof.
  induction tokens as [|t ts IH]; [apply agrees_ret|].
  cbn [Engine.parsed_list_of Main.parsed_list_of].
  apply agrees_bind_val; [apply agrees_parse_amount|].
  intros [x|] Htest.
  - pose proof (agrees_parse_amount t) as Hp. rewrite Htest in Hp.
    refine (agrees_eq
              (@agrees_bind _ _ _ _ _
                 (fun v =>
                    rest <- Main.parsed_list_of ts ;;
                    match v with
                    | Some y => Ok (y :: rest)
                    | None => Raise TypeError
                    end)
                 Hp _) _); [|reflexivity].
    intros v. apply agrees_bind; [exact IH|]. intros rest.
    destruct v; [apply agrees_ret | apply agrees_lift].
  - refine (agrees_eq IH _). now destruct (Main.parsed_list_of ts).
Qed.

Lemma agrees_fallback text dbg :
  Engine.agrees (Engine.fallback text dbg) (Main.fallback text dbg).
Proof.
  unfold Engine.fallback, Main.fallback.
  apply agrees_bind; [apply agrees_re_findall|]. intros [|t ts]; [apply agrees_ret|].
  apply agrees_bind; [apply agrees_parsed_list|]. intros [|v vs]; [apply agrees_ret|].
  apply agrees_bind; [apply agrees_lift | intros; apply agrees_ret].
Qed.

Lemma agrees_extract_total text gap :
  Engine.agrees (Engine.extract_total text gap) (Main.extract_total text gap).
Proof.
  assert (H : Engine.agrees (Engine.extract_total text gap)
                (r <- ReParse.compile (Main.total_pattern gap) ;;
                 match search IGNORECASE_DOTALL r (Main.clean_ocr_text text) with
                 | Some m =>
                     amt_raw <- group 1 m ;;
                     parsed <- Main.parse_amount_to_float amt_raw ;;
                     match parsed with
                     | Some x => Ok (Float.format_2f x, [amt_raw])
                     | None => Main.fallback (Main.clean_ocr_text text) [amt_raw]
                     end
                 | None => Main.fallback (Main.clean_ocr_text text) []
                 end)).
  { unfold Engine.extract_total.
    apply agrees_bind; [apply agrees_compile|]. intros r.
    destruct (search _ _ _) as [m|]; [|apply agrees_fallback].
    apply agrees_bind; [apply agrees_lift|]. intros amt.
    apply agrees_bind; [apply agrees_parse_amount|].
    intros [x|]; [apply agrees_ret | apply agrees_fallback]. }
  unfold Main.extract_total, re_search.
  destruct (ReParse.compile _); exact H.
Qed.

End EngineFacts.

(** C9. Whatever the [re] cache holds when a run starts (any sound cache:
    the empty one of a fresh interpreter, or the one earlier calls left),
    [extract_vendor], [extract_date] and [extract_total] return the result
    of the pure function of the text: runs begun in two different states
    give identical outputs, and so does a second run begun in the state the
    first run left behind. *)
Theorem extraction_deterministic :
  forall text top_n_lines gap_max_chars w w',
    Engine.sound w -> Engine.sound w' ->
    let vendor := Engine.extract_vendor text top_n_lines in
    let date := Engine.extract_date text in
    let total := Engine.extract_total text gap_max_chars in
    (fst (vendor w) = fst (vendor w')
     /\ fst (date w) = fst (date w')
     /\ fst (total w) = fst (total w'))
    /\ (fst (vendor (snd (vendor w))) = fst (vendor w)
        /\ fst (date (snd (date w))) = fst (date w)
        /\ fst (total (snd (total w))) = fst (total w))
    /\ (fst (vendor w) = Main.extract_vendor text top_n_lines
        /\ fst (date w) = Main.extract_date text
        /\ fst (total w) = Main.extract_total text gap_max_chars).
Proof.
  intros text n gap w w' Hw Hw'. cbv zeta.
  destruct (EngineFacts.agrees_extract_vendor text n Hw) as [V SV].
  destruct (EngineFacts.agrees_extract_vendor text n Hw') as [V' _].
  destruct (EngineFacts.agrees_extract_vendor text n SV) as [V2 _].
  assert (HD : Engine.agrees (Engine.extract_date text) (Main.extract_date text))
    by apply EngineFacts.agrees_try_patterns.
  destruct (HD w Hw) as [D SD]. destruct (HD w' Hw') as [D' _].
  destruct (HD _ SD) as [D2 _].
  destruct (EngineFacts.agrees_extract_total text gap Hw) as [T ST].
  destruct (EngineFacts.agrees_extract_total text gap Hw') as [T' _].
  destruct (EngineFacts.agrees_extract_total text gap ST) as [T2 _].
  repeat split; congruence.
Qed.

(** Witness for C9: a fresh interpreter and one whose cache holds a
    pattern. *)
Lemma extraction_deterministic_witness :
  fst (Engine.extract_date "Due 2014/05/01." [])
  = fst (Engine.extract_date "Due 2014/05/01."
           [("\d", Re.NOFLAGS, Re.Cls false [Re.IDigit])]).
Proof.
  refine (proj1 (proj2 (proj1
    (extraction_deterministic "Due 2014/05/01." 8 80
       (w := []) (w' := [("\d", Re.NOFLAGS, Re.Cls false [Re.IDigit])]) _ _)))).
  - constructor.
  - constructor; [vm_compute; reflexivity | constructor].
Defined.

(** * Further properties of the service *)

(** ** The middleware and the schema *)

Module GateFacts.
Import Main.

Lemma open_iff path :
  existsb (String.eqb path) open_paths = true <-> In path open_paths.
Proof.
  rewrite existsb_exists. split.
  - intros (p & Hin & Heq). apply String.eqb_eq in Heq. now subst p.
  - intros Hin. exists path. split; [exact Hin | apply String.eqb_refl].
Qed.

Lemma differ_false a b : differ a b = false <-> a = b.
Proof.
  destruct a as [x|], b as [y|]; simpl; split; try congruence.
  - intros H. apply negb_false_iff, String.eqb_eq in H. now subst.
  - intros H. injection H as ->. now rewrite String.eqb_refl.
Qed.

Lemma protect_in path methods method op :
  In (method, op) (protect path methods) ->
  if existsb (String.eqb path) undocumented_paths
  then In (method, op) methods
  else security op = Some [API_KEY_HEADER].
Proof.
  unfold protect. rewrite in_map_iff. intros ([m o] & E & Hin).
  destruct (existsb _ _); simpl in E.
  - now rewrite <- E.
  - injection E as <- <-. reflexivity.
Qed.

Lemma open_passes environ req :
  In (path req) open_paths -> require_api_key environ req = CallNext req.
Proof.
  intros Hin. apply open_iff in Hin. unfold require_api_key.
  rewrite Hin. reflexivity.
Qed.

End GateFacts.

(** X1. The middleware lets every request to an open path through, whatever
    its headers and the environment; it never changes the request it hands
    on; and each refusal is the 401 answer, given on a path that is not open
    to a request whose [x-api-key] differs from [API_KEY]. *)
Theorem middleware_outcomes : forall environ req,
  (In (Main.path req) Main.open_paths ->
   Main.require_api_key environ req = Main.CallNext req)
  /\ (forall req', Main.require_api_key environ req = Main.CallNext req' ->
                   req' = req)
  /\ (forall r, Main.require_api_key environ req = Main.Respond r ->
        r = Main.UNAUTHORIZED
        /\ ~ In (Main.path req) Main.open_paths
        /\ Main.headers_get "x-api-key" req <> Main.getenv environ "API_KEY").
Proof.
  intros environ req. unfold Main.require_api_key.
  destruct (existsb (String.eqb (Main.path req)) Main.open_paths) eqn:Eo;
    cbn [negb].
  - split; [reflexivity|]. split; [congruence | discriminate].
  - assert (Hno : ~ In (Main.path req) Main.open_paths).
    { intros Hin. apply GateFacts.open_iff in Hin. congruence. }
    split; [intros Hin; contradiction|].
    destruct (Main.differ _ _) eqn:Ed.
    + split; [discriminate|]. intros r H. injection H as <-.
      split; [reflexivity|]. split; [exact Hno|].
      intros Heq. apply GateFacts.differ_false in Heq. congruence.
    + split; [congruence | discriminate].
Qed.

(** X2. The schema [custom_openapi] builds has the paths of the generated
    one, in the same order, and marks with the API-key requirement exactly the
    operations of the paths on which the middleware can refuse a request:
    an operation of such a path requires ["APIKeyHeader"], an operation of
    any other path is left as generated. *)
Theorem schema_marks_guarded_paths : forall generated schema app_schema,
  Main.custom_openapi generated None = (Ok schema, app_schema) ->
  map fst (Main.paths schema) = map fst (Main.paths generated)
  /\ forall path methods method op,
       In (path, methods) (Main.paths schema) ->
       In (method, op) methods ->
       ((exists environ req,
            Main.path req = path
            /\ Main.require_api_key environ req = Main.Respond Main.UNAUTHORIZED) ->
        Main.security op = Some [Main.API_KEY_HEADER])
       /\ ((forall environ req,
              Main.path req = path ->
              Main.require_api_key environ req = Main.CallNext req) ->
           exists methods0,
             In (path, methods0) (Main.paths generated)
             /\ In (method, op) methods0).
Proof.
  intros generated schema st. unfold Main.custom_openapi.
  destruct (Main.components generated) as [sections|]; [|discriminate].
  intros H. injection H as <- _. cbn [Main.paths]. split.
  - rewrite map_map. reflexivity.
  - intros path methods method op Hp Hm.
    apply in_map_iff in Hp. destruct Hp as ([p ms] & E & Hin).
    simpl in E. injection E as -> <-.
    apply GateFacts.protect_in in Hm.
    change Main.undocumented_paths with Main.open_paths in Hm.
    destruct (existsb (String.eqb path) Main.open_paths) eqn:Eo.
    + apply GateFacts.open_iff in Eo. split.
      * intros (environ & req & <- & Hr).
        rewrite (GateFacts.open_passes environ req Eo) in Hr. discriminate Hr.
      * intros _. exists ms. auto.
    + split; [intros _; exact Hm|].
      intros Hall. exfalso.
      pose (req := {| Main.path := path; Main.headers := [] |}).
      pose (environ := [("API_KEY", "k")]).
      specialize (Hall environ req eq_refl).
      unfold Main.require_api_key in Hall. cbn [Main.path req] in Hall.
      rewrite Eo in Hall. discriminate Hall.
Qed.

(** X3. [custom_openapi] builds the schema once: after a call that returns,
    [app.openapi_schema] holds the schema and every later call returns it
    again, whatever the routes have become; a generated schema without
    ["components"] raises [KeyError] and leaves nothing stored. *)
Theorem schema_built_once : forall generated r app_schema,
  Main.custom_openapi generated None = (r, app_schema) ->
  match r with
  | Ok schema =>
      app_schema = Some schema
      /\ forall later, Main.custom_openapi later app_schema = (Ok schema, app_schema)
  | Raise e =>
      e = KeyError /\ Main.components generated = None /\ app_schema = None
  end.
Proof.
  intros generated r st. unfold Main.custom_openapi.
  destruct (Main.components generated) as [sections|]; intros H;
    injection H as <- <-; auto.
Qed.

(** Witness for X2 and X3: the sample schema. *)
Lemma schema_marks_guarded_paths_witness :
  map fst (Main.paths SAMPLE_SCHEMA) = map fst (Main.paths SAMPLE_GENERATED).
Proof.
  exact (proj1 (@schema_marks_guarded_paths SAMPLE_GENERATED SAMPLE_SCHEMA
                  (Some SAMPLE_SCHEMA) eq_refl)).
Defined.

Lemma schema_built_once_witness :
  Main.custom_openapi SAMPLE_GENERATED (Some SAMPLE_SCHEMA)
  = (Ok SAMPLE_SCHEMA, Some SAMPLE_SCHEMA).
Proof.
  exact (proj2 (@schema_built_once SAMPLE_GENERATED (Ok SAMPLE_SCHEMA)
                  (Some SAMPLE_SCHEMA) eq_refl) SAMPLE_GENERATED).
Defined.

(** ** The table and the endpoints *)

Module TableFacts.
Import Database.

Lemma largest_key_above rows m r :
  largest_key rows = Some m -> In r rows -> (id r <= m)%Z.
Proof.
  destruct rows as [|x rows]; [discriminate|]. cbn [largest_key].
  intros H. injection H as <-.
  assert (Hx : (id x <= fold_right (fun y m => Z.max (id y) m) (id x) rows)%Z).
  { induction rows as [|y rows IH]; cbn [fold_right]; lia. }
  intros [<-|Hin]; [exact Hx|]. clear Hx.
  induction rows as [|y rows IH]; cbn [fold_right In] in *; [contradiction|].
  destruct Hin as [<-|Hin]; [lia|]. specialize (IH Hin). lia.
Qed.

Lemma has_key_false i rows : has_key i rows = false -> ~ In i (map id rows).
Proof.
  unfold has_key. induction rows as [|x rows IH]; simpl; [tauto|].
  destruct (Z.eqb_spec (id x) i) as [E|E]; [discriminate|].
  intros H [E'|Hin]; [contradiction | now apply IH].
Qed.

(** A new key fits 64 bits and is the key of no row. *)
Lemma new_key_fresh rows spare key :
  new_key rows spare = Ok key ->
  is_key key = true /\ ~ In key (map id rows).
Proof.
  unfold new_key. destruct (largest_key rows) as [m|] eqn:Em.
  - destruct (is_key m && (m <? MAX_KEY)%Z) eqn:E1.
    + intros H. injection H as <-.
      apply andb_prop in E1 as [Hm Hlt]. unfold is_key in *.
      apply andb_prop in Hm as [Hlo Hhi].
      split; [apply andb_true_intro; unfold MIN_KEY, MAX_KEY in *; lia|].
      intros Hin. apply in_map_iff in Hin. destruct Hin as (r & E & Hr).
      pose proof (@largest_key_above rows m r Em Hr). lia.
    + destruct (((1 <=? spare)%Z && (spare <=? MAX_KEY)%Z)
                && negb (has_key spare rows)) eqn:E2; [|discriminate].
      intros H. injection H as <-.
      apply andb_prop in E2 as [Hr Hn]. apply andb_prop in Hr as [Hlo Hhi].
      apply negb_true_iff in Hn.
      split; [|now apply has_key_false].
      unfold is_key. apply andb_true_intro. unfold MIN_KEY, MAX_KEY in *. lia.
  - destruct rows; [|discriminate]. intros H. injection H as <-.
    split; [reflexivity | intros []].
Qed.

(** What [add] returns and leaves, by what happens in the session. *)
Lemma add_cases rows f v d t x run :
  let record key :=
    {| id := key; filename := f; vendor := v; date := d; total := t;
       extracted_text := x |} in
  match run with
  | Completes spare =>
      match new_key rows spare with
      | Ok key => add rows f v d t x run
                  = (Ok (record key), (rows ++ [record key])%list)
      | Raise e => add rows f v d t x run = (Raise e, rows)
      end
  | RaisesEarly e => add rows f v d t x run = (Raise e, rows)
  | RaisesLate spare e =>
      match new_key rows spare with
      | Ok key => add rows f v d t x run
                  = (Raise e, (rows ++ [record key])%list)
      | Raise e' => add rows f v d t x run = (Raise e', rows)
      end
  end.
Proof.
  destruct run as [spare|e|spare e]; cbn [add]; [| reflexivity |];
    destruct (new_key rows spare); reflexivity.
Qed.

(** The table after [add]: as it was, or with one row more, whose key is
    new. *)
Lemma add_table rows f v d t x run :
  snd (add rows f v d t x run) = rows
  \/ exists key spare,
       new_key rows spare = Ok key
       /\ snd (add rows f v d t x run)
          = (rows ++ [{| id := key; filename := f; vendor := v; date := d;
                         total := t; extracted_text := x |}])%list.
Proof.
  pose proof (add_cases rows f v d t x run) as H. cbv zeta in H.
  destruct run as [spare|e|spare e]; [| rewrite H; now left |];
    destruct (new_key rows spare) as [key|e'] eqn:E; rewrite H; cbn [snd];
    solve [now left | right; eauto].
Qed.


Lemma row_of_none i rows :
  row_of i rows = None <-> ~ In i (map id rows).
Proof.
  unfold row_of. induction rows as [|x rows IH]; simpl; [tauto|].
  destruct (Z.eqb_spec (id x) i) as [E|E].
  - split; [discriminate | intros H; elim H; auto].
  - rewrite IH. tauto.
Qed.

Lemma row_of_in rows r :
  NoDup (map id rows) -> In r rows -> row_of (id r) rows = Some r.
Proof.
  unfold row_of. induction rows as [|x rows IH]; simpl; [intros _ []|].
  intros Hnd [<-|Hin]; [now rewrite Z.eqb_refl|].
  inversion Hnd as [|? ? Hx Hnd']; subst.
  destruct (Z.eqb_spec (id x) (id r)) as [E|E]; [|now apply IH].
  elim Hx. rewrite E. now apply in_map.
Qed.

Lemma app_keeps_keys rows r :
  NoDup (map id rows) -> ~ In (id r) (map id rows) ->
  NoDup (map id (rows ++ [r])%list).
Proof.
  intros Hnd Hr. rewrite map_app. simpl.
  apply NoDup_app; [exact Hnd | repeat constructor; intros [] |].
  intros i Hi [<-|[]]. contradiction.
Qed.

Lemma add_keeps_keys rows f v d t x run :
  NoDup (map id rows) -> NoDup (map id (snd (add rows f v d t x run))).
Proof.
  intros Hnd.
  destruct (add_table rows f v d t x run) as [->|(key & spare & Hk & ->)];
    [exact Hnd|].
  apply app_keeps_keys; [exact Hnd|].
  apply new_key_fresh in Hk. apply Hk.
Qed.

Lemma add_keeps_range rows f v d t x run :
  (forall r, In r rows -> is_key (id r) = true) ->
  forall r, In r (snd (add rows f v d t x run)) -> is_key (id r) = true.
Proof.
  intros Hall.
  destruct (add_table rows f v d t x run) as [->|(key & spare & Hk & ->)];
    [exact Hall|].
  intros r Hin. apply in_app_or in Hin. destruct Hin as [Hin|[<-|[]]]; auto.
  apply new_key_fresh in Hk. apply Hk.
Qed.

End TableFacts.

(** ** The vendor candidates *)

Module RankFacts.
Import Main.

Lemma key_le_total a b : key_le a b = false -> key_le b a = true.
Proof.
  destruct a as [[sa ia] la], b as [[sb ib] lb]. unfold key_le.
  rewrite !orb_false_iff, !orb_true_iff, !andb_false_iff, !andb_true_iff.
  rewrite !Z.ltb_ge, !Z.ltb_lt, !Z.eqb_neq, !Z.eqb_eq, !Nat.leb_gt, !Nat.leb_le.
  lia.
Qed.

Lemma key_le_trans a b c : before a b -> before b c -> before a c.
Proof.
  destruct a as [[sa ia] la], b as [[sb ib] lb], c as [[sc ic] lc].
  unfold before, key_le.
  rewrite !orb_true_iff, !andb_true_iff.
  rewrite !Z.ltb_lt, !Z.eqb_eq, !Nat.leb_le. lia.
Qed.

Lemma key_le_score a b :
  before a b -> (fst (fst b) <= fst (fst a))%Z.
Proof.
  destruct a as [[sa ia] la], b as [[sb ib] lb]. unfold before, key_le.
  rewrite !orb_true_iff, !andb_true_iff, !Z.ltb_lt, !Z.eqb_eq. simpl. lia.
Qed.

Lemma in_insert x l y : In y (x :: l) -> In y (insert x l).
Proof.
  induction l as [|z l IH]; simpl; [tauto|].
  destruct (key_le x z); simpl; [tauto|].
  intros [H|[H|H]]; [right; apply IH; now left | now left
                    | right; apply IH; now right].
Qed.

Lemma in_sort l y : In y l -> In y (sort l).
Proof.
  induction l as [|x l IH]; simpl; [auto|].
  intros [H|H]; apply in_insert; [now left | right; auto].
Qed.

Lemma insert_sorted x l :
  StronglySorted before l -> StronglySorted before (insert x l).
Proof.
  induction 1 as [|z l Hs IH Hz]; simpl; [repeat constructor|].
  destruct (key_le x z) eqn:E.
  - constructor; [now constructor|]. constructor; [exact E|].
    rewrite Forall_forall in *. intros y Hy.
    eapply key_le_trans; [exact E | now apply Hz].
  - constructor; [exact IH|]. rewrite Forall_forall in *.
    intros y Hy. apply VendorFacts.insert_in in Hy.
    destruct Hy as [->|Hy]; [now apply key_le_total | now apply Hz].
Qed.

Lemma sort_sorted l : StronglySorted before (sort l).
Proof.
  induction l as [|x l IH]; simpl; [constructor | now apply insert_sorted].
Qed.

Lemma sorted_map (A B : Type) (R : A -> A -> Prop) (Q : B -> B -> Prop)
    (f : A -> B) l :
  (forall a b, In a l -> In b l -> R a b -> Q (f a) (f b)) ->
  StronglySorted R l -> StronglySorted Q (map f l).
Proof.
  intros Hf Hs. induction Hs as [|a l Hs IH Ha]; simpl; constructor.
  - apply IH. intros x y Hx Hy. apply Hf; now right.
  - rewrite Forall_forall in *. intros y Hy.
    apply in_map_iff in Hy. destruct Hy as (b & <- & Hb).
    apply Hf; [now left | now right | now apply Ha].
Qed.

(** A line the filter keeps is among what the loop adds. *)
Lemma collect_keeps items : forall acc cands i line,
  collect items acc = Ok cands ->
  In (i, line) items -> skipped line = Ok false ->
  In (score_of line, i, line) cands.
Proof.
  induction items as [|[j l] items IH]; intros acc cands i line Hc Hin Hs;
    [destruct Hin|].
  cbn [collect] in Hc.
  destruct (skipped l) as [[|]|] eqn:El; cbn [bind] in Hc; [| |discriminate].
  - destruct Hin as [E|Hin]; [injection E as -> ->; congruence|].
    eapply IH; eauto.
  - destruct Hin as [E|Hin]; [|eapply IH; eauto].
    injection E as -> ->.
    destruct (VendorFacts.collect_adds items
                (acc ++ [(score_of line, i, line)])%list) as (more & E & _).
    rewrite E in Hc. injection Hc as <-.
    apply in_or_app. left. apply in_or_app. right. now left.
Qed.

Lemma in_enumerate_from {A : Type} (l : list A) : forall n x,
  In x l -> exists i, In (i, x) (PyList.enumerate_from n l).
Proof.
  induction l as [|y l IH]; intros n x; simpl; [intros []|].
  intros [<-|H]; [eauto|].
  destruct (IH (S n) x H) as [i Hi]. eauto.
Qed.

Lemma stripped_nonempty text l :
  In l (stripped_lines text) -> l <> EmptyString.
Proof.
  unfold stripped_lines. rewrite in_map_iff. intros (ln & <- & Hin).
  apply filter_In in Hin. destruct Hin as [_ H].
  now apply StrFacts.nonempty_true.
Qed.

Lemma firstn_in {A : Type} (l : list A) : forall k x,
  In x (firstn k l) -> In x l.
Proof.
  induction l as [|y l IH]; intros [|k] x; simpl; try tauto.
  intros [H|H]; [now left | right; eauto].
Qed.

Lemma slice_to_in {A : Type} n (l : list A) x :
  In x (PyList.slice_to n l) -> In x l.
Proof.
  unfold PyList.slice_to. destruct (0 <=? n)%Z; apply firstn_in.
Qed.

(** What [extract_vendor] returns, on every text. *)
Lemma extract_vendor_shape text n :
  let lines := stripped_lines (clean_ocr_text text) in
  exists chosen cands,
    extract_vendor text n = Ok (chosen, cands)
    /\ (forall c, In c cands <->
                  In c (PyList.slice_to n lines) /\ skipped c = Ok false)
    /\ StronglySorted (fun a b => (score_of b <= score_of a)%Z) cands
    /\ match cands with
       | c :: _ => chosen = c
       | [] => match lines with
               | l :: _ => chosen = l
               | [] => chosen = UNKNOWN
               end
       end.
Proof.
  intros lines. unfold extract_vendor. fold lines.
  set (items := PyList.enumerate (PyList.slice_to n lines)).
  destruct (VendorFacts.collect_adds items []) as (cands & Hc & Hfrom & _).
  simpl in Hc. rewrite Hc. cbn [bind].
  assert (Hin : forall c, In c (map line_of cands) <->
                  In c (PyList.slice_to n lines) /\ skipped c = Ok false).
  { intros c. split.
    - intros H. apply in_map_iff in H. destruct H as (x & <- & Hx).
      destruct (Hfrom x Hx) as (i & line & -> & Hi & Hs).
      apply VendorFacts.enumerate_from_ge in Hi. simpl. tauto.
    - intros [Hl Hs]. destruct (in_enumerate_from _ 0 _ Hl) as [i Hi].
      apply in_map_iff. exists (score_of c, i, c). split; [reflexivity|].
      eapply collect_keeps; eauto. }
  destruct cands as [|c0 cs].
  - destruct lines as [|l ls] eqn:El; eexists _, _;
      (split; [reflexivity|]); (split; [exact Hin|]);
      (split; [constructor | reflexivity]).
  - set (cands := c0 :: cs) in *.
    assert (Hperm : forall c, In c (map line_of (sort cands)) <->
                      In c (map line_of cands)).
    { intros c. rewrite !in_map_iff. split; intros (x & E & Hx); exists x;
        (split; [exact E|]); [now apply VendorFacts.sort_in | now apply in_sort]. }
    assert (Hsorted : StronglySorted (fun a b => (score_of b <= score_of a)%Z)
                        (map line_of (sort cands))).
    { apply sorted_map with (R := before); [|apply sort_sorted].
      intros a b Ha Hb Hab. apply VendorFacts.sort_in in Ha, Hb.
      destruct (Hfrom a Ha) as (i & la & -> & _).
      destruct (Hfrom b Hb) as (j & lb & -> & _).
      apply key_le_score in Hab. exact Hab. }
    destruct (sort cands) as [|s0 ss] eqn:Es.
    { exfalso. assert (H : In c0 (sort cands)) by (apply in_sort; now left).
      rewrite Es in H. destruct H. }
    cbn [PyList.first bind]. eexists _, _. split; [reflexivity|].
    split; [intros c; rewrite Hperm; apply Hin|].
    split; [exact Hsorted | reflexivity].
Qed.

End RankFacts.

(** X4. [extract_vendor] returns on every text and for every [top_n_lines];
    the vendor it chooses is never the empty string; its candidates are the
    lines, among the first [top_n_lines] non-blank ones, that the filter
    keeps, and they are listed by falling score; with candidates the chosen
    vendor is the first of them, without, the first non-blank line or
    "Unknown". *)
Theorem vendor_candidates_ranked : forall text top_n_lines,
  let lines := Main.stripped_lines (Main.clean_ocr_text text) in
  exists chosen cands,
    Main.extract_vendor text top_n_lines = Ok (chosen, cands)
    /\ chosen <> EmptyString
    /\ (forall c, In c cands <->
                  In c (PyList.slice_to top_n_lines lines)
                  /\ Main.skipped c = Ok false)
    /\ StronglySorted (fun a b => (Main.score_of b <= Main.score_of a)%Z) cands
    /\ match cands with
       | c :: _ => chosen = c
       | [] => match lines with
               | l :: _ => chosen = l
               | [] => chosen = Main.UNKNOWN
               end
       end.
Proof.
  intros text n lines.
  destruct (RankFacts.extract_vendor_shape text n)
    as (chosen & cands & H & Hin & Hs & Hc).
  fold lines in Hin, Hc.
  exists chosen, cands. split; [exact H|]. split; [|auto].
  destruct cands as [|c cs].
  - destruct lines as [|l ls] eqn:El; subst chosen; [discriminate|].
    apply (RankFacts.stripped_nonempty (Main.clean_ocr_text text)).
    fold lines. rewrite El. now left.
  - subst chosen.
    apply (RankFacts.stripped_nonempty (Main.clean_ocr_text text)).
    apply (RankFacts.slice_to_in n). apply Hin. now left.
Qed.

(** ** [/parse] and the table *)

Module ServeFacts.
Import Main.

Lemma strip_page_markers_returns text :
  exists t, strip_page_markers text = Ok t.
Proof.
  unfold strip_page_markers, re_sub.
  destruct (ReParse.compile _) as [r|] eqn:E; [cbn [bind]; eauto|].
  vm_compute in E. discriminate E.
Qed.

Lemma extract_date_returns text : exists d, extract_date text = Ok d.
Proof.
  destruct (StrptimeFacts.try_patterns_cases (clean_text_for_dates text)
              date_patterns) as (d & H & _); [vm_compute; reflexivity|].
  exists d. exact H.
Qed.

(** The handler answers 500 with what the OCR raised, and otherwise hands
    to the session what the extractors give on the text without its page
    markers: the extraction itself does not raise. *)
Lemma parse_document_cases file_name size pdf_pages image_text run db :
  match ocr_text file_name pdf_pages image_text with
  | Raise e =>
      parse_document file_name size pdf_pages image_text run db
      = (Failed 500 e, db)
  | Ok raw =>
      exists text p,
        strip_page_markers raw = Ok text
        /\ extract_vendor text 8 = Ok (p_vendor p, vendor_candidates p)
        /\ extract_date text = Ok (p_date p)
        /\ extract_total text 80 = Ok (p_total p, total_candidates p)
        /\ p_filename p = file_name /\ size_bytes p = size
        /\ p_extracted_text p = Str.strip text
        /\ parse_document file_name size pdf_pages image_text run db
           = match Database.add db file_name (p_vendor p) (p_date p)
                                (p_total p) (p_extracted_text p) run with
             | (Ok _, db') => (Parsed p, db')
             | (Raise e, db') => (Failed 500 e, db')
             end
  end.
Proof.
  unfold parse_document, ocr_text.
  set (source := if Str.endswith ".pdf" (Str.lower file_name) then _ else _).
  destruct source as [raw|e]; cbn [bind]; [|reflexivity].
  destruct (strip_page_markers_returns raw) as [text Ht]. rewrite Ht.
  cbn [bind].
  destruct (RankFacts.extract_vendor_shape text 8) as (v & vc & Hv & _).
  destruct (extract_date_returns text) as [d Hd].
  destruct (TotalFacts.extract_total_cases text) as (t & tc & Htot & _).
  rewrite Hv, Hd, Htot. cbn [bind].
  exists text,
    {| p_filename := file_name; size_bytes := size; p_vendor := v;
       vendor_candidates := vc; p_date := d; p_total := t;
       total_candidates := tc; p_extracted_text := Str.strip text |}.
  cbn [p_filename size_bytes p_vendor vendor_candidates p_date p_total
       total_candidates p_extracted_text].
  repeat split; assumption.
Qed.


(** Every parse leaves a table that SQLite can hold. *)
Lemma parse_keeps_keys file_name size pdf_pages image_text run db a db' :
  parse_document file_name size pdf_pages image_text run db = (a, db') ->
  well_keyed db -> well_keyed db'.
Proof.
  intros H [Hd Hr].
  pose proof (parse_document_cases file_name size pdf_pages image_text run db)
    as Hc.
  destruct (ocr_text file_name pdf_pages image_text) as [raw|e].
  - destruct Hc as (text & p & _ & _ & _ & _ & _ & _ & _ & Hp).
    rewrite Hp in H. clear Hp.
    pose proof (@TableFacts.add_keeps_keys db file_name (p_vendor p) (p_date p)
                  (p_total p) (p_extracted_text p) run Hd) as Hd'.
    pose proof (@TableFacts.add_keeps_range db file_name (p_vendor p) (p_date p)
                  (p_total p) (p_extracted_text p) run Hr) as Hr'.
    destruct (Database.add db file_name (p_vendor p) (p_date p) (p_total p)
                (p_extracted_text p) run) as [[r|e] db1];
      injection H as _ <-; split; assumption.
  - rewrite Hc in H. injection H as _ <-. split; assumption.
Qed.

End ServeFacts.

(** X5. [/parse] answers 500 exactly when the OCR raised or the session
    that stores the row did, with that exception: the extraction itself
    never fails. When the OCR raised, when the session raised before the
    commit and when no key was left, the table is as it was; when the
    session raised after the commit, the row is stored although the answer
    is 500. Otherwise the answer holds what [extract_vendor], [extract_date]
    and [extract_total] give, with their default parameters, on the OCR text
    without its page markers, and one row with the same values is added at
    the end of the table. The key of a stored row fits 64 bits and is the
    key of no other row: 1 in an empty table, else one more than the
    largest key as long as that is a key. *)
Theorem parse_document_outcomes :
  forall file_name size pdf_pages image_text run db,
    match ocr_text file_name pdf_pages image_text with
    | Raise e =>
        Main.parse_document file_name size pdf_pages image_text run db
        = (Main.Failed 500 e, db)
    | Ok raw =>
        exists text p,
          Main.strip_page_markers raw = Ok text
          /\ Main.extract_vendor text 8
             = Ok (Main.p_vendor p, Main.vendor_candidates p)
          /\ Main.extract_date text = Ok (Main.p_date p)
          /\ Main.extract_total text 80
             = Ok (Main.p_total p, Main.total_candidates p)
          /\ Main.p_filename p = file_name /\ Main.size_bytes p = size
          /\ Main.p_extracted_text p = Str.strip text
          /\ let record key :=
               {| Database.id := key;
                  Database.filename := file_name;
                  Database.vendor := Main.p_vendor p;
                  Database.date := Main.p_date p;
                  Database.total := Main.p_total p;
                  Database.extracted_text := Main.p_extracted_text p |} in
             let answer := Main.parse_document file_name size pdf_pages
                                               image_text run db in
             match run with
             | Database.Completes spare =>
                 match Database.new_key db spare with
                 | Ok key =>
                     answer = (Main.Parsed p, (db ++ [record key])%list)
                 | Raise e => answer = (Main.Failed 500 e, db)
                 end
             | Database.RaisesEarly e => answer = (Main.Failed 500 e, db)
             | Database.RaisesLate spare e =>
                 match Database.new_key db spare with
                 | Ok key =>
                     answer = (Main.Failed 500 e, (db ++ [record key])%list)
                 | Raise e' => answer = (Main.Failed 500 e', db)
                 end
             end
    end
    /\ (forall spare key,
          Database.new_key db spare = Ok key ->
          Database.is_key key = true /\ ~ In key (map Database.id db))
    /\ (forall spare, Database.new_key [] spare = Ok 1%Z)
    /\ (forall spare m,
          Database.largest_key db = Some m ->
          Database.is_key m = true -> (m < Database.MAX_KEY)%Z ->
          Database.new_key db spare = Ok (m + 1)%Z).
Proof.
  intros file_name size pdf_pages image_text run db. split; [|split; [|split]].
  - pose proof (ServeFacts.parse_document_cases file_name size pdf_pages
                  image_text run db) as Hc.
    destruct (ocr_text file_name pdf_pages image_text) as [raw|e];
      [|exact Hc].
    destruct Hc as (text & p & Ht & Hv & Hd & Htot & Hf & Hs & Hx & Hp).
    exists text, p. repeat (split; [assumption|]). cbv zeta.
    rewrite Hp. clear Hp.
    pose proof (TableFacts.add_cases db file_name (Main.p_vendor p)
                  (Main.p_date p) (Main.p_total p) (Main.p_extracted_text p)
                  run) as Ha.
    cbv zeta in Ha.
    destruct run as [spare|e|spare e]; [| now rewrite Ha |];
      destruct (Database.new_key db spare); now rewrite Ha.
  - intros spare key. apply TableFacts.new_key_fresh.
  - reflexivity.
  - intros spare m Hm Hk Hlt. unfold Database.new_key. rewrite Hm, Hk.
    apply Z.ltb_lt in Hlt. now rewrite Hlt.
Qed.



(** X7. On a table as SQLite holds it (the keys differ and fit 64 bits),
    [/invoices] and [/invoices/{id}] agree: there is one entry per row;
    each entry's key is answered with a row that has the entry's values; a
    key of 64 bits gets 404 exactly when no entry has it; and a key outside
    the 64 bits is not answered, the query raising [OverflowError], whatever
    the table. The empty table is of this kind, and every parse leaves such
    a table. *)
Theorem listing_matches_rows : forall db,
  well_keyed db ->
  List.length (Main.get_invoices db) = List.length db
  /\ (forall entry, In entry (Main.get_invoices db) ->
        exists r, Main.get_invoice db (Main.l_id entry) = Ok (inr r)
                  /\ same_invoice entry r)
  /\ (forall i, Database.is_key i = true ->
        (Main.get_invoice db i = Ok (inl Main.NOT_FOUND_404) <->
         ~ In i (map Main.l_id (Main.get_invoices db))))
  /\ (forall i, Database.is_key i = false ->
        Main.get_invoice db i = Raise OverflowError)
  /\ (forall i, Database.is_key i = true <->
        (- 2 ^ 63 <= i <= 2 ^ 63 - 1)%Z)
  /\ well_keyed []
  /\ (forall file_name size pdf_pages image_text run a db',
        Main.parse_document file_name size pdf_pages image_text run db
        = (a, db') ->
        well_keyed db').
Proof.
  intros db [Hd Hr]. unfold Main.get_invoices. split; [apply length_map|].
  split; [|split; [|split; [|split; [|split]]]].
  - intros entry Hin. apply in_map_iff in Hin. destruct Hin as (r & <- & Hin).
    exists r. cbn [Main.l_id]. unfold Main.get_invoice, Database.first_by_id.
    rewrite (Hr r Hin). cbn [bind].
    rewrite (@TableFacts.row_of_in db r Hd Hin). split; [reflexivity|].
    repeat split.
  - intros i Hi. rewrite map_map. cbn [Main.l_id].
    rewrite <- TableFacts.row_of_none.
    unfold Main.get_invoice, Database.first_by_id. rewrite Hi. cbn [bind].
    destruct (Database.row_of i db); split; congruence.
  - intros i Hi. unfold Main.get_invoice, Database.first_by_id.
    now rewrite Hi.
  - intros i. unfold Database.is_key, Database.MIN_KEY, Database.MAX_KEY.
    rewrite andb_true_iff, !Z.leb_le.
    change (2 ^ 63)%Z with 9223372036854775808%Z. lia.
  - split; [constructor | intros r []].
  - intros file_name size pdf_pages image_text run a db' H.
    eapply ServeFacts.parse_keeps_keys; [exact H | now split].
Qed.

(** Witness for X7: a table of two rows. *)
Lemma listing_matches_rows_witness :
  List.length
    (Main.get_invoices
       [ {| Database.id := 1; Database.filename := "a.pdf";
            Database.vendor := "Acme Corp LLC"; Database.date := "2014-05-01";
            Database.total := "123.45"; Database.extracted_text := "" |};
         {| Database.id := 2; Database.filename := "b.png";
            Database.vendor := "Unknown"; Database.date := "Not found";
            Database.total := "Not found"; Database.extracted_text := "" |} ])
  = 2.
Proof.
  refine (proj1 (@listing_matches_rows _ _)).
  split.
  - unfold keys_differ. simpl. repeat constructor; simpl; intuition discriminate.
  - intros r Hin. simpl in Hin. destruct Hin as [<-|[<-|[]]]; reflexivity.
Defined.

(** ** Dates *)

Module DateMore.
Import DateTime.

(** The date loop returns the sentinel or the rendering of a valid date. *)
Lemma try_patterns_valid text patterns :
  List.forallb compiles patterns = true ->
  try_patterns text patterns = Ok NOT_FOUND
  \/ exists d, valid d = true /\ try_patterns text patterns = Ok (strftime_iso d).
Proof.
  induction patterns as [|p ps IH]; intros H; [now left|].
  simpl in H. apply andb_prop in H as [Hp H]. specialize (IH H).
  cbn [try_patterns]. unfold re_search, compiles in *.
  destruct (ReParse.compile p) as [r|]; [|discriminate]. cbn [bind].
  destruct (Re.search Re.IGNORECASE r text) as [m|]; [|exact IH].
  destruct (StrptimeFacts.try_formats_cases (Re.group0 m) possible_formats
              StrptimeFacts.possible_formats_ok)
    as [Hn|(d & Hd & Hv)]; [rewrite Hn | rewrite Hd]; cbn [bind]; [exact IH|].
  right. exists d. auto.
Qed.

Lemma replace_one old new s :
  Str.replace old (String new EmptyString) s
  = map_chars (fun c => if Ascii.eqb c old then new else c) s.
Proof.
  induction s as [|c s IH]; simpl; [reflexivity|].
  rewrite IH. destruct (Ascii.eqb c old); reflexivity.
Qed.

Lemma map_chars_compose f g s :
  map_chars f (map_chars g s) = map_chars (fun c => f (g c)) s.
Proof. induction s as [|c s IH]; simpl; [|rewrite IH]; reflexivity. Qed.

Lemma map_chars_ext f g s :
  (forall c, f c = g c) -> map_chars f s = map_chars g s.
Proof.
  intros H. induction s as [|c s IH]; simpl; [|rewrite IH, H]; reflexivity.
Qed.

Lemma clean_is_ocr_fix text :
  clean_text_for_dates text = map_chars ocr_fix text.
Proof.
  unfold clean_text_for_dates. rewrite !replace_one, !map_chars_compose.
  apply map_chars_ext. intros c. unfold ocr_fix.
  destruct (Ascii.eqb_spec c "I") as [->|_]; [reflexivity|].
  destruct (Ascii.eqb_spec c "l") as [->|_]; reflexivity.
Qed.

Lemma ocr_fix_idem c : ocr_fix (ocr_fix c) = ocr_fix c.
Proof.
  unfold ocr_fix.
  destruct (Ascii.eqb_spec c "I") as [->|HI]; [reflexivity|].
  destruct (Ascii.eqb_spec c "l") as [->|Hl]; [reflexivity|].
  destruct (Ascii.eqb_spec c "O") as [->|HO]; [reflexivity|].
  apply Ascii.eqb_neq in HI, Hl, HO. now rewrite HI, Hl, HO.
Qed.

Lemma ocr_fix_clear c : confusable (ocr_fix c) = false.
Proof.
  unfold ocr_fix, confusable.
  destruct (Ascii.eqb_spec c "I") as [->|HI]; [reflexivity|].
  destruct (Ascii.eqb_spec c "l") as [->|Hl]; [reflexivity|].
  destruct (Ascii.eqb_spec c "O") as [->|HO]; [reflexivity|].
  apply Ascii.eqb_neq in HI, Hl, HO. now rewrite HI, Hl, HO.
Qed.

Lemma clean_idem text :
  clean_text_for_dates (clean_text_for_dates text) = clean_text_for_dates text.
Proof.
  rewrite !clean_is_ocr_fix, map_chars_compose.
  apply map_chars_ext, ocr_fix_idem.
Qed.

Lemma clean_clear text :
  Str.forallb (fun c => negb (confusable c)) (clean_text_for_dates text) = true.
Proof.
  rewrite clean_is_ocr_fix. induction text as [|c s IH]; simpl; [reflexivity|].
  now rewrite ocr_fix_clear, IH.
Qed.

Lemma clean_length text :
  String.length (clean_text_for_dates text) = String.length text.
Proof.
  rewrite clean_is_ocr_fix. induction text as [|c s IH]; simpl; congruence.
Qed.

End DateMore.

(** X8. A date that either extractor returns is a date of the calendar: the
    rendering Y-MM-DD (the year printed without padding, the month and the
    day with two digits) of a year from 1 to 9999, a month from 1 to 12 and
    a day that this month has in this year (29 February only in a leap
    year). So "12/25/0800" gives "800-12-25", and "2/29/2023" gives no
    date. *)
Theorem extracted_date_is_on_calendar : forall text,
  (Main.extract_date text = Ok NOT_FOUND
   \/ exists d, DateTime.valid d = true
                /\ Main.extract_date text = Ok (DateTime.strftime_iso d))
  /\ (BatchProcessor.extract_date text = Ok NOT_FOUND
      \/ exists d, DateTime.valid d = true
                   /\ BatchProcessor.extract_date text
                      = Ok (DateTime.strftime_iso d))
  /\ (forall d, DateTime.valid d = true ->
        DateTime.strftime_iso d
        = (Num.dec (DateTime.year d) ++ "-" ++ Num.pad 2 (DateTime.month d)
           ++ "-" ++ Num.pad 2 (DateTime.day d))%string
        /\ dated (DateTime.strftime_iso d)
        /\ (1 <= DateTime.year d <= 9999)%Z
        /\ (1 <= DateTime.month d <= 12)%Z
        /\ (1 <= DateTime.day d
            <= DateTime.days_in_month (DateTime.year d) (DateTime.month d))%Z)
  /\ Main.extract_date "12/25/0800" = Ok "800-12-25"
  /\ BatchProcessor.extract_date "12/25/0800" = Ok "800-12-25"
  /\ Main.extract_date "2/29/2023" = Ok NOT_FOUND
  /\ Main.extract_date "2/29/2024" = Ok "2024-02-29".
Proof.
  intros text.
  split; [apply DateMore.try_patterns_valid; vm_compute; reflexivity|].
  split; [apply DateMore.try_patterns_valid; vm_compute; reflexivity|].
  split; [|repeat split; vm_compute; reflexivity].
  intros d Hv. split; [reflexivity|].
  split; [now apply DateFacts.strftime_iso_dated|].
  unfold DateTime.valid in Hv.
  repeat (apply andb_prop in Hv as [Hv ?]). lia.
Qed.

(** X9. The date extractor reads the text with every "I" and "l" turned
    into "1" and every "O" into "0": the text searched has the length of
    the input and none of these three letters, and a text that already went
    through the correction gives the same date. So a month written with one
    of these letters is not found ("July", "Oct"), while its other
    spellings are ("JULY", "oct"). *)
Theorem dates_are_read_after_correction : forall text,
  Main.extract_date (clean_text_for_dates text) = Main.extract_date text
  /\ String.length (clean_text_for_dates text) = String.length text
  /\ Str.forallb (fun c => negb (confusable c)) (clean_text_for_dates text) = true
  /\ Main.extract_date "July 4, 2014" = Ok NOT_FOUND
  /\ Main.extract_date "JULY 4, 2014" = Ok "2014-07-04"
  /\ Main.extract_date "Oct 5, 2014" = Ok NOT_FOUND
  /\ Main.extract_date "oct 5, 2014" = Ok "2014-10-05".
Proof.
  intros text. split.
  { unfold Main.extract_date. now rewrite DateMore.clean_idem. }
  split; [apply DateMore.clean_length|].
  split; [apply DateMore.clean_clear|].
  repeat split; vm_compute; reflexivity.
Qed.

(** ** Totals and amounts *)

Module TotalMore.
Import Main.

Lemma none_parse tokens :
  parsed_list_of tokens = Ok [] ->
  forall t, In t tokens -> parse_amount_to_float t = Ok None.
Proof.
  intros H t Ht. destruct (AmountFacts.parse_amount_returns t) as [[x|] Hx];
    [|exact Hx].
  exfalso. apply (proj2 (KeepFacts.parsed_list_in tokens H x)). eauto.
Qed.

(** The fallback chooses the rendering of a value one of its tokens has, or
    the sentinel when no token has one. *)
Lemma fallback_source text dbg chosen cands :
  fallback text dbg = Ok (chosen, cands) ->
  exists tokens,
    cands = (dbg ++ tokens)%list
    /\ ((chosen = NOT_FOUND
         /\ forall t, In t tokens -> parse_amount_to_float t = Ok None)
        \/ exists t x, In t tokens /\ parse_amount_to_float t = Ok (Some x)
                       /\ chosen = Float.format_2f x).
Proof.
  unfold fallback, re_findall.
  destruct TotalFacts.money_compiles as (money & -> & _). cbn [bind].
  set (tokens := Re.findall Re.NOFLAGS money text).
  destruct (AmountFacts.parsed_list_returns tokens) as [vals Hv].
  intros H. exists tokens.
  destruct tokens as [|t ts] eqn:Et.
  - injection H as <- <-. split; [reflexivity|]. left. split; [reflexivity|].
    intros t [].
  - rewrite Hv in H. cbn [bind] in H. destruct vals as [|v vs].
    + injection H as <- <-. split; [reflexivity|]. left.
      split; [reflexivity | exact (none_parse _ Hv)].
    + destruct (Float.max (v :: vs)) as [best|] eqn:Em; [|discriminate].
      cbn [bind] in H. injection H as <- <-. split; [reflexivity|]. right.
      apply AmountFacts.max_in in Em.
      apply (KeepFacts.parsed_list_in _ Hv) in Em.
      destruct Em as (u & Hu & Hp). eauto.
Qed.

End TotalMore.

(** X10. Whatever the gap, a total that [extract_total] chooses is the
    two-decimal rendering of the value [parse_amount_to_float] gives to one
    of the candidates it returns; and it answers "Not found" only when none
    of its candidates has a value. *)
Theorem chosen_total_comes_from_a_candidate :
  forall text gap_max_chars chosen cands,
    Main.extract_total text gap_max_chars = Ok (chosen, cands) ->
    (chosen = NOT_FOUND
     /\ forall c, In c cands -> Main.parse_amount_to_float c = Ok None)
    \/ exists c x,
         In c cands
         /\ Main.parse_amount_to_float c = Ok (Some x)
         /\ chosen = Float.format_2f x.
Proof.
  intros text gap chosen cands. unfold Main.extract_total.
  destruct (re_search _ _ _) as [[m|]|]; cbn [bind]; [| |discriminate].
  - destruct (Re.group 1 m) as [amt|]; cbn [bind]; [|discriminate].
    destruct (Main.parse_amount_to_float amt) as [[x|]|] eqn:Ea; cbn [bind];
      [| |discriminate].
    + intros H. injection H as <- <-. right. exists amt, x.
      split; [now left | auto].
    + intros H. apply TotalMore.fallback_source in H.
      destruct H as (tokens & -> & [[-> Hnone]|(t & x & Ht & Hp & ->)]).
      * left. split; [reflexivity|]. intros c [<-|Hc]; [exact Ea | auto].
      * right. exists t, x. split; [now right | auto].
  - intros H. apply TotalMore.fallback_source in H.
    destruct H as (tokens & -> & [[-> Hnone]|(t & x & Ht & Hp & ->)]).
    + left. split; [reflexivity | exact Hnone].
    + right. exists t, x. auto.
Qed.

(** Witness for X10: a labelled total. *)
Lemma chosen_total_comes_from_a_candidate_witness :
  (("123.45" = NOT_FOUND
    /\ forall c, In c ["123.45"] -> Main.parse_amount_to_float c = Ok None)
   \/ exists c x,
        In c ["123.45"]
        /\ Main.parse_amount_to_float c = Ok (Some x)
        /\ "123.45" = Float.format_2f x).
Proof.
  apply (@chosen_total_comes_from_a_candidate "Total due: $123.45" 80).
  vm_compute. reflexivity.
Defined.

Module AmountMore.
Import Main Re.

Lemma cleaner_accepts c :
  accepts NOFLAGS CLEANER c = negb (amount_char c).
Proof.
  unfold accepts, CLEANER, in_items, amount_char. cbn [ignorecase NOFLAGS andb].
  rewrite orb_false_r. cbn [existsb item_matches].
  rewrite orb_false_r, !(Ascii.eqb_sym c), !orb_assoc. reflexivity.
Qed.

(** [re.sub(r'[^\d,.\-]', '', s)] keeps the amount characters of [s]. *)
Lemma cleaner_sub s : forall p i,
  sub_go NOFLAGS CLEANER "" p i s 0 = amount_chars s.
Proof.
  induction s as [|a s IH]; intros p i; [reflexivity|].
  cbn [sub_go amount_chars]. unfold match_here, CLEANER at 1.
  cbn [rmatch one_char rest pos]. rewrite cleaner_accepts.
  destruct (amount_char a); cbn [negb].
  - rewrite IH. reflexivity.
  - cbn [pos]. replace (S i - i) with 1 by lia. cbn [append]. apply IH.
Qed.

Lemma space_is_dropped c : Chars.isspace c = true -> amount_char c = false.
Proof.
  destruct c as [[] [] [] [] [] [] [] []]; vm_compute; congruence.
Qed.

Lemma amount_chars_lstrip s : amount_chars (Str.lstrip s) = amount_chars s.
Proof.
  induction s as [|c s IH]; simpl; [reflexivity|].
  destruct (Chars.isspace c) eqn:E; [|reflexivity].
  now rewrite (space_is_dropped c E).
Qed.

Lemma amount_chars_rstrip s : amount_chars (Str.rstrip s) = amount_chars s.
Proof.
  induction s as [|c s IH]; [reflexivity|].
  cbn [Str.rstrip amount_chars]. rewrite <- IH.
  destruct (Str.rstrip s) as [|d r]; [|reflexivity].
  destruct (Chars.isspace c) eqn:E; [|reflexivity].
  now rewrite (space_is_dropped c E).
Qed.

Lemma amount_chars_strip s : amount_chars (Str.strip s) = amount_chars s.
Proof. unfold Str.strip. now rewrite amount_chars_rstrip, amount_chars_lstrip. Qed.

Lemma amount_chars_idem s : amount_chars (amount_chars s) = amount_chars s.
Proof.
  induction s as [|c s IH]; simpl; [reflexivity|].
  destruct (amount_char c) eqn:E; simpl; [rewrite E, IH|]; auto.
Qed.

(** The value of a non-empty string is decided by its amount characters. *)
Lemma parse_by_amount_chars s :
  s <> EmptyString ->
  parse_amount_to_float s
  = (let t := amount_chars s in
     if String.eqb t "" then Ok None
     else
       u <- (if Nat.ltb 0 (Str.count "," t) && Nat.ltb 0 (Str.count "." t) then
               if (Str.rfind "." t <? Str.rfind "," t)%Z
               then Ok (Str.replace "," "." (Str.replace "." "" t))
               else Ok (Str.replace "," "" t)
             else if Nat.ltb 0 (Str.count "," t) && Nat.eqb (Str.count "." t) 0 then
               tail <- PyList.last (Str.split "," t) ;;
               if Nat.eqb (String.length tail) 2
               then Ok (Str.replace "," "." t)
               else Ok (Str.replace "," "" t)
             else Ok t) ;;
       match Float.of_str u with
       | Ok x => Ok (Some x)
       | Raise _ => Ok None
       end).
Proof.
  intros Hs. unfold parse_amount_to_float, re_sub.
  rewrite AmountFacts.cleaner_compiles. cbn [bind].
  destruct s as [|c s]; [now elim Hs|]. cbn [Str.nonempty negb].
  unfold sub. rewrite cleaner_sub, amount_chars_strip. reflexivity.
Qed.

End AmountMore.

(** X11. [parse_amount_to_float] reads nothing of its argument but the
    digits, commas, periods and minus signs: two non-empty strings with the
    same such characters in the same order get the same result, so
    currency signs, letters and blanks in a token change nothing; and a
    string without any of them has no value. *)
Theorem amount_depends_on_amount_chars : forall s s',
  s <> EmptyString -> s' <> EmptyString ->
  (amount_chars s = amount_chars s' ->
   Main.parse_amount_to_float s = Main.parse_amount_to_float s')
  /\ (amount_chars s = EmptyString -> Main.parse_amount_to_float s = Ok None)
  /\ (amount_chars s <> EmptyString ->
      Main.parse_amount_to_float (amount_chars s) = Main.parse_amount_to_float s).
Proof.
  intros s s' Hs Hs'. split; [|split].
  - intros E. rewrite !AmountMore.parse_by_amount_chars by assumption.
    now rewrite E.
  - intros E. rewrite AmountMore.parse_by_amount_chars by assumption.
    now rewrite E.
  - intros Hne. rewrite !AmountMore.parse_by_amount_chars by assumption.
    now rewrite AmountMore.amount_chars_idem.
Qed.

(** Witness for X11: a token with a currency code and blanks. *)
Lemma amount_depends_on_amount_chars_witness :
  Main.parse_amount_to_float " USD 1,234.56 " = Main.parse_amount_to_float "$1,234.56".
Proof.
  refine (proj1 (@amount_depends_on_amount_chars " USD 1,234.56 " "$1,234.56"
                   _ _) _); [discriminate | discriminate | reflexivity].
Defined.

(** ** The batch script *)

Module BatchFacts.
Import Re ReSem ReFacts.

(** Group 1 of a pattern that ends with it is set by every match, and holds
    only characters its body reads. *)
Lemma group1_reads fl A kw gap body text m :
  reads_only fl A body = true ->
  search fl (Cat kw (Cat gap (Group 1 body))) text = Some m ->
  exists amt, group 1 m = Ok amt /\ Str.forallb A amt = true.
Proof.
  intros Hro Hs. apply search_sound in Hs.
  destruct Hs as (Ht & c & c' & Hc & Hm & _ & _).
  apply TotalFacts.Matches_cat_inv in Hm. destruct Hm as (c1 & g1 & Hkw & Hm).
  apply TotalFacts.Matches_cat_inv in Hm. destruct Hm as (c2 & g2 & Hgap & Hm).
  apply TotalFacts.Matches_group_inv in Hm. destruct Hm as (g3 & Hbody & Hcaps).
  pose proof (TotalFacts.Matches_cursor Hc Hkw) as Hc1.
  pose proof (TotalFacts.Matches_cursor Hc1 Hgap) as Hc2.
  unfold group. rewrite Hcaps. simpl. rewrite Ht.
  eexists. split; [reflexivity|].
  exact (proj1 (Matches_slice A Hc2 Hbody Hro)).
Qed.

Lemma batch_total_compiles :
  exists kw gap body,
    ReParse.compile BatchProcessor.total_pattern
    = Ok (Cat kw (Cat gap (Group 1 body)))
    /\ reads_only IGNORECASE figure_char body = true.
Proof.
  eexists _, _, _. split; [vm_compute; reflexivity|]. vm_compute. reflexivity.
Qed.

Lemma batch_money_compiles :
  exists money,
    ReParse.compile BatchProcessor.money_pattern = Ok money
    /\ reads_only NOFLAGS money_char money = true.
Proof.
  eexists. split; [vm_compute; reflexivity|]. vm_compute. reflexivity.
Qed.

Lemma figure_is_money s :
  Str.forallb figure_char s = true -> Str.forallb money_char s = true.
Proof.
  induction s as [|c s IH]; simpl; [reflexivity|]. intros H.
  apply andb_prop in H as [Hc Hs]. rewrite (IH Hs), andb_true_r.
  unfold figure_char in Hc. unfold money_char. now rewrite Hc.
Qed.

Lemma last_in {A : Type} (l : list A) x : PyList.last l = Ok x -> In x l.
Proof.
  induction l as [|y l IH]; [discriminate|].
  destruct l as [|z l]; [intros H; injection H as <-; now left|].
  intros H. right. apply IH. exact H.
Qed.

Lemma last_app {A : Type} (l : list A) x :
  PyList.last l = Ok x -> exists init, l = (init ++ [x])%list.
Proof.
  induction l as [|y l IH]; [discriminate|].
  destruct l as [|z l]; [intros H; injection H as <-; now exists []|].
  intros H. destruct (IH H) as [init ->]. now exists (y :: init).
Qed.

(** A substring is a piece of the string. *)
Lemma substring_head n : forall s,
  exists after, s = (String.substring 0 n s ++ after)%string.
Proof.
  induction n as [|n IH]; intros s; [exists s; now destruct s|].
  destruct s as [|c s]; [now exists EmptyString|].
  destruct (IH s) as [after E]. exists after. simpl. now rewrite <- E.
Qed.

Lemma substring_piece s : forall i n, piece_of (String.substring i n s) s.
Proof.
  induction s as [|c s IH]; intros i n.
  - exists EmptyString, EmptyString. destruct i, n; reflexivity.
  - destruct i as [|i].
    + destruct (substring_head n (String c s)) as [after E].
      exists EmptyString, after. exact E.
    + destruct (IH i n) as (before & after & E).
      exists (String c before), after. simpl. now rewrite <- E.
Qed.

Lemma group_piece n text fl r m t :
  search fl r text = Some m -> group n m = Ok t -> piece_of t text.
Proof.
  intros Hs. apply search_sound in Hs. destruct Hs as [Ht _].
  unfold group. destruct (lookup n (m_caps m)) as [[i j]|]; [|discriminate].
  intros H. injection H as <-. rewrite Ht. apply substring_piece.
Qed.

Lemma findall_pieces fl r text t :
  In t (findall fl r text) -> piece_of t text.
Proof.
  unfold findall. intros H. apply in_map_iff in H.
  destruct H as ([i j] & <- & _). apply substring_piece.
Qed.

(** The batch script's [extract_total], by what its two patterns find. *)
Lemma batch_total_cases text :
  exists t,
    BatchProcessor.extract_total text = Ok t
    /\ (t = NOT_FOUND
        \/ Str.forallb money_char t = true /\ piece_of t text)
    /\ match re_search BatchProcessor.total_pattern text IGNORECASE with
       | Ok (Some m) =>
           group 1 m = Ok t /\ Str.forallb figure_char t = true
           /\ piece_of t text
       | Ok None =>
           exists tokens,
             re_findall BatchProcessor.money_pattern text NOFLAGS = Ok tokens
             /\ match tokens with
                | [] => t = NOT_FOUND
                | _ :: _ => exists init, tokens = (init ++ [t])%list
                end
       | Raise _ => False
       end.
Proof.
  unfold BatchProcessor.extract_total, re_search, re_findall.
  destruct batch_total_compiles as (kw & gap & body & -> & Hro). cbn [bind].
  destruct (search IGNORECASE _ text) as [m|] eqn:Hs.
  - destruct (@group1_reads _ _ kw gap body text m Hro Hs) as (amt & Hg & Hamt).
    pose proof (@group_piece 1 _ _ _ _ _ Hs Hg) as Hp.
    rewrite Hg. exists amt. split; [reflexivity|].
    split; [right; split; [now apply figure_is_money | exact Hp]|].
    auto.
  - destruct batch_money_compiles as (money & -> & Hmo). cbn [bind].
    pose proof (findall_reads NOFLAGS money_char money text Hmo) as Htok.
    destruct (findall NOFLAGS money text) as [|t ts] eqn:Ef.
    + exists NOT_FOUND. split; [reflexivity|]. split; [now left|].
      exists []. auto.
    + destruct (StrFacts.last_ok (l := t :: ts)) as [x Hx]; [discriminate|].
      rewrite Hx. exists x. split; [reflexivity|].
      pose proof (@last_in _ _ _ Hx) as Hin. split.
      * right. split.
        -- rewrite Forall_forall in Htok. now apply Htok.
        -- apply (@findall_pieces NOFLAGS money text). now rewrite Ef.
      * exists (t :: ts). split; [reflexivity|]. now apply last_app.
Qed.

(** The first element a filter keeps, with what stands before it. *)
Lemma filter_first {A : Type} (keep : A -> bool) (l : list A) :
  (filter keep l = [] /\ forall x, In x l -> keep x = false)
  \/ exists before x after,
       l = (before ++ x :: after)%list
       /\ (forall y, In y before -> keep y = false)
       /\ keep x = true
       /\ filter keep l = x :: filter keep after.
Proof.
  induction l as [|a l IH]; [left; split; [reflexivity | intros x []]|].
  simpl. destruct (keep a) eqn:Ea.
  - right. exists [], a, l. repeat split; auto. intros y [].
  - destruct IH as [[Hf Hall]|(before & x & after & -> & Hb & Hx & Hf)].
    + left. split; [exact Hf|]. intros x [<-|Hin]; auto.
    + right. exists (a :: before), x, after. repeat split; auto.
      intros y [<-|Hin]; auto.
Qed.

(** The batch script's [extract_vendor]: the first line that is not blank,
    or "Unknown" when every line is. *)
Lemma batch_vendor_cases text :
  exists v,
    BatchProcessor.extract_vendor text = Ok v
    /\ v <> EmptyString
    /\ ((v = "Unknown"
         /\ forall line, In line (Str.split ReParse.LF text) ->
                         Str.strip line = EmptyString)
        \/ exists before line after,
             Str.split ReParse.LF text = (before ++ line :: after)%list
             /\ (forall l, In l before -> Str.strip l = EmptyString)
             /\ v = Str.strip line).
Proof.
  assert (Hblank : forall l, Str.nonempty (Str.strip l) = false ->
                             Str.strip l = EmptyString).
  { intros l H. destruct (Str.strip l); [reflexivity | discriminate]. }
  unfold BatchProcessor.extract_vendor.
  destruct (filter_first (fun line => Str.nonempty (Str.strip line))
              (Str.split ReParse.LF text))
    as [[Hf Hall]|(before & line & after & E & Hb & Hx & Hf)]; rewrite Hf.
  - exists "Unknown". split; [reflexivity|]. split; [discriminate|]. left.
    split; [reflexivity|]. intros line Hin. apply Hblank. now apply Hall.
  - exists (Str.strip line). split; [reflexivity|].
    split; [now apply StrFacts.nonempty_true|]. right.
    exists before, line, after. repeat split; auto.
Qed.

Lemma batch_date_returns text :
  exists d, BatchProcessor.extract_date text = Ok d.
Proof.
  destruct (StrptimeFacts.try_patterns_cases (clean_text_for_dates text)
              BatchProcessor.date_patterns) as (d & H & _);
    [vm_compute; reflexivity|].
  exists d. exact H.
Qed.

End BatchFacts.

(** X12. The batch script's [extract_vendor] returns on every text, never
    the empty string: it gives the first line (the text split at its line
    feeds) that is not blank, trimmed, whatever it says; and "Unknown" when
    every line is blank. So it takes a title line that the service's
    [extract_vendor] skips. *)
Theorem batch_vendor_is_first_line : forall text,
  (exists v,
     BatchProcessor.extract_vendor text = Ok v
     /\ v <> EmptyString
     /\ ((v = "Unknown"
          /\ forall line, In line (Str.split ReParse.LF text) ->
                          Str.strip line = EmptyString)
         \/ exists before line after,
              Str.split ReParse.LF text = (before ++ line :: after)%list
              /\ (forall l, In l before -> Str.strip l = EmptyString)
              /\ v = Str.strip line))
  /\ BatchProcessor.extract_vendor ("INVOICE #123" ++ NL ++ "Acme Corp LLC")
     = Ok "INVOICE #123"
  /\ BatchProcessor.extract_vendor (NL ++ "   " ++ NL ++ "  Acme  " ++ NL ++ "Other")
     = Ok "Acme"
  /\ BatchProcessor.extract_vendor (NL ++ "   " ++ NL) = Ok "Unknown"
  /\ Main.extract_vendor ("INVOICE #123" ++ NL ++ "Acme Corp LLC") 8
     = Ok ("Acme Corp LLC", ["Acme Corp LLC"]).
Proof.
  intros text. split; [apply BatchFacts.batch_vendor_cases|].
  repeat split; vm_compute; reflexivity.
Qed.

(** X13. The batch script's [extract_total] returns on every text. When the
    labelled pattern is found in the text, the result is what its group
    holds in the leftmost match: a piece of the text as it is written, made
    of digits, commas and periods, and not normalized ("1,23" stays "1,23",
    where the service gives "1.23"). When it is not found, the result is the
    last of the dollar amounts of the text, in the order of the text, not
    the largest: a piece of the text made of digits, commas, periods and
    dollar signs; and "Not found" when the text has no dollar amount. *)
Theorem batch_total_is_raw : forall text,
  (exists t,
     BatchProcessor.extract_total text = Ok t
     /\ (t = NOT_FOUND
         \/ Str.forallb money_char t = true /\ piece_of t text)
     /\ match re_search BatchProcessor.total_pattern text Re.IGNORECASE with
        | Ok (Some m) =>
            Re.group 1 m = Ok t /\ Str.forallb figure_char t = true
            /\ piece_of t text
        | Ok None =>
            exists tokens,
              re_findall BatchProcessor.money_pattern text Re.NOFLAGS
              = Ok tokens
              /\ match tokens with
                 | [] => t = NOT_FOUND
                 | _ :: _ => exists init, tokens = (init ++ [t])%list
                 end
        | Raise _ => False
        end)
  /\ BatchProcessor.extract_total "TOTAL 1,23" = Ok "1,23"
  /\ Main.extract_total "TOTAL 1,23" 80 = Ok ("1.23", ["1,23"])
  /\ BatchProcessor.extract_total "$5.00 $9.00 $7.00" = Ok "$7.00"
  /\ Main.extract_total "$5.00 $9.00 $7.00" 80
     = Ok ("9.00", ["$5.00"; "$9.00"; "$7.00"])
  /\ BatchProcessor.extract_total "Total: $12.50 and $99.00" = Ok "12.50"
  /\ BatchProcessor.extract_total "no amount" = Ok NOT_FOUND.
Proof.
  intros text. split; [apply BatchFacts.batch_total_cases|].
  repeat split; vm_compute; reflexivity.
Qed.

(** X14. [process_invoices] writes one row for each file of the folder whose
    name ends in ".pdf" (in any case), in the order of the listing, and
    none for the others; the row of a file is the "ERROR" row exactly when
    its OCR raised, for the three extractors return on every text;
    otherwise it holds the file name and what the extractors give on the
    text of the pages, each followed by a line feed. *)
Theorem batch_rows : forall folder,
  map (hd EmptyString) (BatchProcessor.process_invoices folder)
  = filter (fun name => Str.endswith ".pdf" (Str.lower name)) (map fst folder)
  /\ forall filename ocr row,
       BatchProcessor.process_file filename ocr = Some row ->
       match ocr with
       | Raise _ =>
           row = [filename; BatchProcessor.ERROR; BatchProcessor.ERROR;
                  BatchProcessor.ERROR]
       | Ok pages =>
           let text := BatchProcessor.text_of_pages pages in
           exists vendor date total,
             BatchProcessor.extract_vendor text = Ok vendor
             /\ BatchProcessor.extract_date text = Ok date
             /\ BatchProcessor.extract_total text = Ok total
             /\ row = [filename; vendor; date; total]
       end.
Proof.
  intros folder. split.
  - induction folder as [|[name ocr] folder IH]; [reflexivity|].
    cbn [BatchProcessor.process_invoices map fst filter].
    unfold BatchProcessor.process_file.
    destruct (Str.endswith ".pdf" (Str.lower name)); cbn [negb]; [|exact IH].
    match goal with
    | |- context [match ?b with Ok _ => _ | Raise _ => _ end] =>
        destruct b as [row|e] eqn:E
    end; cbn [map hd]; rewrite IH; f_equal.
    destruct ocr as [pages|]; cbn [bind] in E; [|discriminate].
    destruct (BatchProcessor.extract_vendor _); cbn [bind] in E; [|discriminate].
    destruct (BatchProcessor.extract_date _); cbn [bind] in E; [|discriminate].
    destruct (BatchProcessor.extract_total _); cbn [bind] in E; [|discriminate].
    injection E as <-. reflexivity.
  - intros filename ocr row. unfold BatchProcessor.process_file.
    destruct (negb _); [discriminate|].
    destruct ocr as [pages|e]; cbn [bind].
    + cbv zeta.
      destruct (BatchFacts.batch_vendor_cases
                  (BatchProcessor.text_of_pages pages)) as (v & -> & _).
      destruct (BatchFacts.batch_date_returns
                  (BatchProcessor.text_of_pages pages)) as (d & ->).
      destruct (BatchFacts.batch_total_cases
                  (BatchProcessor.text_of_pages pages)) as (t & -> & _).
      cbn [bind]. intros H. injection H as <-. exists v, d, t. repeat split.
    + intros H. injection H as <-. reflexivity.
Qed.

(** Witness for X14: a PDF whose OCR gave one page. *)
Lemma batch_rows_witness :
  exists vendor date total,
    BatchProcessor.extract_vendor
      (BatchProcessor.text_of_pages ["Acme Corp LLC"]) = Ok vendor
    /\ BatchProcessor.extract_date
         (BatchProcessor.text_of_pages ["Acme Corp LLC"]) = Ok date
    /\ BatchProcessor.extract_total
         (BatchProcessor.text_of_pages ["Acme Corp LLC"]) = Ok total
    /\ ["a.pdf"; "Acme Corp LLC"; "Not found"; "Not found"]
       = ["a.pdf"; vendor; date; total].
Proof.
  apply (proj2 (batch_rows []) "a.pdf" (Ok ["Acme Corp LLC"])).
  vm_compute. reflexivity.
Defined.

(** ** Page markers *)

Module MarkerFacts.
Import Re ReSem ReFacts.

Lemma marker_compiles :
  exists opt tail,
    ReParse.compile "\n?-{2,}\s*Page\s*\d+\s*-{2,}\n?"
    = Ok (Cat opt (Cat (Rep 2 None (Lit "-")) tail)).
Proof. eexists _, _. vm_compute. reflexivity. Qed.

Lemma dash_only fl a : lit_matches fl "-" a = true -> a = "-"%char.
Proof.
  destruct fl as [[] []];
    destruct a as [[] [] [] [] [] [] [] []]; vm_compute; congruence.
Qed.

(** A match of a pattern that asks for two dashes, after an optional
    start, has a dash among the characters it begins at. *)
Lemma dashes_needed fl opt tail c g c' g' :
  Matches fl (Cat opt (Cat (Rep 2 None (Lit "-")) tail)) c g c' g' ->
  Str.forallb no_minus (rest c) = false.
Proof.
  intros Hm.
  apply TotalFacts.Matches_cat_inv in Hm. destruct Hm as (c1 & g1 & Hopt & Hm).
  apply TotalFacts.Matches_cat_inv in Hm. destruct Hm as (c2 & g2 & Hrep & _).
  destruct (Matches_reads (fun _ => true) Hopt (TotalFacts.reads_only_top fl opt))
    as (w & Ew & _ & _).
  assert (Hd : exists s, rest c1 = String "-" s).
  { inversion Hrep; subst; try discriminate.
    match goal with
    | H : Matches fl (Lit "-") c1 _ _ _ |- _ => inversion H; subst
    end.
    match goal with
    | Hr : rest c1 = String ?a ?s, Ha : accepts fl (Lit "-") ?a = true |- _ =>
        apply dash_only in Ha; subst; eauto
    end. }
  destruct Hd as [s Hs]. rewrite Ew, Hs, forallb_app. simpl.
  apply andb_false_r.
Qed.

(** Where the pattern matches nowhere, [sub] changes nothing. *)
Lemma sub_go_unmatched fl r repl (A : ascii -> bool) :
  (forall c, Str.forallb A (rest c) = true -> match_here fl r c = None) ->
  forall s p i, Str.forallb A s = true -> sub_go fl r repl p i s 0 = s.
Proof.
  intros Hno. induction s as [|a s IH]; intros p i Hs.
  - cbn [sub_go]. rewrite Hno by exact Hs. reflexivity.
  - cbn [sub_go]. rewrite Hno by exact Hs.
    simpl in Hs. apply andb_prop in Hs as [_ Hs]. now rewrite IH.
Qed.

End MarkerFacts.

(** X15. [strip_page_markers] returns on every text, and returns a text
    without any "-" as it is: only where dashes stand can a page marker be
    taken out. *)
Theorem text_without_dashes_is_kept : forall text,
  (exists t, Main.strip_page_markers text = Ok t)
  /\ (Str.forallb no_minus text = true ->
      Main.strip_page_markers text = Ok text).
Proof.
  intros text. split; [apply ServeFacts.strip_page_markers_returns|].
  intros Hno. unfold Main.strip_page_markers, re_sub.
  destruct MarkerFacts.marker_compiles as (opt & tail & ->). cbn [bind].
  set (r := Re.Cat opt _).
  assert (Hnone : forall c, Str.forallb no_minus (Re.rest c) = true ->
                            Re.match_here Re.IGNORECASE r c = None).
  { intros c Hc.
    destruct (Re.match_here _ _ c) as [[c' g']|] eqn:Hm; [|reflexivity].
    apply ReFacts.match_here_sound in Hm.
    apply MarkerFacts.dashes_needed in Hm. congruence. }
  unfold Re.sub.
  now rewrite (@MarkerFacts.sub_go_unmatched _ _ _ no_minus Hnone _ _ _ Hno).
Qed.

(** ** The skip filter *)

Module SkipFacts.
Import Re.

Lemma skip_compiles :
  Main.p_regex Main.VENDOR_SKIP_KEYWORDS
  = Cat Bol (Group 1 (choice_regex SKIP_WORDS)).
Proof. vm_compute. reflexivity. Qed.

Lemma lit_self fl a : lit_matches fl a a = true.
Proof. unfold lit_matches. now rewrite Ascii.eqb_refl. Qed.

(** A word is matched where the subject goes on with it. *)
Lemma word_matches fl w : forall tail c g (k : cont),
  w <> EmptyString ->
  rest c = (w ++ tail)%string ->
  exists c', rmatch fl (word_regex w) c g k = k c' g.
Proof.
  induction w as [|a w IH]; intros tail c g k Hw Hr; [now elim Hw|].
  destruct w as [|b w].
  - cbn [word_regex rmatch]. unfold one_char. rewrite Hr. cbn [append].
    cbn [accepts]. rewrite lit_self. eauto.
  - cbn [word_regex]. fold (word_regex (String b w)). cbn [rmatch].
    unfold one_char at 1. rewrite Hr. cbn [append].
    cbn [accepts]. rewrite lit_self.
    apply (IH tail); [discriminate | reflexivity].
Qed.

Lemma startswith_split p : forall s,
  Str.startswith p s = true -> exists tail, s = (p ++ tail)%string.
Proof.
  induction p as [|a p IH]; intros s H; [exists s; reflexivity|].
  destruct s as [|b s]; [discriminate|]. simpl in H.
  apply andb_prop in H as [E H]. apply Ascii.eqb_eq in E. subst b.
  destruct (IH s H) as [tail ->]. exists tail. reflexivity.
Qed.

(** A choice between words matches where the subject goes on with one of
    them, whatever follows, when what comes after the choice always
    succeeds. *)
Lemma choice_matches fl ws : forall w c g (k : cont),
  In w ws -> w <> EmptyString ->
  Str.startswith w (rest c) = true ->
  (forall c' g', k c' g' <> None) ->
  rmatch fl (choice_regex ws) c g k <> None.
Proof.
  induction ws as [|v ws IH]; intros w c g k Hin Hw Hs Hk; [destruct Hin|].
  destruct (startswith_split _ _ Hs) as [tail Hr].
  destruct ws as [|v' ws].
  - destruct Hin as [->|[]]. cbn [choice_regex].
    destruct (@word_matches fl w tail c g k Hw Hr) as [c' ->]. apply Hk.
  - cbn [choice_regex]. fold (choice_regex (v' :: ws)). cbn [rmatch].
    destruct (rmatch fl (word_regex v) c g k) eqn:E; [discriminate|].
    destruct Hin as [->|Hin].
    + destruct (@word_matches fl w tail c g k Hw Hr) as [c' E']. rewrite E' in E.
      now apply Hk in E.
    + now apply (IH w).
Qed.

Lemma scan_hit fl r p i s :
  match_here fl r {| prev := p; pos := i; rest := s |} <> None ->
  scan fl r p i s <> None.
Proof.
  intros H. destruct s as [|a s]; cbn [scan];
    destruct (match_here fl r _) as [[c' g]|]; congruence.
Qed.

Lemma keyword_skipped line w :
  In w SKIP_WORDS -> Str.startswith w (Str.lower line) = true ->
  Main.skipped line = Ok true.
Proof.
  intros Hin Hs. unfold Main.skipped. cbv zeta.
  assert (Hw : w <> EmptyString).
  { intros ->. simpl in Hin. intuition discriminate. }
  assert (H : Main.is_some
                (Main.p_search Main.VENDOR_SKIP_KEYWORDS (Str.lower line)) = true).
  { unfold Main.p_search. rewrite skip_compiles. unfold search.
    destruct (scan _ _ None 0 (Str.lower line)) as [[[i j] g]|] eqn:E;
      [reflexivity|].
    exfalso. revert E. apply scan_hit. unfold match_here.
    cbn [rmatch pos Nat.eqb].
    eapply choice_matches; [exact Hin | exact Hw | exact Hs |].
    intros c' g'. discriminate. }
  rewrite H. reflexivity.
Qed.

End SkipFacts.

(** X16. A line that begins, in any letter case, with one of the words of
    [VENDOR_SKIP_KEYWORDS] is skipped by the filter whatever follows the
    word (the pattern has no word boundary), and so is never among the
    candidates of [extract_vendor]: "Total Solutions Inc" or
    "Shipley Corp" cannot be found as a vendor by scoring. *)
Theorem keyword_lines_are_never_candidates : forall line word,
  In word SKIP_WORDS ->
  Str.startswith word (Str.lower line) = true ->
  Main.skipped line = Ok true
  /\ forall text top_n_lines chosen cands,
       Main.extract_vendor text top_n_lines = Ok (chosen, cands) ->
       ~ In line cands.
Proof.
  intros line w Hin Hs.
  pose proof (SkipFacts.keyword_skipped line Hin Hs) as Hk.
  split; [exact Hk|].
  intros text n chosen cands H Hc.
  destruct (RankFacts.extract_vendor_shape text n)
    as (chosen' & cands' & H' & Hiff & _).
  rewrite H in H'. injection H' as <- <-.
  apply Hiff in Hc. destruct Hc as [_ Hc]. congruence.
Qed.

(** Witness for X16: a company whose name begins with "total". *)
Lemma keyword_lines_are_never_candidates_witness :
  Main.skipped "Total Solutions Inc" = Ok true.
Proof.
  refine (proj1 (@keyword_lines_are_never_candidates "Total Solutions Inc"
                   "total" _ _)).
  - simpl. tauto.
  - reflexivity.
Defined.

(** ** Page markers put in and taken out *)

Module RunFacts.
Import Re ReSem ReFacts.

Lemma marker_regex :
  ReParse.compile "\n?-{2,}\s*Page\s*\d+\s*-{2,}\n?" = Ok MARKER.
Proof. vm_compute. reflexivity. Qed.

Lemma rmatch_single fl r c g k :
  single r = true -> rmatch fl r c g k = one_char fl r c g k.
Proof. destruct r; simpl; intros H; try discriminate; reflexivity. Qed.

(** A greedy repetition of a one-character node reads a run [w] of
    characters the node accepts, when the run ends the repetition (by its
    upper bound, or by what follows) and the rest of the pattern succeeds
    after it. *)
Lemma rep_run fl r (Q : outcome -> Prop) w :
  forall tail fuel lo hi c g (k : cont),
    single r = true ->
    Str.forallb (accepts fl r) w = true ->
    rest c = (w ++ tail)%string ->
    String.length w < fuel ->
    lo <= String.length w ->
    (hi = Some (String.length w)
     \/ (hi = None
         /\ match tail with
            | EmptyString => True
            | String b _ => accepts fl r b = false
            end)) ->
    (forall c', rest c' = tail -> pos c' = pos c + String.length w ->
                exists o, k c' g = Some o /\ Q o) ->
    exists o, rep_loop (rmatch fl r) fuel lo hi c g k = Some o /\ Q o.
Proof.
  induction w as [|a w IH]; intros tail fuel lo hi c g k Hs Hw Hr Hf Hlo Hhi Hk.
  - simpl in Hr, Hlo, Hhi.
    assert (lo = 0) by lia. subst lo.
    assert (Hstop : exists o, k c g = Some o /\ Q o).
    { apply Hk; [exact Hr | simpl; lia]. }
    destruct fuel as [|fuel]; [lia|]. cbn [rep_loop Nat.eqb].
    destruct Hhi as [->|[-> Ht]]; cbn [hi_open]; [exact Hstop|].
    rewrite rmatch_single by exact Hs. unfold one_char. rewrite Hr.
    destruct tail as [|b t]; [exact Hstop|]. rewrite Ht. exact Hstop.
  - simpl in Hw. apply andb_prop in Hw as [Ha Hw].
    simpl in Hr, Hf, Hlo.
    destruct fuel as [|fuel]; [lia|]. cbn [rep_loop].
    assert (Hopen : hi_open hi = true).
    { destruct Hhi as [->|[-> _]]; reflexivity. }
    rewrite Hopen, rmatch_single by exact Hs.
    unfold one_char at 1. rewrite Hr, Ha. cbn [pos].
    assert (Hlt : Nat.ltb (pos c) (S (pos c)) = true) by (apply Nat.ltb_lt; lia).
    rewrite Hlt. cbn [orb].
    destruct (IH tail fuel (Nat.pred lo) (hi_pred hi)
                {| prev := Some a; pos := S (pos c); rest := (w ++ tail)%string |}
                g k Hs Hw eq_refl) as (o & Ho & HQ).
    + lia.
    + lia.
    + destruct Hhi as [->|[-> Ht]]; [left; reflexivity | right; auto].
    + intros c' Hc' Hp. apply Hk; [exact Hc'|]. cbn [pos] in Hp. simpl. lia.
    + rewrite Ho. eauto.
Qed.

Lemma rep_step fl r (Q : outcome -> Prop) lo hi w tail c g (k : cont) :
  single r = true ->
  Str.forallb (accepts fl r) w = true ->
  rest c = (w ++ tail)%string ->
  lo <= String.length w ->
  (hi = Some (String.length w)
   \/ (hi = None
       /\ match tail with
          | EmptyString => True
          | String b _ => accepts fl r b = false
          end)) ->
  (forall c', rest c' = tail -> pos c' = pos c + String.length w ->
              exists o, k c' g = Some o /\ Q o) ->
  exists o, rmatch fl (Rep lo hi r) c g k = Some o /\ Q o.
Proof.
  intros Hs Hw Hr Hlo Hhi Hk. cbn [rmatch].
  apply (@rep_run fl r Q w tail); auto.
  rewrite Hr, length_app. lia.
Qed.

Lemma lit_step fl r (Q : outcome -> Prop) a s c g (k : cont) :
  single r = true ->
  rest c = String a s ->
  accepts fl r a = true ->
  (forall c', rest c' = s -> pos c' = S (pos c) ->
              exists o, k c' g = Some o /\ Q o) ->
  exists o, rmatch fl r c g k = Some o /\ Q o.
Proof.
  intros Hs Hr Ha Hk. rewrite rmatch_single by exact Hs.
  unfold one_char. rewrite Hr, Ha. apply Hk; reflexivity.
Qed.

Lemma digit_accepted c :
  Chars.isdecimal c = true ->
  accepts IGNORECASE (Cls false [IDigit]) c = true.
Proof.
  intros H. unfold accepts, in_items. cbn [existsb item_matches xorb].
  now rewrite H.
Qed.

Lemma digit_is_no_blank c :
  Chars.isdecimal c = true ->
  accepts IGNORECASE (Cls false [ISpace]) c = false.
Proof.
  destruct c as [[] [] [] [] [] [] [] []]; vm_compute; congruence.
Qed.

Lemma marker_text i tail :
  (Main.page_marker i ++ tail)%string
  = String ReParse.LF
      ("--- Page " ++ (Num.dec (Z.of_nat (i + 1))
                       ++ (" ---" ++ String ReParse.LF tail)))%string.
Proof.
  unfold Main.page_marker. cbn [append].
  rewrite !append_assoc. reflexivity.
Qed.

Lemma marker_length i :
  String.length (Main.page_marker i)
  = 15 + String.length (Num.dec (Z.of_nat (i + 1))).
Proof.
  unfold Main.page_marker. cbn [String.length append].
  rewrite length_app. simpl. lia.
Qed.

Lemma cat_step fl r1 r2 (Q : outcome -> Prop) c g (k : cont) :
  (exists o, rmatch fl r1 c g (fun c' g' => rmatch fl r2 c' g' k) = Some o
             /\ Q o) ->
  exists o, rmatch fl (Cat r1 r2) c g k = Some o /\ Q o.
Proof. intros H. exact H. Qed.

(** At a marker, the pattern matches the marker and no more. *)
Lemma marker_matches i tail p n :
  exists o,
    match_here IGNORECASE MARKER
      {| prev := p; pos := n; rest := (Main.page_marker i ++ tail)%string |}
    = Some o
    /\ (pos (fst o) = n + String.length (Main.page_marker i)
        /\ rest (fst o) = tail).
Proof.
  rewrite marker_text, marker_length.
  set (D := Num.dec (Z.of_nat (i + 1))).
  assert (HD : Str.forallb Chars.isdecimal D = true) by apply NumFacts.dec_digits.
  assert (HD1 : exists d ds, D = String d ds /\ Chars.isdecimal d = true).
  { pose proof (NumFacts.dec_nonempty (Z.of_nat (i + 1))) as Hne. fold D in Hne.
    destruct D as [|d ds]; [discriminate|]. simpl in HD.
    apply andb_prop in HD as [Hd _]. eauto. }
  destruct HD1 as (d & ds & ED & Hd).
  unfold match_here.
  set (Q := fun o : outcome =>
              pos (fst o) = n + (15 + String.length D) /\ rest (fst o) = tail).
  unfold MARKER, LINE_FEED, DASHES, BLANKS.
  set (LF := ReParse.LF).
  (* the line feed *)
  apply cat_step.
  apply (@rep_step IGNORECASE (Lit LF) _ 0 (Some 1) (String LF "")
           ("--- Page " ++ (D ++ (" ---" ++ String LF tail)))%string);
    [reflexivity | reflexivity | reflexivity | simpl; lia | left; reflexivity |].
  intros c1 Hr1 Hp1. cbn [pos String.length] in Hp1. cbn beta.
  (* the dashes *)
  apply cat_step.
  apply (@rep_step IGNORECASE (Lit "-") _ 2 None "---"
           (" Page " ++ (D ++ (" ---" ++ String LF tail)))%string);
    [reflexivity | reflexivity | exact Hr1 | simpl; lia
    | right; split; reflexivity |].
  intros c2 Hr2 Hp2. cbn [String.length] in Hp2. cbn beta.
  (* a blank *)
  apply cat_step.
  apply (@rep_step IGNORECASE (Cls false [ISpace]) _ 0 None " "
           ("Page " ++ (D ++ (" ---" ++ String LF tail)))%string);
    [reflexivity | reflexivity | exact Hr2 | simpl; lia
    | right; split; reflexivity |].
  intros c3 Hr3 Hp3. cbn [String.length] in Hp3. cbn beta.
  (* P a g e *)
  apply cat_step.
  apply (@lit_step IGNORECASE (Lit "P") _ "P"
           ("age " ++ (D ++ (" ---" ++ String LF tail)))%string);
    [reflexivity | exact Hr3 | reflexivity |].
  intros c4 Hr4 Hp4. cbn beta.
  apply cat_step.
  apply (@lit_step IGNORECASE (Lit "a") _ "a"
           ("ge " ++ (D ++ (" ---" ++ String LF tail)))%string);
    [reflexivity | exact Hr4 | reflexivity |].
  intros c5 Hr5 Hp5. cbn beta.
  apply cat_step.
  apply (@lit_step IGNORECASE (Lit "g") _ "g"
           ("e " ++ (D ++ (" ---" ++ String LF tail)))%string);
    [reflexivity | exact Hr5 | reflexivity |].
  intros c6 Hr6 Hp6. cbn beta.
  apply cat_step.
  apply (@lit_step IGNORECASE (Lit "e") _ "e"
           (" " ++ (D ++ (" ---" ++ String LF tail)))%string);
    [reflexivity | exact Hr6 | reflexivity |].
  intros c7 Hr7 Hp7. cbn beta.
  (* a blank *)
  apply cat_step.
  apply (@rep_step IGNORECASE (Cls false [ISpace]) _ 0 None " "
           (D ++ (" ---" ++ String LF tail))%string);
    [reflexivity | reflexivity | exact Hr7 | simpl; lia | |].
  { right. split; [reflexivity|]. rewrite ED. cbn [append].
    now apply digit_is_no_blank. }
  intros c8 Hr8 Hp8. cbn [String.length] in Hp8. cbn beta.
  (* the page number *)
  apply cat_step.
  apply (@rep_step IGNORECASE (Cls false [IDigit]) _ 1 None D
           (" ---" ++ String LF tail)%string);
    [reflexivity | | exact Hr8 | rewrite ED; simpl; lia
    | right; split; reflexivity |].
  { apply (StrFacts.forallb_weaken Chars.isdecimal); [|exact HD].
    intros a Ha. now apply digit_accepted. }
  intros c9 Hr9 Hp9. cbn beta.
  (* a blank *)
  apply cat_step.
  apply (@rep_step IGNORECASE (Cls false [ISpace]) _ 0 None " "
           ("---" ++ String LF tail)%string);
    [reflexivity | reflexivity | exact Hr9 | simpl; lia
    | right; split; reflexivity |].
  intros c10 Hr10 Hp10. cbn [String.length] in Hp10. cbn beta.
  (* the dashes *)
  apply cat_step.
  apply (@rep_step IGNORECASE (Lit "-") _ 2 None "---" (String LF tail));
    [reflexivity | reflexivity | exact Hr10 | simpl; lia
    | right; split; reflexivity |].
  intros c11 Hr11 Hp11. cbn [String.length] in Hp11. cbn beta.
  (* the line feed *)
  apply (@rep_step IGNORECASE (Lit LF) _ 0 (Some 1) (String LF "") tail);
    [reflexivity | reflexivity | exact Hr11 | simpl; lia | left; reflexivity |].
  intros c12 Hr12 Hp12. cbn [String.length] in Hp12.
  eexists. split; [reflexivity|]. unfold Q. cbn [fst]. split; [lia | exact Hr12].
Qed.

Lemma line_feed_only a : lit_matches IGNORECASE ReParse.LF a = true -> a = ReParse.LF.
Proof.
  destruct a as [[] [] [] [] [] [] [] []]; vm_compute; congruence.
Qed.

(** A match of the pattern begins at a dash, or at a line feed before a
    dash. *)
Lemma marker_start c g c' g' :
  Matches IGNORECASE MARKER c g c' g' ->
  (exists s, rest c = String "-" s)
  \/ (exists s, rest c = String ReParse.LF (String "-" s)).
Proof.
  unfold MARKER. intros Hm.
  apply TotalFacts.Matches_cat_inv in Hm. destruct Hm as (c1 & g1 & Hopt & Hm).
  apply TotalFacts.Matches_cat_inv in Hm. destruct Hm as (c2 & g2 & Hrep & _).
  assert (Hd : exists s, rest c1 = String "-" s).
  { unfold DASHES in Hrep. inversion Hrep; subst; try discriminate.
    match goal with
    | H : Matches IGNORECASE (Lit "-") c1 _ _ _ |- _ => inversion H; subst
    end.
    match goal with
    | Hr : rest c1 = String ?a ?s, Ha : accepts IGNORECASE (Lit "-") ?a = true |- _ =>
        apply MarkerFacts.dash_only in Ha; subst; eauto
    end. }
  destruct Hd as [s Hs].
  unfold LINE_FEED in Hopt. inversion Hopt; subst; try discriminate.
  - left. eauto.
  - right.
    match goal with
    | H : Matches IGNORECASE (Lit ReParse.LF) c _ ?cm _ |- _ =>
        inversion H; subst
    end.
    match goal with
    | Hr : rest c = String ?a ?s0, Ha : accepts IGNORECASE (Lit ReParse.LF) ?a = true
      |- _ => apply line_feed_only in Ha; subst a; rewrite Hr
    end.
    match goal with
    | H : Matches IGNORECASE (Rep _ _ (Lit ReParse.LF)) _ _ c1 _ |- _ =>
        inversion H; subst; try discriminate
    end.
    cbn [step rest] in Hs. rewrite Hs. eauto.
Qed.

Lemma no_match_here p n a s :
  no_minus a = true ->
  no_dash_first s ->
  match_here IGNORECASE MARKER {| prev := p; pos := n; rest := String a s |}
  = None.
Proof.
  intros Ha Hs.
  destruct (match_here _ _ _) as [[c' g']|] eqn:Hm; [|reflexivity].
  apply match_here_sound, marker_start in Hm. cbn [rest] in Hm.
  destruct Hm as [[t E]|[t E]]; injection E as -> E.
  - discriminate Ha.
  - subst s. discriminate Hs.
Qed.

Lemma no_match_at_end p n :
  match_here IGNORECASE MARKER {| prev := p; pos := n; rest := "" |} = None.
Proof.
  destruct (match_here _ _ _) as [[c' g']|] eqn:Hm; [|reflexivity].
  apply match_here_sound, marker_start in Hm. cbn [rest] in Hm.
  destruct Hm as [[t E]|[t E]]; discriminate E.
Qed.

Lemma no_dash_first_app pg T :
  Str.forallb no_minus pg = true -> no_dash_first T ->
  no_dash_first (pg ++ T).
Proof.
  destruct pg as [|a pg]; simpl; [auto|].
  intros H _. now apply andb_prop in H as [Ha _].
Qed.

(** Over a page without dashes nothing is replaced. *)
Lemma sub_go_page repl pg : forall T p n,
  Str.forallb no_minus pg = true ->
  no_dash_first T ->
  exists p', sub_go IGNORECASE MARKER repl p n (pg ++ T) 0
             = (pg ++ sub_go IGNORECASE MARKER repl p' (n + String.length pg) T 0)%string.
Proof.
  induction pg as [|a pg IH]; intros T p n Hpg HT.
  - exists p. simpl. now rewrite Nat.add_0_r.
  - simpl in Hpg. apply andb_prop in Hpg as [Ha Hpg].
    cbn [append sub_go].
    rewrite (@no_match_here p n a (pg ++ T)%string Ha
               (@no_dash_first_app pg T Hpg HT)).
    destruct (IH T (Some a) (S n) Hpg HT) as [p' E]. exists p'.
    rewrite E. cbn [String.length]. now rewrite Nat.add_succ_r.
Qed.

(** The characters a match covered are passed over. *)
Lemma sub_go_skip fl r repl w : forall X p n,
  exists p', sub_go fl r repl p n (w ++ X) (String.length w)
             = sub_go fl r repl p' (n + String.length w) X 0.
Proof.
  induction w as [|a w IH]; intros X p n.
  - exists p. simpl. now rewrite Nat.add_0_r.
  - destruct (IH X (Some a) (S n)) as [p' E]. exists p'.
    cbn [append String.length sub_go]. rewrite E. now rewrite Nat.add_succ_r.
Qed.

(** At a marker, the marker is replaced. *)
Lemma sub_go_marker repl i X p n :
  exists p', sub_go IGNORECASE MARKER repl p n (Main.page_marker i ++ X) 0
             = (repl ++ sub_go IGNORECASE MARKER repl p'
                          (n + String.length (Main.page_marker i)) X 0)%string.
Proof.
  destruct (marker_matches i X p n) as ([c' g'] & Hm & Hp & _).
  cbn [fst] in Hp.
  remember (Main.page_marker i) as m eqn:Em.
  assert (Hm' : exists w, m = String ReParse.LF w).
  { subst m. unfold Main.page_marker. eauto. }
  destruct Hm' as [w ->]. cbn [append] in Hm. cbn [append sub_go]. rewrite Hm.
  cbn [String.length] in Hp.
  replace (pos c' - n) with (S (String.length w)) by lia.
  destruct (sub_go_skip IGNORECASE MARKER repl w X (Some ReParse.LF) (S n))
    as [p' E].
  exists p'. rewrite E. cbn [String.length].
  now rewrite Nat.add_succ_r.
Qed.

Lemma marked_no_dash_first i pages : no_dash_first (marked_pages i pages).
Proof. destruct pages; simpl; [exact I | reflexivity]. Qed.

(** All the markers of a PDF text are replaced by the line feed. *)
Lemma sub_go_marked pages : forall i p n,
  Forall (fun page => Str.forallb no_minus page = true) pages ->
  sub_go IGNORECASE MARKER (String ReParse.LF "") p n (marked_pages i pages) 0
  = plain_pages pages.
Proof.
  induction pages as [|pg pages IH]; intros i p n Hall.
  - cbn [marked_pages plain_pages sub_go]. now rewrite no_match_at_end.
  - inversion Hall as [|? ? Hpg Hrest]; subst.
    cbn [marked_pages plain_pages]. rewrite append_assoc.
    destruct (sub_go_marker (String ReParse.LF "") i
                (pg ++ marked_pages (S i) pages) p n) as [p1 ->].
    destruct (@sub_go_page (String ReParse.LF "") pg (marked_pages (S i) pages)
                p1 (n + String.length (Main.page_marker i)) Hpg
                (marked_no_dash_first (S i) pages)) as [p2 ->].
    rewrite IH by exact Hrest. reflexivity.
Qed.

Lemma read_pages_marked pages : forall i acc,
  Main.read_pages (PyList.enumerate_from i pages) acc
  = (acc ++ marked_pages i pages)%string.
Proof.
  induction pages as [|pg pages IH]; intros i acc;
    cbn [PyList.enumerate_from Main.read_pages marked_pages].
  - now rewrite append_nil_r.
  - rewrite IH, !append_assoc. reflexivity.
Qed.

End RunFacts.

(** X17. The page markers that [/parse] writes before the pages of a PDF
    are the ones [strip_page_markers] takes out: when no page holds a "-",
    the text built, a line feed, "--- Page i ---", a line feed and the page
    for i = 1, 2, ..., comes out as the pages with one line feed before
    each, whatever the number of pages and their text. *)
Theorem page_markers_are_removed : forall pages,
  Forall (fun page => Str.forallb no_minus page = true) pages ->
  Main.strip_page_markers (Main.read_pages (PyList.enumerate pages) "")
  = Ok (plain_pages pages).
Proof.
  intros pages Hall. unfold Main.strip_page_markers, re_sub.
  rewrite RunFacts.marker_regex. cbn [bind]. unfold Re.sub, PyList.enumerate.
  rewrite RunFacts.read_pages_marked. cbn [append].
  now rewrite RunFacts.sub_go_marked.
Qed.

(** Witness for X17: two pages. *)
Lemma page_markers_are_removed_witness :
  Main.strip_page_markers
    (Main.read_pages (PyList.enumerate ["Acme Corp LLC"; "Total due: $123.45"]) "")
  = Ok (plain_pages ["Acme Corp LLC"; "Total due: $123.45"]).
Proof.
  apply page_markers_are_removed. repeat constructor.
Defined.

